(** * AI vs AI Tetris arena: a shallow embedding of the Python sources

    The development follows the four modules of the repository:
    [game_engine.py] (pieces and boards), [bank.py] (the shared pool of
    pieces), [ai_agent.py] (placement search and attack selection) and
    [arena.py] (the match loop and its log).

    Python integers are [Z].  A cell of a grid or of a shape holds 0 or 1 in
    the source and is only ever tested for truth, so it is a [bool] here.
    An uncaught Python exception is a [Raise]; the wall clock and the
    [random] module are read from an explicit [World]. *)

From Stdlib Require Import ZArith Lia.
From stdpp Require Import base option list strings gmap.

Local Open Scope Z_scope.

(** ** The Python runtime: exceptions, list indexing, clock and randomness *)

Module Py.

Inductive exn := IndexError | KeyError | ValueError.

Inductive res (A : Type) : Type :=
| Ok (a : A)
| Raise (e : exn).
Arguments Ok {A} a.
Arguments Raise {A} e.

Definition bind {A B} (m : res A) (k : A → res B) : res B :=
  match m with
  | Ok a => k a
  | Raise e => Raise e
  end.

(** [l[i]]: a negative index counts from the end. *)
Definition index {A} (l : list A) (i : Z) : res A :=
  let n := Z.of_nat (length l) in
  let j := if i <? 0 then n + i else i in
  if (0 <=? j) && (j <? n)
  then match l !! Z.to_nat j with Some a => Ok a | None => Raise IndexError end
  else Raise IndexError.

(** [l[i] = v] *)
Definition setitem {A} (l : list A) (i : Z) (v : A) : res (list A) :=
  let n := Z.of_nat (length l) in
  let j := if i <? 0 then n + i else i in
  if (0 <=? j) && (j <? n) then Ok (<[Z.to_nat j := v]> l) else Raise IndexError.

(** [del l[i]] *)
Definition delitem {A} (l : list A) (i : Z) : res (list A) :=
  let n := Z.of_nat (length l) in
  let j := if i <? 0 then n + i else i in
  if (0 <=? j) && (j <? n) then Ok (delete (Z.to_nat j) l) else Raise IndexError.

(** [l.pop(0)], keeping only the list that is left. *)
Definition pop0 {A} (l : list A) : res (list A) :=
  match l with
  | [] => Raise IndexError
  | _ :: l' => Ok l'
  end.

(** [range(n)] *)
Definition range (n : Z) : list Z := seqZ 0 n.

(** [all(l)] and [any(l)] on a list of cells. *)
Definition all (l : list bool) : bool := forallb id l.
Definition any (l : list bool) : bool := existsb id l.

(** [for x in l: s = body(s, x)], stopping at the first exception. *)
Fixpoint for_each {S A} (l : list A) (body : S → A → res S) (s : S) : res S :=
  match l with
  | [] => Ok s
  | x :: l' => bind (body s x) (for_each l' body)
  end.

(** What the program reads from outside: the values [random] hands out and
    the successive readings of [time.time()].  A tape that has run out reads
    as 0. *)
Record World := { rand_tape : list nat; clock_tape : list Z }.

Definition eff (A : Type) : Type := World → res (A * World).

Definition eff_ret {A} (a : A) : eff A := λ w, Ok (a, w).

Definition eff_bind {A B} (m : eff A) (k : A → eff B) : eff B :=
  λ w, match m w with
       | Ok (a, w') => k a w'
       | Raise e => Raise e
       end.

Definition lift {A} (m : res A) : eff A :=
  λ w, match m with Ok a => Ok (a, w) | Raise e => Raise e end.

(** [time.time()] *)
Definition time : eff Z :=
  λ w, Ok (hd 0 (clock_tape w),
           {| rand_tape := rand_tape w; clock_tape := tl (clock_tape w) |}).

(** The next random value below [n] (for [0 < n]). *)
Definition randbelow (n : nat) : eff nat :=
  λ w, Ok ((hd 0 (rand_tape w) `mod` n)%nat,
           {| rand_tape := tl (rand_tape w); clock_tape := clock_tape w |}).

(** [random.randint(a, b)]: a value of [a..b], both ends included. *)
Definition randint (a b : Z) : eff Z :=
  if b <? a then λ _, Raise ValueError
  else eff_bind (randbelow (Z.to_nat (b - a + 1))) (λ k, eff_ret (a + Z.of_nat k)).

(** [random.choice(l)] *)
Definition choice {A} (l : list A) : eff A :=
  match l with
  | [] => λ _, Raise IndexError
  | _ => eff_bind (randbelow (length l))
           (λ k, match l !! k with
                 | Some a => eff_ret a
                 | None => λ _, Raise IndexError
                 end)
  end.

Fixpoint eff_for_each {S A} (l : list A) (body : S → A → eff S) (s : S) : eff S :=
  match l with
  | [] => eff_ret s
  | x :: l' => eff_bind (body s x) (eff_for_each l' body)
  end.

End Py.

Notation "x <- m ;; k" := (Py.bind m (λ x, k))
  (at level 100, m at next level, right associativity, only parsing).
Notation "x <~ m ;; k" := (Py.eff_bind m (λ x, k))
  (at level 100, m at next level, right associativity, only parsing).

(** ** game_engine.py *)

Module GameEngine.

Import Py.

Abbreviation matrix := (list (list bool)).

Definition SHAPES : gmap string matrix :=
  list_to_map
    [ ("I", [[true; true; true; true]]);
      ("O", [[true; true]; [true; true]]);
      ("T", [[false; true; false]; [true; true; true]]);
      ("S", [[false; true; true]; [true; true; false]]);
      ("Z", [[true; true; false]; [false; true; true]]);
      ("L", [[true; false]; [true; false]; [true; true]]);
      ("J", [[false; true]; [false; true]; [true; true]]) ]%string.

Record Tetromino := { type : string; shape : matrix; rotation : Z }.

(** [Tetromino(shape_type)] *)
Definition new_Tetromino (shape_type : string) : res Tetromino :=
  match SHAPES !! shape_type with
  | Some s => Ok {| type := shape_type; shape := s; rotation := 0 |}
  | None => Raise KeyError
  end.

(** [zip] applied to the unpacked [rows]: the columns of [rows], as many
    as the shortest row has cells; [n] bounds their number. *)
Fixpoint zip_star (n : nat) (rows : matrix) : matrix :=
  match n with
  | O => []
  | S n' =>
    match rows with
    | [] => []
    | _ => match mapM head rows with
           | Some col => col :: zip_star n' (map (drop 1) rows)
           | None => []
           end
    end
  end.

Definition rotate (p : Tetromino) : Tetromino :=
  let rev := reverse (shape p) in
  {| type := type p;
     shape := zip_star (length (default [] (head rev))) rev;
     rotation := (rotation p + 1) `mod` 4 |}.

Definition get_width (p : Tetromino) : Z :=
  match shape p with
  | [] => 0
  | row :: _ => Z.of_nat (length row)
  end.

Definition get_height (p : Tetromino) : Z := Z.of_nat (length (shape p)).

Record GameBoard := {
  width : Z;
  height : Z;
  grid : matrix;
  score : Z;
  lines_cleared : Z;
  game_over : bool
}.

(** [GameBoard(width, height)] *)
Definition new_GameBoard (width height : Z) : GameBoard :=
  {| width := width; height := height;
     grid := replicate (Z.to_nat height) (replicate (Z.to_nat width) false);
     score := 0; lines_cleared := 0; game_over := false |}.

Definition set_grid (b : GameBoard) (g : matrix) : GameBoard :=
  {| width := width b; height := height b; grid := g; score := score b;
     lines_cleared := lines_cleared b; game_over := game_over b |}.

(** The inner loop of [can_place] over the cells of one row of the piece,
    from column [col_idx] on.  [Ok false] is the early [return False];
    [Ok true] means the loop ran to its end. *)
Fixpoint can_place_row (b : GameBoard) (x y row_idx col_idx : Z)
    (row : list bool) : res bool :=
  match row with
  | [] => Ok true
  | cell :: rest =>
    if cell then
      let board_y := y + row_idx in
      let board_x := x + col_idx in
      if (board_x <? 0) || (board_x >=? width b) ||
         (board_y <? 0) || (board_y >=? height b)
      then Ok false
      else
        r <- index (grid b) board_y ;;
        c <- index r board_x ;;
        if c then Ok false
        else can_place_row b x y row_idx (col_idx + 1) rest
    else can_place_row b x y row_idx (col_idx + 1) rest
  end.

Fixpoint can_place_rows (b : GameBoard) (x y row_idx : Z)
    (rows : matrix) : res bool :=
  match rows with
  | [] => Ok true
  | row :: rest =>
    ok <- can_place_row b x y row_idx 0 row ;;
    if ok then can_place_rows b x y (row_idx + 1) rest else Ok false
  end.

Definition can_place (b : GameBoard) (piece : Tetromino) (x y : Z) : res bool :=
  can_place_rows b x y 0 (shape piece).

(** [self.grid[board_y][board_x] = 1] *)
Definition fill_cell (g : matrix) (board_y board_x : Z) : res matrix :=
  r <- index g board_y ;;
  r' <- setitem r board_x true ;;
  setitem g board_y r'.

Fixpoint place_row (w h : Z) (x y row_idx col_idx : Z)
    (row : list bool) (g : matrix) : res matrix :=
  match row with
  | [] => Ok g
  | cell :: rest =>
    if cell then
      let board_y := y + row_idx in
      let board_x := x + col_idx in
      if (0 <=? board_y) && (board_y <? h) && (0 <=? board_x) && (board_x <? w)
      then
        g' <- fill_cell g board_y board_x ;;
        place_row w h x y row_idx (col_idx + 1) rest g'
      else place_row w h x y row_idx (col_idx + 1) rest g
    else place_row w h x y row_idx (col_idx + 1) rest g
  end.

Fixpoint place_rows (w h : Z) (x y row_idx : Z)
    (rows : matrix) (g : matrix) : res matrix :=
  match rows with
  | [] => Ok g
  | row :: rest =>
    g' <- place_row w h x y row_idx 0 row g ;;
    place_rows w h x y (row_idx + 1) rest g'
  end.

Definition place_piece (b : GameBoard) (piece : Tetromino) (x y : Z)
    : res GameBoard :=
  g <- place_rows (width b) (height b) x y 0 (shape piece) (grid b) ;;
  Ok (set_grid b g).

(** The first loop of [clear_lines]: the rows [y] of [ys] with
    [all(self.grid[y])], in order. *)
Fixpoint full_lines (g : matrix) (ys : list Z) : res (list Z) :=
  match ys with
  | [] => Ok []
  | y :: ys' =>
    row <- index g y ;;
    rest <- full_lines g ys' ;;
    Ok (if all row then y :: rest else rest)
  end.

(** The second loop: [del self.grid[y]] and a fresh empty row at the top. *)
Fixpoint delete_lines (w : Z) (ys : list Z) (g : matrix) : res matrix :=
  match ys with
  | [] => Ok g
  | y :: ys' =>
    g' <- delitem g y ;;
    delete_lines w ys' (replicate (Z.to_nat w) false :: g')
  end.

Definition score_table (num_cleared : Z) : Z :=
  if num_cleared =? 1 then 100
  else if num_cleared =? 2 then 300
  else if num_cleared =? 3 then 500
  else if num_cleared =? 4 then 800
  else num_cleared * 100.

(** [clear_lines] returns the number of cleared lines and the new board. *)
Definition clear_lines (b : GameBoard) : res (Z * GameBoard) :=
  lines_to_clear <- full_lines (grid b) (range (height b)) ;;
  g <- delete_lines (width b) lines_to_clear (grid b) ;;
  let num_cleared := Z.of_nat (length lines_to_clear) in
  if num_cleared >? 0 then
    Ok (num_cleared,
        {| width := width b; height := height b; grid := g;
           score := score b + score_table num_cleared;
           lines_cleared := lines_cleared b + num_cleared;
           game_over := game_over b |})
  else Ok (num_cleared, set_grid b g).

(** [[1] * width] with [garbage_line[hole_position] = 0] *)
Definition garbage_line (w hole_position : Z) : res (list bool) :=
  setitem (replicate (Z.to_nat w) true) hole_position false.

Definition add_garbage_line (w : Z) (g : matrix) : eff matrix :=
  g' <~ lift (pop0 g) ;;
  hole_position <~ randint 0 (w - 1) ;;
  line <~ lift (garbage_line w hole_position) ;;
  eff_ret (g' ++ [line]).

Definition add_garbage_lines (b : GameBoard) (num_lines : Z) : eff GameBoard :=
  g <~ eff_for_each (range num_lines)
         (λ g _, add_garbage_line (width b) g) (grid b) ;;
  eff_ret (set_grid b g).

Definition is_game_over (b : GameBoard) : res bool :=
  top <- index (grid b) 0 ;;
  Ok (any top).

(** The inner loop of [get_height_map] for column [x]: the first filled
    row [y] of [ys] gives [self.height - y]; none gives 0. *)
Fixpoint column_height (b : GameBoard) (x : Z) (ys : list Z) : res Z :=
  match ys with
  | [] => Ok 0
  | y :: ys' =>
    r <- index (grid b) y ;;
    c <- index r x ;;
    if c then Ok (height b - y) else column_height b x ys'
  end.

Definition get_height_map (b : GameBoard) : res (list Z) :=
  for_each (range (width b))
    (λ heights x,
       h <- column_height b x (range (height b)) ;;
       Ok (heights ++ [h]))
    [].

(** [max(heights) if heights else 0] *)
Definition get_max_height (b : GameBoard) : res Z :=
  heights <- get_height_map b ;;
  Ok (match heights with
      | [] => 0
      | h :: hs => foldl Z.max h hs
      end).

End GameEngine.

(** ** bank.py *)

Module Bank.

Import Py.

Definition TETROMINO_TYPES : list string :=
  ["I"; "O"; "T"; "S"; "Z"; "L"; "J"]%string.

Record FigureBank := { bank : gmap string Z; initial_count : Z }.

(** [FigureBank(initial_count)] *)
Definition new_FigureBank (initial_count : Z) : FigureBank :=
  {| bank := list_to_map (map (λ piece_type, (piece_type, initial_count))
                            TETROMINO_TYPES);
     initial_count := initial_count |}.

(** [get_piece] returns its boolean and the bank it leaves. *)
Definition get_piece (fb : FigureBank) (piece_type : string)
    : bool * FigureBank :=
  match bank fb !! piece_type with
  | None => (false, fb)
  | Some count =>
    if count >? 0
    then (true, {| bank := <[piece_type := count - 1]> (bank fb);
                   initial_count := initial_count fb |})
    else (false, fb)
  end.

Definition is_available (fb : FigureBank) (piece_type : string) : bool :=
  match bank fb !! piece_type with
  | None => false
  | Some count => count >? 0
  end.

Definition get_available_pieces (fb : FigureBank) : res (list string) :=
  for_each TETROMINO_TYPES
    (λ acc piece_type,
       match bank fb !! piece_type with
       | None => Raise KeyError
       | Some count => Ok (if count >? 0 then acc ++ [piece_type] else acc)
       end)
    [].

Definition get_random_available (fb : FigureBank) : eff (option string) :=
  available <~ lift (get_available_pieces fb) ;;
  match available with
  | [] => eff_ret None
  | _ => p <~ choice available ;; eff_ret (Some p)
  end.

(** [get_state] hands out a copy of the dictionary. *)
Definition get_state (fb : FigureBank) : gmap string Z := bank fb.

(** [self.bank.values()].  Python hands the values out in insertion order,
    the map here in the order of its keys; [all] and [sum] below do not
    depend on it. *)
Definition values (fb : FigureBank) : list Z := (map_to_list (bank fb)).*2.

(** [all(count == 0 for count in self.bank.values())] *)
Definition is_empty (fb : FigureBank) : bool :=
  forallb (λ count, count =? 0) (values fb).

(** [sum(self.bank.values())] *)
Definition get_total_remaining (fb : FigureBank) : Z :=
  foldl Z.add 0 (values fb).

End Bank.

(** ** ai_agent.py *)

Module AiAgent.

Import Py GameEngine.

Record AIAgent := {
  name : string;
  strategy : string;
  decision_times : list Z
}.

Definition placement : Type := Z * Z * Z.

(** The [while] loop of the drop: [y] goes up by one as long as
    [y < board.height and board.can_place(piece_copy, x, y)].  The loop
    leaves after at most [board.height] rounds from 0, which is the fuel it
    is given. *)
Fixpoint drop_loop (fuel : nat) (board : GameBoard) (piece_copy : Tetromino)
    (x y : Z) : res Z :=
  match fuel with
  | O => Ok y
  | S fuel' =>
    if y <? height board then
      ok <- can_place board piece_copy x y ;;
      if ok then drop_loop fuel' board piece_copy x (y + 1) else Ok y
    else Ok y
  end.

(** The drop of [decide_placement] for one column: the row the piece comes
    to rest on, or [None] when the column is skipped. *)
Definition hard_drop (board : GameBoard) (piece_copy : Tetromino) (x : Z)
    : res (option Z) :=
  y <- drop_loop (Z.to_nat (height board)) board piece_copy x 0 ;;
  let y := y - 1 in
  if y >=? 0 then
    ok <- can_place board piece_copy x y ;;
    Ok (if ok then Some y else None)
  else Ok None.

Definition _count_potential_lines (board : GameBoard) : res Z :=
  for_each (range (height board))
    (λ count y,
       row <- index (grid board) y ;;
       Ok (if all row then count + 1 else count))
    0.

(** The inner loop of the hole count, for column [col_x]:
    [(found_block, holes)] over the rows of [range(board.height)]. *)
Definition count_holes_column (board test_board : GameBoard) (col_x : Z)
    (holes : Z) : res Z :=
  st <- for_each (range (height board))
          (λ (st : bool * Z) row_y,
             let '(found_block, holes) := st in
             r <- index (grid test_board) row_y ;;
             c <- index r col_x ;;
             if c then Ok (true, holes)
             else if found_block then Ok (found_block, holes + 1)
             else Ok (found_block, holes))
          (false, holes) ;;
  Ok (snd st).

(** [sum(abs(heights[i] - heights[i+1]) for i in range(len(heights) - 1))] *)
Definition bumpiness_of (heights : list Z) : res Z :=
  for_each (range (Z.of_nat (length heights) - 1))
    (λ acc i,
       a <- index heights i ;;
       b <- index heights (i + 1) ;;
       Ok (acc + Z.abs (a - b)))
    0.

Definition _evaluate_position (ai : AIAgent) (board : GameBoard)
    (piece : Tetromino) (x y : Z) : res Z :=
  let test_board :=
    set_grid (new_GameBoard (width board) (height board)) (grid board) in
  test_board <- place_piece test_board piece x y ;;
  max_height <- get_max_height test_board ;;
  heights <- get_height_map test_board ;;
  bumpiness <- bumpiness_of heights ;;
  holes <- for_each (range (width board))
             (λ holes col_x, count_holes_column board test_board col_x holes) 0 ;;
  if String.eqb (strategy ai) "greedy" then
    Ok (- max_height * 2 - holes * 5 - bumpiness)
  else if String.eqb (strategy ai) "defensive" then
    Ok (- max_height * 3 - holes * 10 - bumpiness * 2)
  else if String.eqb (strategy ai) "aggressive" then
    lines_cleared <- _count_potential_lines test_board ;;
    Ok (lines_cleared * 100 - max_height - holes * 3)
  else Ok (- max_height - holes).

(** The two variables the search updates together: [best_position] and
    [best_score].  A [best_score] of [None] is [float('-inf')]. *)
Record best := { best_position : option placement; best_score : option Z }.

Definition score_gt (score : Z) (best_score : option Z) : bool :=
  match best_score with
  | None => true
  | Some s => score >? s
  end.

(** The body of the loop over [x]. *)
Definition try_column (ai : AIAgent) (board : GameBoard)
    (piece_copy : Tetromino) (rotation : Z) (bst : best) (x : Z) : res best :=
  r <- hard_drop board piece_copy x ;;
  match r with
  | Some y =>
    score <- _evaluate_position ai board piece_copy x y ;;
    if score_gt score (best_score bst)
    then Ok {| best_position := Some (x, y, rotation); best_score := Some score |}
    else Ok bst
  | None => Ok bst
  end.

(** [Tetromino(piece_type)] rotated [rotation] times. *)
Definition rotated (piece_type : string) (rotation : Z) : res Tetromino :=
  piece_copy <- new_Tetromino piece_type ;;
  for_each (range rotation) (λ p _, Ok (rotate p)) piece_copy.

(** The body of the loop over [rotation]. *)
Definition try_rotation (ai : AIAgent) (board : GameBoard)
    (piece : Tetromino) (bst : best) (rotation : Z) : res best :=
  piece_copy <- rotated (type piece) rotation ;;
  for_each (range (width board - get_width piece_copy + 1))
    (try_column ai board piece_copy rotation) bst.

(** The search of [decide_placement]: both loops, from nothing found. *)
Definition search (ai : AIAgent) (board : GameBoard) (piece : Tetromino)
    : res best :=
  for_each (range 4) (try_rotation ai board piece)
    {| best_position := None; best_score := None |}.

(** [decide_placement] returns the placement and the agent with one more
    timing sample. *)
Definition decide_placement (ai : AIAgent) (board : GameBoard)
    (piece : Tetromino) : eff (placement * AIAgent) :=
  start_time <~ time ;;
  bst <~ lift (search ai board piece) ;;
  now <~ time ;;
  let decision_time := now - start_time in
  let ai := {| name := name ai; strategy := strategy ai;
               decision_times := decision_times ai ++ [decision_time] |} in
  match best_position bst with
  | Some pos => eff_ret (pos, ai)
  | None => eff_ret ((width board `div` 2, 0, 0), ai)
  end.

Definition choose_attack_piece (ai : AIAgent) (fb : Bank.FigureBank)
    : eff (option string) :=
  available <~ lift (Bank.get_available_pieces fb) ;;
  match available with
  | [] => eff_ret None
  | _ =>
    let default := (p <~ choice available ;; eff_ret (Some p)) in
    if String.eqb (strategy ai) "aggressive" then
      let difficult_pieces := ["T"; "L"; "J"]%string in
      let difficult_available :=
        filter (λ p, p ∈ available) difficult_pieces in
      match difficult_available with
      | [] => default
      | _ => p <~ choice difficult_available ;; eff_ret (Some p)
      end
    else if String.eqb (strategy ai) "defensive" then
      let easy_pieces := ["I"; "O"]%string in
      let easy_available := filter (λ p, p ∈ available) easy_pieces in
      match easy_available with
      | [] => default
      | _ => p <~ choice easy_available ;; eff_ret (Some p)
      end
    else default
  end.

End AiAgent.

(** ** arena.py *)

Module Arena.

Import Py.

(** The two kinds of dictionaries [MatchLog] appends to [events]. *)
Inductive event :=
| TurnEvent (turn : Z) (player piece_type : string)
    (placement : Z * Z * Z) (lines_cleared decision_time : Z)
    (bank_state : gmap string Z) (attack_piece : option string)
    (timestamp : Z)
| GameOverEvent (winner : string) (scores lines_cleared : Z * Z)
    (timestamp : Z).

Record MatchLog := { events : list event; start_time : Z }.

(** [MatchLog()] *)
Definition new_MatchLog : eff MatchLog :=
  now <~ time ;;
  eff_ret {| events := []; start_time := now |}.

Definition log_turn (l : MatchLog) (turn : Z) (player piece_type : string)
    (placement : Z * Z * Z) (lines_cleared decision_time : Z)
    (bank_state : gmap string Z) (attack_piece : option string)
    : eff MatchLog :=
  now <~ time ;;
  let event :=
    TurnEvent turn player piece_type
      (placement.1.1, placement.1.2, placement.2)
      lines_cleared decision_time bank_state attack_piece
      (now - start_time l) in
  eff_ret {| events := events l ++ [event]; start_time := start_time l |}.

Definition log_game_over (l : MatchLog) (winner : string)
    (ai1_score ai2_score ai1_lines ai2_lines : Z) : eff MatchLog :=
  now <~ time ;;
  let event :=
    GameOverEvent winner (ai1_score, ai2_score) (ai1_lines, ai2_lines)
      (now - start_time l) in
  eff_ret {| events := events l ++ [event]; start_time := start_time l |}.

Record Arena := {
  ai1 : AiAgent.AIAgent;
  ai2 : AiAgent.AIAgent;
  board1 : GameEngine.GameBoard;
  board2 : GameEngine.GameBoard;
  bank : Bank.FigureBank;
  log : MatchLog;
  turn : Z;
  current_piece_ai1 : option string;
  current_piece_ai2 : option string;
  garbage_queue_ai1 : Z;
  garbage_queue_ai2 : Z
}.

(** [Arena(ai1, ai2, bank)] *)
Definition new_Arena (ai1 ai2 : AiAgent.AIAgent) (bank : Bank.FigureBank)
    : eff Arena :=
  log <~ new_MatchLog ;;
  eff_ret {| ai1 := ai1; ai2 := ai2;
             board1 := GameEngine.new_GameBoard 10 20;
             board2 := GameEngine.new_GameBoard 10 20;
             bank := bank; log := log; turn := 0;
             current_piece_ai1 := None; current_piece_ai2 := None;
             garbage_queue_ai1 := 0; garbage_queue_ai2 := 0 |}.

(** [_get_next_piece] returns the piece type and the bank it leaves. *)
Definition _get_next_piece (fb : Bank.FigureBank)
    : eff (string * Bank.FigureBank) :=
  piece_type <~ Bank.get_random_available fb ;;
  match piece_type with
  | Some t =>
    if String.eqb t "" then
      t' <~ choice Bank.TETROMINO_TYPES ;; eff_ret (t', fb)
    else eff_ret (t, (Bank.get_piece fb t).2)
  | None =>
    t' <~ choice Bank.TETROMINO_TYPES ;; eff_ret (t', fb)
  end.

(** What [play_turn] returns, with the agent and the board as it leaves
    them. *)
Record turn_result := {
  tr_lines_cleared : Z;
  tr_decision_time : Z;
  tr_attack_piece : option string;
  tr_ai : AiAgent.AIAgent;
  tr_board : GameEngine.GameBoard
}.

Definition set_game_over (b : GameEngine.GameBoard) : GameEngine.GameBoard :=
  {| GameEngine.width := GameEngine.width b;
     GameEngine.height := GameEngine.height b;
     GameEngine.grid := GameEngine.grid b;
     GameEngine.score := GameEngine.score b;
     GameEngine.lines_cleared := GameEngine.lines_cleared b;
     GameEngine.game_over := true |}.

Definition play_turn (fb : Bank.FigureBank) (ai : AiAgent.AIAgent)
    (board : GameEngine.GameBoard) (piece_type : string) : eff turn_result :=
  piece <~ lift (GameEngine.new_Tetromino piece_type) ;;
  d <~ AiAgent.decide_placement ai board piece ;;
  let '((x, y, rotations), ai) := d in
  piece <~ lift (for_each (range rotations)
                   (λ p _, Ok (GameEngine.rotate p)) piece) ;;
  ok <~ lift (GameEngine.can_place board piece x y) ;;
  if ok then
    board <~ lift (GameEngine.place_piece board piece x y) ;;
    cl <~ lift (GameEngine.clear_lines board) ;;
    let '(lines_cleared, board) := cl in
    attack_piece <~ (if lines_cleared >? 0
                     then AiAgent.choose_attack_piece ai fb
                     else eff_ret None) ;;
    let decision_time := List.last (AiAgent.decision_times ai) 0 in
    eff_ret {| tr_lines_cleared := lines_cleared;
               tr_decision_time := decision_time;
               tr_attack_piece := attack_piece;
               tr_ai := ai; tr_board := board |}
  else
    eff_ret {| tr_lines_cleared := 0; tr_decision_time := 0;
               tr_attack_piece := None;
               tr_ai := ai; tr_board := set_game_over board |}.

(** [Tetromino(None)] looks [None] up in [SHAPES]. *)
Definition current_piece (p : option string) : eff string :=
  match p with
  | Some t => eff_ret t
  | None => λ _, Raise KeyError
  end.

(** [if attack and self.bank.is_available(attack): ... else: ...]: the
    side's next piece and the bank it leaves. *)
Definition next_piece (fb : Bank.FigureBank) (attack : option string)
    : eff (string * Bank.FigureBank) :=
  match attack with
  | Some t =>
    if negb (String.eqb t "") && Bank.is_available fb t
    then eff_ret (t, (Bank.get_piece fb t).2)
    else _get_next_piece fb
  | None => _get_next_piece fb
  end.

(** One round of the [while] loop of [run_match].  [Some winner] is a
    [return winner] from inside the loop. *)
Definition run_round (a : Arena) : eff (option string * Arena) :=
  let turn := turn a + 1 in
  (* Process garbage for AI1 *)
  b1q <~ (if garbage_queue_ai1 a >? 0
          then b <~ GameEngine.add_garbage_lines (board1 a) (garbage_queue_ai1 a) ;;
               eff_ret (b, 0)
          else eff_ret (board1 a, garbage_queue_ai1 a)) ;;
  let '(board1, garbage_queue_ai1) := b1q in
  (* AI1's turn *)
  piece1 <~ current_piece (current_piece_ai1 a) ;;
  r1 <~ play_turn (bank a) (ai1 a) board1 piece1 ;;
  let ai1 := tr_ai r1 in
  let board1 := tr_board r1 in
  let lines1 := tr_lines_cleared r1 in
  let attack1 := tr_attack_piece r1 in
  log <~ log_turn (log a) turn (AiAgent.name ai1) piece1 (0, 0, 0)
           lines1 (tr_decision_time r1) (Bank.get_state (bank a)) attack1 ;;
  (* Send garbage to AI2 *)
  let garbage_queue_ai2 :=
    if lines1 >? 0 then garbage_queue_ai2 a + lines1 else garbage_queue_ai2 a in
  (* Update AI1's piece *)
  n1 <~ next_piece (bank a) attack1 ;;
  let '(current_piece_ai1, bank) := n1 in
  (* Check if AI1 lost *)
  over1 <~ lift (GameEngine.is_game_over board1) ;;
  if over1 then
    log <~ log_game_over log (AiAgent.name (ai2 a))
             (GameEngine.score board1) (GameEngine.score (board2 a))
             (GameEngine.lines_cleared board1)
             (GameEngine.lines_cleared (board2 a)) ;;
    eff_ret (Some (AiAgent.name (ai2 a)),
             {| ai1 := ai1; ai2 := ai2 a; board1 := board1; board2 := board2 a;
                bank := bank; log := log; turn := turn;
                current_piece_ai1 := Some current_piece_ai1;
                current_piece_ai2 := current_piece_ai2 a;
                garbage_queue_ai1 := garbage_queue_ai1;
                garbage_queue_ai2 := garbage_queue_ai2 |})
  else
  (* Process garbage for AI2 *)
  b2q <~ (if garbage_queue_ai2 >? 0
          then b <~ GameEngine.add_garbage_lines (board2 a) garbage_queue_ai2 ;;
               eff_ret (b, 0)
          else eff_ret (board2 a, garbage_queue_ai2)) ;;
  let '(board2, garbage_queue_ai2) := b2q in
  (* AI2's turn *)
  piece2 <~ current_piece (current_piece_ai2 a) ;;
  r2 <~ play_turn bank (ai2 a) board2 piece2 ;;
  let ai2 := tr_ai r2 in
  let board2 := tr_board r2 in
  let lines2 := tr_lines_cleared r2 in
  let attack2 := tr_attack_piece r2 in
  log <~ log_turn log turn (AiAgent.name ai2) piece2 (0, 0, 0)
           lines2 (tr_decision_time r2) (Bank.get_state bank) attack2 ;;
  (* Send garbage to AI1 *)
  let garbage_queue_ai1 :=
    if lines2 >? 0 then garbage_queue_ai1 + lines2 else garbage_queue_ai1 in
  (* Update AI2's piece *)
  n2 <~ next_piece bank attack2 ;;
  let '(current_piece_ai2, bank) := n2 in
  let a' := {| ai1 := ai1; ai2 := ai2; board1 := board1; board2 := board2;
               bank := bank; log := log; turn := turn;
               current_piece_ai1 := Some current_piece_ai1;
               current_piece_ai2 := Some current_piece_ai2;
               garbage_queue_ai1 := garbage_queue_ai1;
               garbage_queue_ai2 := garbage_queue_ai2 |} in
  (* Check if AI2 lost *)
  over2 <~ lift (GameEngine.is_game_over board2) ;;
  if over2 then
    log <~ log_game_over log (AiAgent.name ai1)
             (GameEngine.score board1) (GameEngine.score board2)
             (GameEngine.lines_cleared board1)
             (GameEngine.lines_cleared board2) ;;
    eff_ret (Some (AiAgent.name ai1),
             {| ai1 := ai1; ai2 := ai2; board1 := board1; board2 := board2;
                bank := bank; log := log; turn := turn;
                current_piece_ai1 := Some current_piece_ai1;
                current_piece_ai2 := Some current_piece_ai2;
                garbage_queue_ai1 := garbage_queue_ai1;
                garbage_queue_ai2 := garbage_queue_ai2 |})
  else eff_ret (None, a').

(** After the loop: the winner by score. *)
Definition finish_by_score (a : Arena) : eff (string * Arena) :=
  let winner :=
    if GameEngine.score (board1 a) >? GameEngine.score (board2 a)
    then AiAgent.name (ai1 a) else AiAgent.name (ai2 a) in
  log <~ log_game_over (log a) winner
           (GameEngine.score (board1 a)) (GameEngine.score (board2 a))
           (GameEngine.lines_cleared (board1 a))
           (GameEngine.lines_cleared (board2 a)) ;;
  eff_ret (winner,
           {| ai1 := ai1 a; ai2 := ai2 a; board1 := board1 a;
              board2 := board2 a; bank := bank a; log := log; turn := turn a;
              current_piece_ai1 := current_piece_ai1 a;
              current_piece_ai2 := current_piece_ai2 a;
              garbage_queue_ai1 := garbage_queue_ai1 a;
              garbage_queue_ai2 := garbage_queue_ai2 a |}).

(** [while self.turn < max_turns]: every round adds one to [turn], so
    [max_turns - turn] rounds are enough fuel. *)
Fixpoint run_loop (fuel : nat) (max_turns : Z) (a : Arena)
    : eff (string * Arena) :=
  match fuel with
  | O => finish_by_score a
  | S fuel' =>
    if turn a <? max_turns then
      r <~ run_round a ;;
      match r with
      | (Some winner, a') => eff_ret (winner, a')
      | (None, a') => run_loop fuel' max_turns a'
      end
    else finish_by_score a
  end.

(** [run_match] returns the winner's name and the arena as it leaves it. *)
Definition run_match (a : Arena) (max_turns : Z) : eff (string * Arena) :=
  (* Initialize first pieces *)
  n1 <~ _get_next_piece (bank a) ;;
  n2 <~ _get_next_piece n1.2 ;;
  let a := {| ai1 := ai1 a; ai2 := ai2 a; board1 := board1 a;
              board2 := board2 a; bank := n2.2; log := log a; turn := turn a;
              current_piece_ai1 := Some n1.1;
              current_piece_ai2 := Some n2.1;
              garbage_queue_ai1 := garbage_queue_ai1 a;
              garbage_queue_ai2 := garbage_queue_ai2 a |} in
  run_loop (Z.to_nat (max_turns - turn a)) max_turns a.

End Arena.

(** ** What the statements below are about *)

Module Spec.

Import Py GameEngine.

(** The board invariant of [GameBoard.__init__]: [height] rows of [width]
    cells each.  Every operation of the class keeps it. *)
Definition rect (w h : Z) (g : matrix) : Prop :=
  length g = Z.to_nat h ∧ Forall (λ r, length r = Z.to_nat w) g.

Definition wf_board (b : GameBoard) : Prop :=
  rect (width b) (height b) (grid b).

(** The cell in row [r] and column [c], empty outside the matrix. *)
Definition cell_at (g : matrix) (r c : nat) : bool :=
  match g !! r with
  | Some row => default false (row !! c)
  | None => false
  end.

(** The piece matrix [sh] put at offset [(x, y)] has an occupied cell on
    board cell [(r, c)]. *)
Definition covers (sh : matrix) (x y : Z) (r c : nat) : Prop :=
  ∃ i j : nat, cell_at sh i j = true ∧
               Z.of_nat r = y + Z.of_nat i ∧ Z.of_nat c = x + Z.of_nat j.

(** Every occupied cell of [sh] at offset [(x, y)] is inside the board and
    on an empty cell. *)
Definition fits (b : GameBoard) (sh : matrix) (x y : Z) : Prop :=
  ∀ i j : nat, cell_at sh i j = true →
    0 ≤ x + Z.of_nat j < width b ∧ 0 ≤ y + Z.of_nat i < height b ∧
    cell_at (grid b) (Z.to_nat (y + Z.of_nat i)) (Z.to_nat (x + Z.of_nat j)) = false.

(** [h] is the height of column [x] of the board: 0 for a column with no
    filled cell, else the distance from the bottom of the board to the
    first filled cell from the top. *)
Definition height_of (b : GameBoard) (x : nat) (h : Z) : Prop :=
  (h = 0 ∧ ∀ r : nat, cell_at (grid b) r x = false) ∨
  (∃ r : nat, Z.of_nat r < height b ∧ h = height b - Z.of_nat r ∧
     cell_at (grid b) r x = true ∧
     ∀ r' : nat, (r' < r)%nat → cell_at (grid b) r' x = false).

(** The matrix [rotate] computes from [sh]. *)
Definition turned (sh : matrix) : matrix :=
  zip_star (length (default [] (head (reverse sh)))) (reverse sh).

(** The cell in row [i] and column [j] of a matrix, if there is one. *)
Definition cell_opt (sh : matrix) (i j : nat) : option bool :=
  sh !! i ≫= (λ r, r !! j).

(** The indices, counted from [k], of the rows of [g] that are full. *)
Fixpoint full_from (k : Z) (g : matrix) : list Z :=
  match g with
  | [] => []
  | row :: g' => if all row then k :: full_from (k + 1) g' else full_from (k + 1) g'
  end.

(** The fresh row [[0 for _ in range(width)]]. *)
Definition empty_row (w : Z) : list bool := replicate (Z.to_nat w) false.

(** A garbage row: filled everywhere but at column [hole]. *)
Definition garbage_row (w hole : Z) : list bool :=
  <[Z.to_nat hole := false]> (replicate (Z.to_nat w) true).

(** The first [n] columns [random.randint(0, w - 1)] hands out when the
    random tape is [tape]. *)
Fixpoint draws (n : nat) (w : Z) (tape : list nat) : list Z :=
  match n with
  | O => []
  | S n' => Z.of_nat (hd 0 tape `mod` Z.to_nat w)%nat :: draws n' w (tl tape)
  end.

(** A bank as [FigureBank.__init__] builds it: every canonical type has a
    count, and no other key does. *)
Definition wf_bank (fb : Bank.FigureBank) : Prop :=
  ∀ t, is_Some (Bank.bank fb !! t) ↔ t ∈ Bank.TETROMINO_TYPES.

(** The canonical types with a positive count, in canonical order. *)
Definition available (fb : Bank.FigureBank) : list string :=
  filter (λ t, Bank.is_available fb t = true) Bank.TETROMINO_TYPES.

(** [n] calls of [get_piece] for the same type, one after the other: what
    each returned, and the bank they leave. *)
Fixpoint draw_many (n : nat) (fb : Bank.FigureBank) (piece_type : string)
    : list bool * Bank.FigureBank :=
  match n with
  | O => ([], fb)
  | S n' =>
    let r := Bank.get_piece fb piece_type in
    let rs := draw_many n' r.2 piece_type in
    (r.1 :: rs.1, rs.2)
  end.

(** [pos] is a placement the search of [decide_placement] scores for a
    piece of type [piece_type], and [score] is the score it gets: a rotation
    of [0..3], a column of [range(width - piece width + 1)], the row the drop
    rests on. *)
Definition candidate (ai : AiAgent.AIAgent) (b : GameBoard)
    (piece_type : string) (pos : AiAgent.placement) (score : Z) : Prop :=
  0 ≤ pos.2 < 4 ∧
  ∃ piece_copy,
    AiAgent.rotated piece_type pos.2 = Ok piece_copy ∧
    0 ≤ pos.1.1 ≤ width b - get_width piece_copy ∧
    AiAgent.hard_drop b piece_copy pos.1.1 = Ok (Some pos.1.2) ∧
    AiAgent._evaluate_position ai b piece_copy pos.1.1 pos.1.2 = Ok score.

(** The piece of type [piece_type], whose matrix in [SHAPES] is [sh], after
    [rot] calls of [rotate]. *)
Definition quarter_turns (piece_type : string) (sh : matrix) (rot : Z)
    : Tetromino :=
  Nat.iter (Z.to_nat rot) rotate
    {| type := piece_type; shape := sh; rotation := 0 |}.

(** The spec's words for the row a straight drop in column [x] ends on: the
    piece fits on every row from 0 to [y], and row [y + 1] is the floor or
    a row the piece does not fit on. *)
Definition lands (b : GameBoard) (piece : Tetromino) (x y : Z) : Prop :=
  0 ≤ y < height b ∧
  (∀ y', 0 ≤ y' ≤ y → fits b (shape piece) x y') ∧
  (y + 1 = height b ∨ ¬ fits b (shape piece) x (y + 1)).

(** The spec's words for a placement [(x, y, rotation)] the decision ranks,
    and its score: a rotation of 0 to 3, a column that keeps the rotated
    piece between the walls, the row the straight drop ends on, and the
    heuristic score of the piece put there.  Nothing of the search loops of
    [decide_placement] enters here. *)
Definition valid_placement (ai : AiAgent.AIAgent) (b : GameBoard)
    (piece_type : string) (sh : matrix) (pos : AiAgent.placement)
    (score : Z) : Prop :=
  0 ≤ pos.2 < 4 ∧
  0 ≤ pos.1.1 ≤ width b - get_width (quarter_turns piece_type sh pos.2) ∧
  lands b (quarter_turns piece_type sh pos.2) pos.1.1 pos.1.2 ∧
  AiAgent._evaluate_position ai b (quarter_turns piece_type sh pos.2)
    pos.1.1 pos.1.2 = Ok score.

(** The order of the search: rotation ascending, then x ascending. *)
Definition before (pos' pos : AiAgent.placement) : Prop :=
  pos'.2 < pos.2 ∨ (pos'.2 = pos.2 ∧ pos'.1.1 < pos.1.1).

(** The placements the search has been through when it is about to try
    column [x] of rotation [r]. *)
Definition searched (r x : Z) (pos : AiAgent.placement) : Prop :=
  pos.2 < r ∨ (pos.2 = r ∧ pos.1.1 < x).

(** What [best_position] and [best_score] hold at that point: nothing if no
    candidate was met, else the first candidate of maximal score among
    those met. *)
Definition search_inv (ai : AiAgent.AIAgent) (b : GameBoard)
    (piece_type : string) (r x : Z) (bst : AiAgent.best) : Prop :=
  match AiAgent.best_position bst, AiAgent.best_score bst with
  | None, None =>
    ∀ pos s, candidate ai b piece_type pos s → ¬ searched r x pos
  | Some pos, Some s =>
    candidate ai b piece_type pos s ∧ searched r x pos ∧
    ∀ pos' s', candidate ai b piece_type pos' s' → searched r x pos' →
      s' ≤ s ∧ (before pos' pos → s' < s)
  | _, _ => False
  end.

(** No row of the board is full. *)
Definition no_full_row (b : GameBoard) : Prop :=
  Forall (λ row, all row = false) (grid b).

(** A board as the arena keeps it between turns: well formed, with rows
    and columns, and without a full row. *)
Definition playable (b : GameBoard) : Prop :=
  wf_board b ∧ 0 < width b ∧ 0 < height b ∧ no_full_row b.

(** An arena as [Arena.__init__] and [run_match] keep it: playable boards,
    a well-formed bank, canonical current pieces once they are set, and
    garbage counters that are not negative. *)
Definition wf_arena (a : Arena.Arena) : Prop :=
  playable (Arena.board1 a) ∧ playable (Arena.board2 a) ∧
  wf_bank (Arena.bank a) ∧
  (∃ t1, Arena.current_piece_ai1 a = Some t1 ∧ t1 ∈ Bank.TETROMINO_TYPES) ∧
  (∃ t2, Arena.current_piece_ai2 a = Some t2 ∧ t2 ∈ Bank.TETROMINO_TYPES) ∧
  0 ≤ Arena.garbage_queue_ai1 a ∧ 0 ≤ Arena.garbage_queue_ai2 a.

(** What the loop of [run_match] leaves when it started from the arena [a]
    and returned [winner]: a well-formed arena, a turn counter within the
    cap, the same agents, scores that did not go down, a bank that was not
    refilled, a log that ends with the game-over entry, and a winner that
    is the opponent of a side whose top row is taken, or the side with the
    higher score at the cap. *)
Definition match_result (max_turns : Z) (a : Arena.Arena) (winner : string)
    (a' : Arena.Arena) : Prop :=
  wf_arena a' ∧
  Arena.turn a ≤ Arena.turn a' ≤ Z.max (Arena.turn a) max_turns ∧
  AiAgent.name (Arena.ai1 a') = AiAgent.name (Arena.ai1 a) ∧
  AiAgent.name (Arena.ai2 a') = AiAgent.name (Arena.ai2 a) ∧
  AiAgent.strategy (Arena.ai1 a') = AiAgent.strategy (Arena.ai1 a) ∧
  AiAgent.strategy (Arena.ai2 a') = AiAgent.strategy (Arena.ai2 a) ∧
  score (Arena.board1 a) ≤ score (Arena.board1 a') ∧
  score (Arena.board2 a) ≤ score (Arena.board2 a') ∧
  Bank.get_total_remaining (Arena.bank a') ≤ Bank.get_total_remaining (Arena.bank a) ∧
  (∃ ts, last (Arena.events (Arena.log a')) =
           Some (Arena.GameOverEvent winner
                   (score (Arena.board1 a'), score (Arena.board2 a'))
                   (lines_cleared (Arena.board1 a'), lines_cleared (Arena.board2 a'))
                   ts)) ∧
  ((winner = AiAgent.name (Arena.ai2 a) ∧ is_game_over (Arena.board1 a') = Ok true) ∨
   (winner = AiAgent.name (Arena.ai1 a) ∧ is_game_over (Arena.board1 a') = Ok false ∧
    is_game_over (Arena.board2 a') = Ok true) ∨
   (max_turns ≤ Arena.turn a' ∧
    winner = if score (Arena.board1 a') >? score (Arena.board2 a')
             then AiAgent.name (Arena.ai1 a) else AiAgent.name (Arena.ai2 a))).

(** What is read off an entry of the match log: turn, player, piece type,
    logged placement and lines cleared of a turn entry; winner and scores of
    the game-over entry. *)
Inductive digest :=
| Played (turn : Z) (player piece_type : string) (placement : Z * Z * Z)
    (lines_cleared : Z)
| Won (winner : string) (scores : Z * Z).

Definition digest_of (e : Arena.event) : digest :=
  match e with
  | Arena.TurnEvent turn player piece_type placement lines_cleared _ _ _ _ =>
    Played turn player piece_type placement lines_cleared
  | Arena.GameOverEvent winner scores _ _ => Won winner scores
  end.

(** What is read off a finished [run_match]: the name it returned, the turn
    counter, the [game_over] field of side 1's board, what [is_game_over]
    says of that board, and the log from entry [from] on. *)
Record outcome := {
  returned : string;
  turns : Z;
  game_over1 : bool;
  is_game_over1 : res bool;
  logged : list digest
}.

Definition outcome_of (from : nat) (r : res (string * Arena.Arena * World))
    : option outcome :=
  match r with
  | Ok ((winner, a), _) =>
    Some {| returned := winner;
            turns := Arena.turn a;
            game_over1 := game_over (Arena.board1 a);
            is_game_over1 := is_game_over (Arena.board1 a);
            logged := digest_of <$> drop from (Arena.events (Arena.log a)) |}
  | Raise _ => None
  end.

(** Every turn entry among [new] carries the placement (0, 0, 0). *)
Definition zero_placements (new : list Arena.event) : Prop :=
  Forall (λ e, ∀ turn player piece_type placement lines_cleared,
            digest_of e = Played turn player piece_type placement lines_cleared →
            placement = (0, 0, 0)) new.

(** The placement a finished [decide_placement] returned. *)
Definition decided (r : res (AiAgent.placement * AiAgent.AIAgent * World))
    : option AiAgent.placement :=
  match r with
  | Ok ((pos, _), _) => Some pos
  | Raise _ => None
  end.

(** Side 1's board after a finished [run_match]. *)
Definition board1_of (r : res (string * Arena.Arena * World))
    : option GameBoard :=
  match r with
  | Ok ((_, a), _) => Some (Arena.board1 a)
  | Raise _ => None
  end.

End Spec.

(** ** Concrete boards, agents and worlds used in the examples *)

Module Examples.

Import Py GameEngine.

(** A 10x20 board whose top row is filled and every other row empty. *)
Definition top_full : GameBoard :=
  set_grid (new_GameBoard 10 20)
    (replicate 10 true :: replicate 19 (replicate 10 false)).

(** An empty 10x20 board but for one filled cell at row 5, column 0: the
    cell overhangs the fourteen empty rows below it. *)
Definition overhang : GameBoard :=
  set_grid (new_GameBoard 10 20)
    (replicate 5 (replicate 10 false) ++
     [true :: replicate 9 false] ++
     replicate 14 (replicate 10 false)).

(** The "O" piece. *)
Definition piece_O : Tetromino :=
  {| type := "O"; shape := [[true; true]; [true; true]]; rotation := 0 |}.

(** A world with nothing on its tapes: every reading is 0. *)
Definition silent : World := {| rand_tape := []; clock_tape := [] |}.

(** The "T" piece. *)
Definition piece_T : Tetromino :=
  {| type := "T"; shape := [[false; true; false]; [true; true; true]];
     rotation := 0 |}.

(** The "I" piece. *)
Definition piece_I : Tetromino :=
  {| type := "I"; shape := [[true; true; true; true]]; rotation := 0 |}.

(** The two agents of [main.py]. *)
Definition agent1 : AiAgent.AIAgent :=
  {| AiAgent.name := "AI-1"; AiAgent.strategy := "greedy";
     AiAgent.decision_times := [] |}.
Definition agent2 : AiAgent.AIAgent :=
  {| AiAgent.name := "AI-2"; AiAgent.strategy := "aggressive";
     AiAgent.decision_times := [] |}.

(** A board stacked up to row 1 with the top row still empty: row 1 has
    every other cell filled, rows 2 to 19 are filled but for column 0.  One
    line was cleared on it before. *)
Definition stuck : GameBoard :=
  {| width := 10; height := 20;
     grid := replicate 10 false ::
             [false; true; false; true; false; true; false; true; false; true] ::
             replicate 18 (false :: replicate 9 true);
     score := 100; lines_cleared := 1; game_over := false |}.

(** An arena as [Arena(ai1, ai2, bank)] builds it, with [board] for side 1. *)
Definition arena_with (board : GameBoard) : Arena.Arena :=
  {| Arena.ai1 := agent1; Arena.ai2 := agent2;
     Arena.board1 := board; Arena.board2 := new_GameBoard 10 20;
     Arena.bank := Bank.new_FigureBank 15;
     Arena.log := {| Arena.events := []; Arena.start_time := 0 |};
     Arena.turn := 0;
     Arena.current_piece_ai1 := None; Arena.current_piece_ai2 := None;
     Arena.garbage_queue_ai1 := 0; Arena.garbage_queue_ai2 := 0 |}.

(** An arena in the middle of a match: both sides hold a piece and two
    garbage lines wait for side 2. *)
Definition arena_playing : Arena.Arena :=
  {| Arena.ai1 := agent1; Arena.ai2 := agent2;
     Arena.board1 := new_GameBoard 10 20; Arena.board2 := new_GameBoard 10 20;
     Arena.bank := Bank.new_FigureBank 15;
     Arena.log := {| Arena.events := []; Arena.start_time := 0 |};
     Arena.turn := 0;
     Arena.current_piece_ai1 := Some "T"%string;
     Arena.current_piece_ai2 := Some "O"%string;
     Arena.garbage_queue_ai1 := 0; Arena.garbage_queue_ai2 := 2 |}.

(** The random module hands out 1, then 0, ...: side 1 starts with "O" and
    side 2 with "I". *)
Definition world_O_I : World := {| rand_tape := [1; 0]%nat; clock_tape := [] |}.

(** The values the random module hands out in one match played from a
    fresh arena (each is used modulo the number of choices at hand). *)
Definition drawn : list nat :=
  [ 282; 201; 419; 324; 98; 312; 78; 254; 112; 338; 32; 418; 138; 60; 152;
     254; 146; 372; 25; 7; 179; 224; 295; 141; 138; 303; 407; 340; 139; 116;
     28; 219; 134; 124; 405; 119; 4; 313; 104; 226; 398; 64; 131; 323; 80;
     24; 280; 4; 243; 168; 250; 329; 47; 54; 59; 262; 291; 298; 105; 362;
     238; 379; 412; 95; 265; 328; 97; 342; 96; 366; 163; 35; 168; 393; 10;
     77; 66; 346; 31; 218; 382; 30; 346; 373; 237; 348; 419; 297; 149; 275;
     39; 81; 400; 237; 263; 294; 391; 113; 87; 410; 109; 315; 59; 362; 268;
     49; 205; 15; 220; 397; 69; 116; 248; 412; 152
  ]%nat.

Definition world_drawn : World := {| rand_tape := drawn; clock_tape := [] |}.

(** The random module hands out 0, 0, ...: both sides start with "I". *)
Definition world_I_I : World := {| rand_tape := []; clock_tape := [3; 5; 8; 13] |}.

End Examples.

(** ** List accesses that stay in range, and [can_place] *)

Section Runtime.
Import Py.
Context {A : Type}.
Implicit Types (l : list A) (i : Z).

Lemma index_in_range l i a :
  0 ≤ i → l !! Z.to_nat i = Some a → index l i = Ok a.
Proof.
  intros Hi Hl. unfold index.
  apply lookup_lt_Some in Hl as Hlt.
  replace (i <? 0) with false by lia.
  replace ((0 <=? i) && (i <? Z.of_nat (length l))) with true by lia.
  by rewrite Hl.
Qed.

Lemma index_lt l i :
  0 ≤ i < Z.of_nat (length l) → ∃ a, index l i = Ok a ∧ l !! Z.to_nat i = Some a.
Proof.
  intros Hi. destruct (lookup_lt_is_Some_2 l (Z.to_nat i)) as [a Ha]; [lia|].
  exists a. split; [|done]. apply index_in_range; [lia|done].
Qed.

Lemma setitem_in_range l i v :
  0 ≤ i < Z.of_nat (length l) → setitem l i v = Ok (<[Z.to_nat i := v]> l).
Proof.
  intros Hi. unfold setitem.
  replace (i <? 0) with false by lia.
  by replace ((0 <=? i) && (i <? Z.of_nat (length l))) with true by lia.
Qed.

Lemma delitem_in_range l i :
  0 ≤ i < Z.of_nat (length l) → delitem l i = Ok (delete (Z.to_nat i) l).
Proof.
  intros Hi. unfold delitem.
  replace (i <? 0) with false by lia.
  by replace ((0 <=? i) && (i <? Z.of_nat (length l))) with true by lia.
Qed.
End Runtime.

Section Cells.
Import Py GameEngine Spec.
Implicit Types (g : matrix) (b : GameBoard).

Lemma rect_row w h g (r : nat) row :
  rect w h g → g !! r = Some row → length row = Z.to_nat w.
Proof.
  intros [_ Hrows] Hr. rewrite Forall_lookup in Hrows. by eapply Hrows.
Qed.

Lemma rect_index w h g y x :
  rect w h g → 0 ≤ y < h → 0 ≤ x < w →
  ∃ row, index g y = Ok row ∧ g !! Z.to_nat y = Some row ∧
         index row x = Ok (cell_at g (Z.to_nat y) (Z.to_nat x)).
Proof.
  intros Hg Hy Hx. pose proof Hg as [Hlen _].
  destruct (index_lt g y) as (row & Hrow & Hl); [lia|].
  exists row. split_and!; [done..|].
  pose proof (rect_row _ _ _ _ _ Hg Hl) as Hw.
  destruct (index_lt row x) as (c & Hc & Hlc); [lia|].
  rewrite Hc. unfold cell_at. by rewrite Hl, Hlc.
Qed.

Lemma cell_at_cons_0 row g c : cell_at (row :: g) 0 c = default false (row !! c).
Proof. done. Qed.

Lemma cell_at_cons_S row g r c : cell_at (row :: g) (S r) c = cell_at g r c.
Proof. done. Qed.

(** [can_place] on a well-formed board: never raises, and answers [fits]. *)

Lemma can_place_row_spec b x y ri ci row :
  wf_board b →
  ∃ ok, can_place_row b x y ri ci row = Ok ok ∧
    (ok = true ↔
     ∀ j : nat, row !! j = Some true →
       0 ≤ x + ci + Z.of_nat j < width b ∧ 0 ≤ y + ri < height b ∧
       cell_at (grid b) (Z.to_nat (y + ri)) (Z.to_nat (x + ci + Z.of_nat j)) = false).
Proof.
  intros Hwf. revert ci. induction row as [|cell rest IH]; intros ci.
  - exists true. split; [done|]. split; [|done]. intros _ j Hj. by rewrite lookup_nil in Hj.
  - simpl. destruct (IH (ci + 1)) as (ok & Hok & Hspec).
    assert (Hshift : (∀ j : nat, rest !! j = Some true →
       0 ≤ x + (ci + 1) + Z.of_nat j < width b ∧ 0 ≤ y + ri < height b ∧
       cell_at (grid b) (Z.to_nat (y + ri)) (Z.to_nat (x + (ci + 1) + Z.of_nat j)) = false) ↔
      (∀ j : nat, (cell :: rest) !! S j = Some true →
       0 ≤ x + ci + Z.of_nat (S j) < width b ∧ 0 ≤ y + ri < height b ∧
       cell_at (grid b) (Z.to_nat (y + ri)) (Z.to_nat (x + ci + Z.of_nat (S j))) = false)).
    { split; intros H j Hj; specialize (H j Hj); simpl in *;
        by replace (x + ci + Z.of_nat (S j)) with (x + (ci + 1) + Z.of_nat j) in * by lia. }
    destruct cell.
    + destruct ((x + ci <? 0) || (x + ci >=? width b) || (y + ri <? 0) || (y + ri >=? height b)) eqn:Hout.
      * exists false. split; [done|]. split; [done|]. intros H.
        specialize (H 0%nat eq_refl). lia.
      * destruct (rect_index _ _ _ (y + ri) (x + ci) Hwf) as (r & Hr & _ & Hc); [lia..|].
        rewrite Hr. simpl. rewrite Hc. simpl.
        destruct (cell_at (grid b) (Z.to_nat (y + ri)) (Z.to_nat (x + ci))) eqn:Hcell.
        -- exists false. split; [done|]. split; [done|]. intros H.
           specialize (H 0%nat eq_refl). replace (x + ci + Z.of_nat 0) with (x + ci) in H by lia.
           destruct H as (_ & _ & H). congruence.
        -- exists ok. split; [done|]. rewrite Hspec, Hshift. split.
           ++ intros H [|j] Hj; [|by apply H].
              replace (x + ci + Z.of_nat 0) with (x + ci) by lia. split_and!; [lia..|done].
           ++ intros H j Hj. by apply H.
    + exists ok. split; [done|]. rewrite Hspec, Hshift. split.
      * intros H [|j] Hj; [done|by apply H].
      * intros H j Hj. by apply H.
Qed.

Lemma can_place_rows_spec b x y ri rows :
  wf_board b →
  ∃ ok, can_place_rows b x y ri rows = Ok ok ∧
    (ok = true ↔
     ∀ i j : nat, cell_at rows i j = true →
       0 ≤ x + Z.of_nat j < width b ∧ 0 ≤ y + ri + Z.of_nat i < height b ∧
       cell_at (grid b) (Z.to_nat (y + ri + Z.of_nat i)) (Z.to_nat (x + Z.of_nat j)) = false).
Proof.
  intros Hwf. revert ri. induction rows as [|row rest IH]; intros ri.
  - exists true. split; [done|]. split; [|done]. intros _ i j Hc. done.
  - simpl. destruct (can_place_row_spec b x y ri 0 row Hwf) as (ok1 & Hok1 & Hs1).
    rewrite Hok1. simpl. destruct (IH (ri + 1)) as (ok2 & Hok2 & Hs2).
    assert (Hrow : ok1 = true ↔ ∀ j : nat, cell_at (row :: rest) 0 j = true →
       0 ≤ x + Z.of_nat j < width b ∧ 0 ≤ y + ri + Z.of_nat 0 < height b ∧
       cell_at (grid b) (Z.to_nat (y + ri + Z.of_nat 0)) (Z.to_nat (x + Z.of_nat j)) = false).
    { rewrite Hs1. replace (y + ri + Z.of_nat 0) with (y + ri) by lia.
      split; intros H j Hj.
      - rewrite cell_at_cons_0 in Hj. destruct (row !! j) as [[]|] eqn:E; try done.
        specialize (H j E). by replace (x + 0 + Z.of_nat j) with (x + Z.of_nat j) in H by lia.
      - replace (x + 0 + Z.of_nat j) with (x + Z.of_nat j) by lia. apply H.
        rewrite cell_at_cons_0. by rewrite Hj. }
    destruct ok1.
    + exists ok2. split; [done|]. rewrite Hs2. split.
      * intros H [|i] j Hc; [by apply Hrow|].
        rewrite cell_at_cons_S in Hc. specialize (H i j Hc).
        by replace (y + ri + Z.of_nat (S i)) with (y + (ri + 1) + Z.of_nat i) by lia.
      * intros H i j Hc. specialize (H (S i) j Hc).
        by replace (y + ri + Z.of_nat (S i)) with (y + (ri + 1) + Z.of_nat i) in H by lia.
    + exists false. split; [done|]. split; [done|]. intros H.
      apply Hrow. intros j Hj. by apply H.
Qed.

Lemma can_place_spec b p x y :
  wf_board b →
  ∃ ok, can_place b p x y = Ok ok ∧ (ok = true ↔ fits b (shape p) x y).
Proof.
  intros Hwf. destruct (can_place_rows_spec b x y 0 (shape p) Hwf) as (ok & Hok & Hs).
  exists ok. split; [done|]. rewrite Hs. unfold fits.
  split; intros H i j Hc; specialize (H i j Hc);
    by replace (y + 0 + Z.of_nat i) with (y + Z.of_nat i) in * by lia.
Qed.
End Cells.

(** ** [place_piece] *)

Section Place.
Import Py GameEngine Spec.
Implicit Types (g : matrix) (b : GameBoard).

(** [GameBoard(width, height)] is well formed. *)
Lemma wf_new_GameBoard w h : wf_board (new_GameBoard w h).
Proof.
  split; simpl; [by rewrite length_replicate|].
  apply Forall_replicate. by rewrite length_replicate.
Qed.

Lemma cell_at_insert g (r c : nat) row (r' c' : nat) :
  g !! r = Some row → (c < length row)%nat →
  cell_at (<[r := <[c := true]> row]> g) r' c' =
  if decide (r' = r ∧ c' = c) then true else cell_at g r' c'.
Proof.
  intros Hr Hc. unfold cell_at.
  destruct (decide (r' = r)) as [->|Hne].
  - rewrite list_lookup_insert_eq by (by eapply lookup_lt_Some). rewrite Hr.
    destruct (decide (c' = c)) as [->|Hnc].
    + rewrite list_lookup_insert_eq by done. by rewrite decide_True.
    + rewrite list_lookup_insert_ne by done. rewrite decide_False; [done|]. by intros [_ ?].
  - rewrite list_lookup_insert_ne by done. rewrite decide_False; [done|]. by intros [? _].
Qed.

Lemma rect_insert w h g (r c : nat) row :
  rect w h g → g !! r = Some row →
  rect w h (<[r := <[c := true]> row]> g).
Proof.
  intros [Hlen Hrows] Hr. split; [by rewrite length_insert|].
  apply Forall_insert; [done|]. rewrite length_insert.
  rewrite Forall_lookup in Hrows. by eapply Hrows.
Qed.

Lemma fill_cell_spec w h g board_y board_x :
  rect w h g → 0 ≤ board_y < h → 0 ≤ board_x < w →
  ∃ g', fill_cell g board_y board_x = Ok g' ∧ rect w h g' ∧
    ∀ r c : nat, cell_at g' r c =
      if decide (r = Z.to_nat board_y ∧ c = Z.to_nat board_x) then true
      else cell_at g r c.
Proof.
  intros Hg Hy Hx. pose proof Hg as [Hlen _].
  destruct (rect_index _ _ _ board_y board_x Hg Hy Hx) as (row & Hrow & Hl & _).
  pose proof (rect_row _ _ _ _ _ Hg Hl) as Hw.
  unfold fill_cell. rewrite Hrow. simpl.
  rewrite setitem_in_range by lia. simpl.
  rewrite setitem_in_range by lia.
  eexists. split; [done|]. split; [by apply rect_insert|].
  intros r c. apply cell_at_insert; [done|lia].
Qed.

Lemma place_row_spec w h x y ri ci row g :
  rect w h g →
  ∃ g', place_row w h x y ri ci row g = Ok g' ∧ rect w h g' ∧
    ∀ r c : nat, cell_at g' r c = true ↔
      cell_at g r c = true ∨
      (Z.of_nat r < h ∧ Z.of_nat c < w ∧ Z.of_nat r = y + ri ∧
       ∃ j : nat, row !! j = Some true ∧ Z.of_nat c = x + ci + Z.of_nat j).
Proof.
  revert ci g. induction row as [|cell rest IH]; intros ci g Hg.
  - exists g. split; [done|]. split; [done|]. intros r c. split; [by left|].
    intros [?|(_ & _ & _ & j & Hj & _)]; [done|]. by rewrite lookup_nil in Hj.
  - simpl.
    assert (Hskip : ∀ g1, rect w h g1 →
      (cell = true → ¬ (0 ≤ y + ri < h ∧ 0 ≤ x + ci < w)) →
      (∀ r c : nat, cell_at g1 r c = true ↔ cell_at g r c = true) →
      ∃ g', place_row w h x y ri (ci + 1) rest g1 = Ok g' ∧ rect w h g' ∧
        ∀ r c : nat, cell_at g' r c = true ↔
          cell_at g r c = true ∨
          (Z.of_nat r < h ∧ Z.of_nat c < w ∧ Z.of_nat r = y + ri ∧
           ∃ j : nat, (cell :: rest) !! j = Some true ∧ Z.of_nat c = x + ci + Z.of_nat j)).
    { intros g1 Hg1 Hno Hsame. destruct (IH (ci + 1) g1 Hg1) as (g' & Hg' & Hr' & Hs).
      exists g'. split; [done|]. split; [done|]. intros r c. rewrite Hs, Hsame.
      split; (intros [?|(Hrh & Hcw & Hr & j & Hj & Hc)]; [by left|right]).
      - split_and!; [done..|]. exists (S j). split; [done|]. lia.
      - split_and!; [done..|]. destruct j as [|j].
        + simpl in Hj. injection Hj as ->. exfalso. apply Hno; [done|]. lia.
        + exists j. split; [done|]. lia. }
    destruct cell; [|by apply Hskip].
    destruct ((0 <=? y + ri) && (y + ri <? h) && (0 <=? x + ci) && (x + ci <? w)) eqn:Hin;
      [|apply Hskip; [done|lia|done]].
    destruct (fill_cell_spec w h g (y + ri) (x + ci) Hg) as (g1 & Hg1 & Hr1 & Hs1); [lia..|].
    rewrite Hg1. simpl.
    destruct (IH (ci + 1) g1 Hr1) as (g' & Hg' & Hr' & Hs).
    exists g'. split; [done|]. split; [done|]. intros r c. rewrite Hs, Hs1.
    case_decide as Hd.
    + split; [|by left]. intros _. right. destruct Hd as [-> ->].
      split_and!; [lia..|]. exists 0%nat. split; [done|]. lia.
    + split; (intros [?|(Hrh & Hcw & Hr & j & Hj & Hc)]; [by left|right]).
      * split_and!; [done..|]. exists (S j). split; [done|]. lia.
      * split_and!; [done..|]. destruct j as [|j].
        -- exfalso. apply Hd. lia.
        -- exists j. split; [done|]. lia.
Qed.

Lemma place_rows_spec w h x y ri rows g :
  rect w h g →
  ∃ g', place_rows w h x y ri rows g = Ok g' ∧ rect w h g' ∧
    ∀ r c : nat, cell_at g' r c = true ↔
      cell_at g r c = true ∨
      (Z.of_nat r < h ∧ Z.of_nat c < w ∧
       ∃ i j : nat, cell_at rows i j = true ∧
         Z.of_nat r = y + ri + Z.of_nat i ∧ Z.of_nat c = x + Z.of_nat j).
Proof.
  revert ri g. induction rows as [|row rest IH]; intros ri g Hg.
  - exists g. split; [done|]. split; [done|]. intros r c. split; [by left|].
    intros [?|(_ & _ & i & j & Hc & _)]; done.
  - simpl. destruct (place_row_spec w h x y ri 0 row g Hg) as (g1 & Hg1 & Hr1 & Hs1).
    rewrite Hg1. simpl.
    destruct (IH (ri + 1) g1 Hr1) as (g' & Hg' & Hr' & Hs).
    exists g'. split; [done|]. split; [done|]. intros r c. rewrite Hs, Hs1.
    split.
    + intros [[?|(Hrh & Hcw & Hr & j & Hj & Hc)]|(Hrh & Hcw & i & j & Hij & Hr & Hc)].
      * by left.
      * right. split_and!; [done..|]. exists 0%nat, j. rewrite cell_at_cons_0, Hj.
        split; [done|]. lia.
      * right. split_and!; [done..|]. exists (S i), j. rewrite cell_at_cons_S.
        split; [done|]. lia.
    + intros [?|(Hrh & Hcw & i & j & Hij & Hr & Hc)]; [by left; left|].
      destruct i as [|i].
      * left. right. split_and!; [done..|lia|]. exists j.
        rewrite cell_at_cons_0 in Hij. destruct (row !! j) as [[]|]; try done. split; [done|]. lia.
      * right. split_and!; [done..|]. exists i, j. rewrite cell_at_cons_S in Hij.
        split; [done|]. lia.
Qed.

(** [place_piece] on a well-formed board: never raises, fills the covered
    cells that are inside the board, and nothing else. *)
Lemma place_piece_spec b p x y :
  wf_board b →
  ∃ b', place_piece b p x y = Ok b' ∧
    wf_board b' ∧
    width b' = width b ∧ height b' = height b ∧
    score b' = score b ∧ lines_cleared b' = lines_cleared b ∧
    game_over b' = game_over b ∧
    ∀ r c : nat, cell_at (grid b') r c = true ↔
      cell_at (grid b) r c = true ∨
      (Z.of_nat r < height b ∧ Z.of_nat c < width b ∧ covers (shape p) x y r c).
Proof.
  intros Hwf. unfold place_piece.
  destruct (place_rows_spec (width b) (height b) x y 0 (shape p) (grid b) Hwf)
    as (g' & Hg' & Hr' & Hs).
  rewrite Hg'. simpl. eexists. split; [done|]. split; [done|].
  split_and!; [done..|]. simpl. intros r c. rewrite Hs. unfold covers.
  split; (intros [?|(Hrh & Hcw & i & j & Hij & Hr & Hc)]; [by left|right]);
    (split_and!; [done..|]; exists i, j; split_and!; [done|lia..]).
Qed.
End Place.

(** ** The two loops of [clear_lines] *)

Section ClearLoops.
Import Py GameEngine Spec.
Implicit Types (g : matrix) (b : GameBoard).

Lemma set_grid_id b : set_grid b (grid b) = b.
Proof. by destruct b. Qed.

Lemma length_full_from k g :
  length (full_from k g) = length (filter (λ row, all row = true) g).
Proof.
  revert k. induction g as [|row g IH]; intros k; [done|].
  simpl. destruct (all row) eqn:E.
  - rewrite filter_cons_True by done. simpl. by rewrite IH.
  - rewrite filter_cons_False by congruence. by rewrite IH.
Qed.

Lemma length_filter_full g :
  (length (filter (λ row, all row = true) g) +
   length (filter (λ row, all row = false) g) = length g)%nat.
Proof.
  induction g as [|row g IH]; [done|].
  destruct (all row) eqn:E.
  - rewrite filter_cons_True, filter_cons_False by congruence. simpl. lia.
  - rewrite filter_cons_False, filter_cons_True by congruence. simpl. lia.
Qed.

Lemma full_lines_scan (pre g : matrix) :
  full_lines (pre ++ g) (seqZ (Z.of_nat (length pre)) (Z.of_nat (length g))) =
  Ok (full_from (Z.of_nat (length pre)) g).
Proof.
  revert pre. induction g as [|row g IH]; intros pre; [done|].
  rewrite seqZ_cons by (simpl; lia). simpl full_lines.
  rewrite (index_in_range _ _ row); [|lia|].
  2:{ rewrite Nat2Z.id. by rewrite lookup_app_r, Nat.sub_diag by done. }
  simpl. specialize (IH (pre ++ [row])).
  rewrite <- app_assoc in IH. simpl in IH. rewrite length_app in IH. simpl in IH.
  replace (Z.succ (Z.of_nat (length pre))) with (Z.of_nat (length pre + 1)) by lia.
  replace (Z.pred (Z.of_nat (S (length g)))) with (Z.of_nat (length g)) by lia.
  rewrite IH. simpl.
  by replace (Z.of_nat (length pre) + 1) with (Z.of_nat (length pre + 1)) by lia.
Qed.

Lemma delete_lines_compacts w (pre g : matrix) :
  delete_lines w (full_from (Z.of_nat (length pre)) g) (pre ++ g) =
  Ok (replicate (length (full_from (Z.of_nat (length pre)) g)) (empty_row w) ++
      pre ++ filter (λ row, all row = false) g).
Proof.
  revert pre. induction g as [|row g IH]; intros pre; [done|].
  simpl full_from. destruct (all row) eqn:E.
  - rewrite filter_cons_False by congruence. simpl delete_lines.
    rewrite delitem_in_range by (rewrite length_app; simpl; lia).
    simpl. rewrite Nat2Z.id.
    replace (delete (length pre) (pre ++ row :: g)) with (pre ++ g).
    2:{ rewrite delete_middle. done. }
    specialize (IH (empty_row w :: pre)). simpl in IH.
    replace (Z.of_nat (length pre) + 1) with (Z.of_nat (S (length pre))) by lia.
    unfold empty_row in *. rewrite IH. f_equal. simpl.
    rewrite (cons_middle (replicate (Z.to_nat w) false)), app_assoc, <- replicate_cons_app. done.
  - rewrite filter_cons_True by done.
    specialize (IH (pre ++ [row])). rewrite <- app_assoc in IH. simpl in IH.
    rewrite length_app in IH. simpl in IH.
    replace (Z.of_nat (length pre) + 1) with (Z.of_nat (length pre + 1)) by lia.
    rewrite IH. by rewrite <- app_assoc.
Qed.

(** The grid [clear_lines] leaves, and the number of rows it cleared. *)
Lemma clear_lines_grid b :
  wf_board b →
  let n := length (filter (λ row, all row = true) (grid b)) in
  let g' := replicate n (empty_row (width b)) ++
            filter (λ row, all row = false) (grid b) in
  full_lines (grid b) (range (height b)) = Ok (full_from 0 (grid b)) ∧
  delete_lines (width b) (full_from 0 (grid b)) (grid b) = Ok g' ∧
  length (full_from 0 (grid b)) = n ∧
  rect (width b) (height b) g'.
Proof.
  intros [Hlen Hrows] n g'.
  pose proof (full_lines_scan [] (grid b)) as H1.
  pose proof (delete_lines_compacts (width b) [] (grid b)) as H2.
  change (Z.of_nat (length [])) with 0 in H1, H2. rewrite !app_nil_l in H1, H2.
  pose proof (length_full_from 0 (grid b)) as H3. fold n in H3.
  pose proof (length_filter_full (grid b)) as H4. fold n in H4.
  split_and!.
  - unfold range. etrans; [|exact H1]. destruct (decide (0 ≤ height b)).
    + do 2 f_equal. lia.
    + (* a negative height has no rows at all *)
      replace (Z.to_nat (height b)) with 0%nat in Hlen by lia.
      rewrite Hlen. by rewrite seqZ_nil by lia.
  - by rewrite H2, H3.
  - done.
  - split.
    + subst g'. rewrite length_app, length_replicate. lia.
    + subst g'. apply Forall_app. split.
      * apply Forall_replicate. unfold empty_row. by rewrite length_replicate.
      * rewrite Forall_forall in Hrows. apply Forall_forall. intros row Hrow.
        apply list_elem_of_filter in Hrow as [_ Hrow]. by apply Hrows.
Qed.
End ClearLoops.

(** ** [clear_lines] *)

Section ClearLines.
Import Py GameEngine Spec.
Implicit Types (g : matrix) (b : GameBoard).

Lemma filter_none_full g :
  length (filter (λ row, all row = true) g) = 0%nat →
  filter (λ row, all row = false) g = g.
Proof.
  induction g as [|row g IH]; [done|].
  destruct (all row) eqn:E.
  - rewrite filter_cons_True by done. done.
  - rewrite filter_cons_False by congruence. rewrite filter_cons_True by done.
    intros H. by rewrite IH.
Qed.

Lemma filter_full_nil g :
  Forall (λ row, all row = false) g → filter (λ row, all row = true) g = [].
Proof.
  induction 1 as [|row g' Hrow _ IH]; [done|].
  by rewrite filter_cons_False by congruence.
Qed.

Lemma clear_lines_spec b :
  wf_board b →
  let n := Z.of_nat (length (filter (λ row, all row = true) (grid b))) in
  ∃ b', clear_lines b = Ok (n, b') ∧
    grid b' = replicate (Z.to_nat n) (empty_row (width b)) ++
              filter (λ row, all row = false) (grid b) ∧
    width b' = width b ∧ height b' = height b ∧ game_over b' = game_over b ∧
    lines_cleared b' = lines_cleared b + n ∧
    (n = 0 → b' = b) ∧
    (n = 1 → score b' = score b + 100) ∧
    (n = 2 → score b' = score b + 300) ∧
    (n = 3 → score b' = score b + 500) ∧
    (n = 4 → score b' = score b + 800) ∧
    (4 < n → score b' = score b + n * 100).
Proof.
  intros Hwf n. destruct (clear_lines_grid b Hwf) as (H1 & H2 & H3 & H4).
  unfold clear_lines. rewrite H1. simpl. rewrite H2. simpl. rewrite H3.
  subst n. set (m := length (filter (λ row, all row = true) (grid b))) in *.
  rewrite Nat2Z.id. set (n := Z.of_nat m).
  destruct (n >? 0) eqn:Hn.
  - eexists. split; [done|]. simpl. split_and!; try done; try lia;
      intros Hk; unfold score_table; rewrite ?Hk; try done.
    repeat (match goal with |- context [?a =? ?c] => replace (a =? c) with false by lia end).
    done.
  - eexists. split; [done|]. simpl. assert (n = 0) as Hz by lia.
    split_and!; try done; try lia. intros _.
    assert (m = 0%nat) as Hl by lia.
    rewrite Hl. simpl. rewrite filter_none_full by done. apply set_grid_id.
Qed.

Lemma all_empty_row w : 0 < w → all (empty_row w) = false.
Proof.
  intros Hw. unfold empty_row. destruct (Z.to_nat w) eqn:E; [lia|done].
Qed.

Lemma clear_lines_twice b :
  wf_board b → 0 < width b →
  ∃ n b', clear_lines b = Ok (n, b') ∧
    wf_board b' ∧
    Forall (λ row, all row = false) (grid b') ∧
    clear_lines b' = Ok (0, b').
Proof.
  intros Hwf Hw. destruct (clear_lines_spec b Hwf) as (b' & Hc & Hg & Hw' & Hh' & _).
  destruct (clear_lines_grid b Hwf) as (_ & _ & _ & Hrect).
  eexists _, b'. split; [done|].
  assert (wf_board b') as Hwf'.
  { unfold wf_board. rewrite Hw', Hh', Hg. by rewrite Nat2Z.id. }
  assert (Forall (λ row, all row = false) (grid b')) as Hnone.
  { rewrite Hg. apply Forall_app. split.
    - apply Forall_replicate. by apply all_empty_row.
    - apply Forall_forall. intros row Hrow. by apply list_elem_of_filter in Hrow as [? _]. }
  split_and!; [done..|].
  destruct (clear_lines_spec b' Hwf') as (b'' & Hc' & _ & _ & _ & _ & _ & Hz & _).
  assert (length (filter (λ row, all row = true) (grid b')) = 0%nat) as Hl.
  { by rewrite filter_full_nil. }
  rewrite Hl in Hc', Hz. simpl in Hc', Hz. by rewrite Hz in Hc'.
Qed.
End ClearLines.

(** ** [add_garbage_lines] *)

Section Garbage.
Import Py GameEngine Spec.
Implicit Types (g : matrix) (b : GameBoard) (world : World).

Lemma garbage_line_ok w hole :
  0 ≤ hole < w → garbage_line w hole = Ok (garbage_row w hole).
Proof.
  intros H. unfold garbage_line. rewrite setitem_in_range; [done|].
  rewrite length_replicate. lia.
Qed.

Lemma garbage_row_lookup w hole (c : nat) :
  0 ≤ hole < w → Z.of_nat c < w →
  garbage_row w hole !! c = Some (bool_decide (Z.of_nat c ≠ hole)).
Proof.
  intros Hh Hc. unfold garbage_row.
  destruct (decide (c = Z.to_nat hole)) as [->|Hne].
  - rewrite list_lookup_insert_eq by (rewrite length_replicate; lia).
    rewrite bool_decide_eq_false_2; [done|]. lia.
  - rewrite list_lookup_insert_ne by done.
    rewrite lookup_replicate_2 by lia.
    rewrite bool_decide_eq_true_2; [done|]. lia.
Qed.

Lemma length_garbage_row w hole : length (garbage_row w hole) = Z.to_nat w.
Proof. unfold garbage_row. by rewrite length_insert, length_replicate. Qed.

Lemma draws_in_range n w tape :
  0 < w → Forall (λ hole, 0 ≤ hole < w) (draws n w tape).
Proof.
  intros Hw. revert tape. induction n as [|n IH]; intros tape; [done|].
  simpl. constructor; [|done].
  pose proof (Nat.mod_upper_bound (hd 0%nat tape) (Z.to_nat w)). lia.
Qed.

Lemma length_draws n w tape : length (draws n w tape) = n.
Proof. revert tape. induction n as [|n IH]; intros tape; [done|]. simpl. by rewrite IH. Qed.

Lemma draws_onto w (holes : list Z) :
  Forall (λ hole, 0 ≤ hole < w) holes →
  draws (length holes) w (map Z.to_nat holes) = holes.
Proof.
  induction 1 as [|hole holes Hh _ IH]; [done|].
  simpl. rewrite IH. f_equal. rewrite Nat.mod_small by lia. lia.
Qed.

Lemma randint_draw w world :
  0 < w →
  randint 0 (w - 1) world =
  Ok (Z.of_nat (hd 0 (rand_tape world) `mod` Z.to_nat w)%nat,
      {| rand_tape := tl (rand_tape world); clock_tape := clock_tape world |}).
Proof.
  intros Hw. unfold randint. replace (w - 1 <? 0) with false by lia.
  unfold eff_bind, randbelow, eff_ret. simpl.
  by replace (w - 1 - 0 + 1) with w by lia.
Qed.

Lemma add_garbage_line_spec w top g world :
  0 < w →
  add_garbage_line w (top :: g) world =
  Ok (g ++ [garbage_row w (Z.of_nat (hd 0 (rand_tape world) `mod` Z.to_nat w)%nat)],
      {| rand_tape := tl (rand_tape world); clock_tape := clock_tape world |}).
Proof.
  intros Hw. unfold add_garbage_line, eff_bind, lift. simpl.
  rewrite randint_draw by done.
  rewrite garbage_line_ok; [done|].
  pose proof (Nat.mod_upper_bound (hd 0%nat (rand_tape world)) (Z.to_nat w)). lia.
Qed.

Lemma garbage_loop w (n : nat) (k : Z) g world :
  0 < w → g ≠ [] →
  eff_for_each (seqZ k (Z.of_nat n)) (λ g _, add_garbage_line w g) g world =
  Ok (drop n (g ++ map (garbage_row w) (draws n w (rand_tape world))),
      {| rand_tape := drop n (rand_tape world); clock_tape := clock_tape world |}).
Proof.
  intros Hw. revert k g world. induction n as [|n IH]; intros k g world Hg.
  - simpl. unfold eff_ret. rewrite app_nil_r, !drop_0. by destruct world.
  - rewrite seqZ_cons by lia. simpl eff_for_each. unfold eff_bind at 1.
    destruct g as [|top g]; [done|]. rewrite add_garbage_line_spec by done.
    replace (Z.pred (Z.of_nat (S n))) with (Z.of_nat n) by lia.
    rewrite IH by (by destruct g). simpl. rewrite <- app_assoc. simpl.
    do 3 f_equal. destruct (rand_tape world); simpl; by rewrite ?drop_nil.
Qed.

Lemma add_garbage_lines_spec b n world :
  wf_board b → 0 < width b → 0 < height b → 0 ≤ n →
  let holes := draws (Z.to_nat n) (width b) (rand_tape world) in
  ∃ b' world', add_garbage_lines b n world = Ok (b', world') ∧
    grid b' = drop (Z.to_nat n) (grid b ++ map (garbage_row (width b)) holes) ∧
    (n ≤ height b →
     grid b' = drop (Z.to_nat n) (grid b) ++ map (garbage_row (width b)) holes) ∧
    length (grid b') = length (grid b) ∧ wf_board b' ∧
    width b' = width b ∧ height b' = height b ∧ score b' = score b ∧
    lines_cleared b' = lines_cleared b ∧ game_over b' = game_over b ∧
    length holes = Z.to_nat n ∧
    Forall (λ hole, 0 ≤ hole < width b ∧
              ∀ c : nat, Z.of_nat c < width b →
                garbage_row (width b) hole !! c = Some (bool_decide (Z.of_nat c ≠ hole)))
           holes ∧
    rand_tape world' = drop (Z.to_nat n) (rand_tape world) ∧
    (∀ columns : list Z, Forall (λ hole, 0 ≤ hole < width b) columns →
       draws (length columns) (width b) (map Z.to_nat columns) = columns).
Proof.
  intros Hwf Hw Hh Hn holes. pose proof Hwf as [Hlen Hrows].
  assert (grid b ≠ []) as Hne.
  { intros E. rewrite E in Hlen. simpl in Hlen. lia. }
  unfold add_garbage_lines, eff_bind, range.
  pose proof (garbage_loop (width b) (Z.to_nat n) 0 (grid b) world Hw Hne) as Hloop.
  rewrite Z2Nat.id in Hloop by lia. rewrite Hloop. fold holes. unfold eff_ret.
  assert (length holes = Z.to_nat n) as Hlh by apply length_draws.
  assert (length (drop (Z.to_nat n) (grid b ++ map (garbage_row (width b)) holes))
          = length (grid b)) as Hlen'.
  { rewrite length_drop, length_app, length_map. lia. }
  eexists _, _. split; [done|]. simpl.
  split_and!; try done.
  - intros Hle. rewrite drop_app_le by lia. done.
  - split; simpl; [lia|].
    apply Forall_drop, Forall_app. split; [done|].
    apply Forall_forall. intros row Hrow. apply list_elem_of_fmap in Hrow as (hole & -> & _).
    apply length_garbage_row.
  - pose proof (draws_in_range (Z.to_nat n) (width b) (rand_tape world) Hw) as Hr.
    fold holes in Hr. eapply Forall_impl; [exact Hr|]. simpl. intros hole Hhole.
    split; [done|]. intros c Hc. by apply garbage_row_lookup.
  - intros columns. by apply draws_onto.
Qed.
End Garbage.

(** ** [is_game_over] *)

Section GameOver.
Import Py GameEngine Spec.
Implicit Types (g : matrix) (b : GameBoard) (world : World).

Lemma any_true_iff (row : list bool) :
  any row = true ↔ ∃ c : nat, row !! c = Some true.
Proof.
  unfold any. induction row as [|cell row IH]; simpl.
  - split; [done|]. by intros [c Hc].
  - destruct cell; simpl.
    + split; [|done]. intros _. by exists 0%nat.
    + rewrite IH. split; intros [c Hc]; [by exists (S c)|].
      destruct c as [|c]; [done|]. by exists c.
Qed.

Lemma any_replicate_false n : any (replicate n false) = false.
Proof. by induction n. Qed.

Lemma is_game_over_top b top rest :
  grid b = top :: rest → is_game_over b = Ok (any top).
Proof. intros Hg. unfold is_game_over. by rewrite Hg. Qed.

Lemma is_game_over_cell b :
  is_game_over b = Ok true ↔ ∃ c : nat, cell_at (grid b) 0 c = true.
Proof.
  unfold is_game_over, cell_at. destruct (grid b) as [|top rest]; simpl.
  - split; [done|]. by intros [c Hc].
  - split.
    + intros [= Hany]. apply any_true_iff in Hany as [c Hc]. exists c. by rewrite Hc.
    + intros [c Hc]. f_equal. apply any_true_iff. exists c.
      by destruct (top !! c) as [[]|].
Qed.

End GameOver.

(** ** The bank *)

Section Pool.
Import Bank Spec.
Implicit Types (fb : FigureBank) (t : string).

Lemma get_piece_positive fb t c :
  bank fb !! t = Some c → 0 < c →
  get_piece fb t = (true, {| bank := <[t := c - 1]> (bank fb);
                             initial_count := initial_count fb |}).
Proof.
  intros Hc Hpos. unfold get_piece. rewrite Hc.
  by replace (c >? 0) with true by lia.
Qed.

Lemma get_piece_exhausted fb t :
  (∀ c, bank fb !! t = Some c → c ≤ 0) → get_piece fb t = (false, fb).
Proof.
  intros Hc. unfold get_piece. destruct (bank fb !! t) as [c|]; [|done].
  by replace (c >? 0) with false by (specialize (Hc c eq_refl); lia).
Qed.

Lemma draw_many_spec (n : nat) fb t c :
  bank fb !! t = Some c → Z.of_nat n ≤ c →
  (draw_many n fb t).1 = replicate n true ∧
  bank (draw_many n fb t).2 !! t = Some (c - Z.of_nat n).
Proof.
  revert fb c. induction n as [|n IH]; intros fb c Hc Hn.
  - simpl. split; [done|]. rewrite Hc. f_equal. lia.
  - simpl. rewrite (get_piece_positive fb t c) by (done || lia). simpl.
    destruct (IH {| bank := <[t := c - 1]> (bank fb); initial_count := initial_count fb |}
                (c - 1)) as [H1 H2].
    + simpl. apply lookup_insert_eq.
    + lia.
    + rewrite H1, H2. split; [done|]. f_equal. lia.
Qed.

End Pool.

(** ** The drop of [decide_placement] *)

Section Drop.
Import Py GameEngine AiAgent Spec.
Implicit Types (b : GameBoard) (p : Tetromino).

Lemma can_place_total b p x y :
  wf_board b → ∃ ok, can_place b p x y = Ok ok.
Proof. intros Hwf. destruct (can_place_spec b p x y Hwf) as (ok & H & _). eauto. Qed.

(** The loop stops at the first row from [y0] on where the piece does not
    fit, or at [height]. *)
Lemma drop_loop_spec b p x (fuel : nat) y0 :
  wf_board b → height b - y0 ≤ Z.of_nat fuel →
  ∃ y1, drop_loop fuel b p x y0 = Ok y1 ∧ y0 ≤ y1 ∧
    (y1 ≤ height b ∨ y1 = y0) ∧
    (∀ y', y0 ≤ y' < y1 → can_place b p x y' = Ok true) ∧
    (y1 < height b → can_place b p x y1 = Ok false).
Proof.
  intros Hwf. revert y0. induction fuel as [|fuel IH]; intros y0 Hfuel.
  - exists y0. simpl. split_and!; [done|lia|lia|lia|lia].
  - simpl. destruct (y0 <? height b) eqn:Hlt.
    + destruct (can_place_total b p x y0 Hwf) as [[] Hok]; rewrite Hok; simpl.
      * destruct (IH (y0 + 1)) as (y1 & Hy1 & Hle & Hbound & Hfit & Hstop); [lia|].
        exists y1. split_and!; [done|lia|lia| |done].
        intros y' Hy'. destruct (decide (y' = y0)) as [->|]; [done|]. apply Hfit. lia.
      * exists y0. split_and!; [done|lia|lia|lia|done].
    + exists y0. split_and!; [done|lia|lia|lia|lia].
Qed.

(** The drop rests on the last row before the first one, from row 0 down,
    where the piece does not fit. *)
Lemma hard_drop_spec b p x :
  wf_board b →
  ∃ r, hard_drop b p x = Ok r ∧
    (∀ y, r = Some y ↔
       0 ≤ y < height b ∧
       (∀ y', 0 ≤ y' ≤ y → can_place b p x y' = Ok true) ∧
       (y + 1 = height b ∨ can_place b p x (y + 1) = Ok false)) ∧
    (r = None ↔ height b ≤ 0 ∨ can_place b p x 0 = Ok false).
Proof.
  intros Hwf. unfold hard_drop.
  destruct (drop_loop_spec b p x (Z.to_nat (height b)) 0 Hwf)
    as (y1 & Hy1 & Hle & Hbound & Hfit & Hstop); [lia|].
  rewrite Hy1. simpl.
  destruct (y1 - 1 >=? 0) eqn:Hpos.
  - rewrite (Hfit (y1 - 1)) by lia. simpl.
    eexists. split; [done|]. split.
    + intros y. split.
      * intros [= <-]. split; [lia|]. split.
        -- intros y' Hy'. apply Hfit. lia.
        -- destruct (decide (y1 < height b)); [right|left; lia].
           replace (y1 - 1 + 1) with y1 by lia. by apply Hstop.
      * intros (Hy & Hall & Hnext). f_equal.
        destruct (decide (y1 - 1 < y)) as [Hlt|].
        { assert (y1 < height b) as Hh by lia.
          specialize (Hstop Hh). rewrite (Hall y1) in Hstop by lia. done. }
        destruct (decide (y < y1 - 1)) as [Hlt|]; [|lia].
        destruct Hnext as [Hnext|Hnext]; [lia|].
        rewrite (Hfit (y + 1)) in Hnext by lia. done.
    + split; [done|]. intros [Hh|H0]; [lia|].
      rewrite (Hfit 0) in H0 by lia. done.
  - assert (y1 = 0) as -> by lia.
    eexists. split; [done|]. split.
    + intros y. split; [done|]. intros (Hy & Hall & _).
      rewrite (Hall 0) in Hstop by lia. assert (0 < height b) as Hh by lia.
      by specialize (Hstop Hh).
    + split; [|done]. intros _.
      destruct (decide (0 < height b)); [right; by apply Hstop|left; lia].
Qed.

End Drop.

(** ** Loops that do not raise, and the metrics of [_evaluate_position] *)

Section Loops.
Import Py.
Context {S A : Type}.

(** A loop whose body never raises and keeps [I] does not raise and ends
    in [I]. *)
Lemma for_each_inv (I : S → Prop) (l : list A) (body : S → A → res S) s :
  I s →
  (∀ s x, x ∈ l → I s → ∃ s', body s x = Ok s' ∧ I s') →
  ∃ s', for_each l body s = Ok s' ∧ I s'.
Proof.
  revert s. induction l as [|x l IH]; intros s Hs Hbody; [by exists s|].
  simpl. destruct (Hbody s x) as (s1 & Hs1 & HI1); [by left|done|].
  rewrite Hs1. simpl. apply IH; [done|].
  intros s2 y Hy. apply Hbody. by right.
Qed.

Lemma for_each_ext (l : list A) (body1 body2 : S → A → res S) s :
  (∀ s x, body1 s x = body2 s x) →
  for_each l body1 s = for_each l body2 s.
Proof.
  intros Hext. revert s. induction l as [|x l IH]; intros s; [done|].
  simpl. rewrite Hext. destruct (body2 s x); simpl; [apply IH|done].
Qed.
End Loops.

Section RangeLoops.
Import Py.
Context {S : Type}.

(** The same for a loop over [range(n)], with an invariant that knows how
    far the loop has come. *)
Lemma for_each_range_inv (I : Z → S → Prop) (n : Z) (body : S → Z → res S) s :
  I 0 s →
  (∀ i s, 0 ≤ i < n → I i s → ∃ s', body s i = Ok s' ∧ I (i + 1) s') →
  ∃ s', for_each (range n) body s = Ok s' ∧ I (Z.max 0 n) s'.
Proof.
  intros Hs Hbody. unfold range.
  assert (Hgen : ∀ (k : nat) m s, 0 ≤ m → m + Z.of_nat k = Z.max 0 n → I m s →
            ∃ s', for_each (seqZ m (Z.of_nat k)) body s = Ok s' ∧ I (Z.max 0 n) s').
  { induction k as [|k IH]; intros m s0 Hm Hk Hs0.
    - exists s0. simpl. split; [done|]. by replace (Z.max 0 n) with m by lia.
    - rewrite seqZ_cons by lia. simpl.
      destruct (Hbody m s0) as (s1 & Hs1 & HI1); [lia|done|].
      rewrite Hs1. simpl.
      replace (Z.pred (Z.of_nat (Datatypes.S k))) with (Z.of_nat k) by lia.
      apply IH; [lia|lia|done]. }
  destruct (decide (0 ≤ n)).
  - pose proof (Hgen (Z.to_nat n) 0 s) as H. rewrite Z2Nat.id in H by lia.
    apply H; [lia|lia|done].
  - rewrite seqZ_nil by lia. exists s. split; [done|]. by replace (Z.max 0 n) with 0 by lia.
Qed.
End RangeLoops.

Section Metrics.
Import Py GameEngine AiAgent Spec.
Implicit Types (b : GameBoard) (p : Tetromino).

Lemma column_height_total b x ys :
  wf_board b → 0 ≤ x < width b → Forall (λ y, 0 ≤ y < height b) ys →
  ∃ h, column_height b x ys = Ok h.
Proof.
  intros Hwf Hx. induction 1 as [|y ys Hy _ IH]; [by eexists|].
  simpl. destruct (rect_index _ _ _ y x Hwf Hy Hx) as (row & Hrow & _ & Hc).
  rewrite Hrow. simpl. rewrite Hc. simpl.
  destruct (cell_at _ _ _); [by eexists|done].
Qed.

Lemma range_bounds n : Forall (λ i, 0 ≤ i < n) (range n).
Proof. apply Forall_forall. intros i Hi. apply elem_of_seqZ in Hi. lia. Qed.

Lemma get_height_map_total b :
  wf_board b → ∃ heights, get_height_map b = Ok heights.
Proof.
  intros Hwf. unfold get_height_map.
  destruct (for_each_inv (λ _, True) (range (width b))
    (λ heights x, h <- column_height b x (range (height b)) ;; Ok (heights ++ [h])) [])
    as (hs & Hhs & _); [done| |by eexists].
  intros hs x Hx _. apply elem_of_seqZ in Hx.
  destruct (column_height_total b x (range (height b)) Hwf) as [h Hh];
    [lia|apply range_bounds|].
  rewrite Hh. by eexists.
Qed.

Lemma get_max_height_total b :
  wf_board b → ∃ h, get_max_height b = Ok h.
Proof.
  intros Hwf. unfold get_max_height.
  destruct (get_height_map_total b Hwf) as [hs Hhs]. rewrite Hhs. by eexists.
Qed.

Lemma bumpiness_of_total heights : ∃ bump, bumpiness_of heights = Ok bump.
Proof.
  unfold bumpiness_of.
  destruct (for_each_inv (λ _, True) (range (Z.of_nat (length heights) - 1))
    (λ acc i, a <- index heights i ;; b <- index heights (i + 1) ;;
              Ok (acc + Z.abs (a - b))) 0)
    as (r & Hr & _); [done| |by eexists].
  intros acc i Hi _. apply elem_of_seqZ in Hi.
  destruct (index_lt heights i) as (a & Ha & _); [lia|].
  destruct (index_lt heights (i + 1)) as (c & Hc & _); [lia|].
  rewrite Ha. simpl. rewrite Hc. by eexists.
Qed.

Lemma count_holes_column_total board b col_x holes :
  wf_board b → 0 ≤ col_x < width b → height board = height b →
  ∃ holes', count_holes_column board b col_x holes = Ok holes'.
Proof.
  intros Hwf Hx Hh. unfold count_holes_column. rewrite Hh.
  match goal with |- context [for_each ?l ?body ?s] =>
    destruct (for_each_inv (λ _, True) l body s) as (st & Hst & _) end;
    [done| |rewrite Hst; by eexists].
  intros [found n] y Hy _. apply elem_of_seqZ in Hy.
  destruct (rect_index _ _ _ y col_x Hwf) as (row & Hrow & _ & Hc); [lia..|].
  rewrite Hrow. simpl. rewrite Hc. simpl.
  destruct (cell_at _ _ _); [by eexists|]. destruct found; by eexists.
Qed.

Lemma _count_potential_lines_total b :
  wf_board b → ∃ n, _count_potential_lines b = Ok n.
Proof.
  intros Hwf. unfold _count_potential_lines.
  match goal with |- context [for_each ?l ?body ?s] =>
    destruct (for_each_inv (λ _, True) l body s) as (st & Hst & _) end;
    [done| |by eexists].
  intros count y Hy _. apply elem_of_seqZ in Hy. pose proof Hwf as [Hlen _].
  destruct (index_lt (grid b) y) as (row & Hrow & _); [lia|].
  rewrite Hrow. by eexists.
Qed.

(** On a well-formed board the evaluation of a placement never raises. *)
Lemma _evaluate_position_total ai b p x y :
  wf_board b → ∃ score, _evaluate_position ai b p x y = Ok score.
Proof.
  intros Hwf. unfold _evaluate_position.
  set (test_board := set_grid (new_GameBoard (width b) (height b)) (grid b)).
  assert (wf_board test_board) as Hwf0 by done.
  destruct (place_piece_spec test_board p x y Hwf0)
    as (tb & Htb & Hwf1 & Hw & Hh & _).
  rewrite Htb. simpl.
  destruct (get_max_height_total tb Hwf1) as [mh Hmh]. rewrite Hmh. simpl.
  destruct (get_height_map_total tb Hwf1) as [hs Hhs]. rewrite Hhs. simpl.
  destruct (bumpiness_of_total hs) as [bump Hbump]. rewrite Hbump. simpl.
  match goal with |- context [for_each ?l ?body ?s] =>
    destruct (for_each_inv (λ _, True) l body s) as (holes & Hholes & _) end; [done| |].
  { intros holes col_x Hx _. apply elem_of_seqZ in Hx.
    destruct (count_holes_column_total b tb col_x holes Hwf1) as [h' Hh'];
      [rewrite Hw; simpl; lia|by rewrite Hh|].
    rewrite Hh'. by eexists. }
  rewrite Hholes. simpl.
  destruct (String.eqb _ _); [by eexists|].
  destruct (String.eqb _ _); [by eexists|].
  destruct (String.eqb _ _); [|by eexists].
  destruct (_count_potential_lines_total tb Hwf1) as [n Hn]. rewrite Hn. by eexists.
Qed.

Lemma _evaluate_position_strategy ai1 ai2 b p x y :
  strategy ai1 = strategy ai2 →
  _evaluate_position ai1 b p x y = _evaluate_position ai2 b p x y.
Proof. intros Hs. unfold _evaluate_position. by rewrite Hs. Qed.
End Metrics.

(** ** The search of [decide_placement] *)

Section Search.
Import Py GameEngine AiAgent Spec.
Implicit Types (b : GameBoard) (p : Tetromino) (bst : best).

Lemma rotated_total t sh r :
  SHAPES !! t = Some sh → ∃ pc, rotated t r = Ok pc.
Proof.
  intros Ht. unfold rotated, new_Tetromino. rewrite Ht. simpl.
  match goal with |- context [for_each ?l ?body ?s] =>
    destruct (for_each_inv (λ _, True) l body s) as (pc & Hpc & _) end;
    [done| |by eexists].
  intros pc _ _ _. by eexists.
Qed.

Lemma hard_drop_fits b p x y :
  wf_board b → hard_drop b p x = Ok (Some y) → can_place b p x y = Ok true.
Proof.
  intros Hwf Hd. destruct (hard_drop_spec b p x Hwf) as (r & Hr & Hsome & _).
  rewrite Hd in Hr. injection Hr as <-.
  destruct (Hsome y) as [(Hy & Hall & _) _]; [done|]. apply Hall. lia.
Qed.

Variables (ai : AIAgent) (b : GameBoard) (t : string).
Hypothesis Hwf : wf_board b.

Lemma search_inv_widen r x r' x' bst :
  search_inv ai b t r x bst →
  (∀ pos, searched r x pos → searched r' x' pos) →
  (∀ pos s, candidate ai b t pos s → searched r' x' pos → searched r x pos) →
  search_inv ai b t r' x' bst.
Proof.
  unfold search_inv. intros Hinv Hsub Hsup.
  destruct (best_position bst) as [pos|], (best_score bst) as [s|]; try done.
  - destruct Hinv as (Hc & Hs & Hmax). split_and!; [done|by apply Hsub|].
    intros pos' s' Hc' Hs'. apply Hmax; [done|]. by eapply Hsup.
  - intros pos s Hc Hs. eapply Hinv; [done|]. by eapply Hsup.
Qed.

Lemma try_column_inv pc r x bst :
  rotated t r = Ok pc → 0 ≤ r < 4 → 0 ≤ x < width b - get_width pc + 1 →
  search_inv ai b t r x bst →
  ∃ bst', try_column ai b pc r bst x = Ok bst' ∧ search_inv ai b t r (x + 1) bst'.
Proof.
  intros Hpc Hr Hx Hinv. unfold try_column.
  destruct (hard_drop_spec b pc x Hwf) as (d & Hd & _). rewrite Hd. simpl.
  (* the candidates at [(r, x)] are the ones the drop yields *)
  assert (Hhere : ∀ pos s, candidate ai b t pos s → searched r (x + 1) pos →
            ¬ searched r x pos →
            pos.2 = r ∧ pos.1.1 = x ∧ d = Some pos.1.2 ∧
            _evaluate_position ai b pc x pos.1.2 = Ok s).
  { intros [[x' y'] r'] s (_ & pc' & Hpc' & _ & Hd' & He') Hs Hns. simpl in *.
    assert (r' = r ∧ x' = x) as [-> ->].
    { unfold searched in *. simpl in *. lia. }
    rewrite Hpc in Hpc'. injection Hpc' as <-.
    rewrite Hd in Hd'. by injection Hd' as ->. }
  destruct d as [y|].
  - destruct (_evaluate_position_total ai b pc x y Hwf) as [sc Hsc].
    rewrite Hsc. simpl.
    assert (candidate ai b t (x, y, r) sc) as Hcand.
    { split; [done|]. exists pc. simpl. split_and!; [done|lia|lia|done|done]. }
    unfold search_inv in Hinv.
    destruct (best_position bst) as [pos|] eqn:Hbp, (best_score bst) as [s|] eqn:Hbs;
      try done; simpl.
    + destruct Hinv as (Hc & Hs & Hmax). destruct (sc >? s) eqn:Hgt.
      * eexists. split; [done|]. unfold search_inv. simpl.
        split_and!; [done|unfold searched; simpl; lia|].
        intros pos' s' Hc' Hs'. destruct (decide (searched r x pos')) as [Hold|Hnew].
        -- destruct (Hmax pos' s' Hc' Hold) as [Hle _]. lia.
        -- destruct (Hhere pos' s' Hc' Hs' Hnew) as (Hr' & Hx' & [= <-] & He).
           rewrite Hsc in He. injection He as <-. split; [lia|].
           unfold before. simpl. lia.
      * exists bst. split; [done|]. unfold search_inv. rewrite Hbp, Hbs.
        split_and!; [done|unfold searched in *; lia|].
        intros pos' s' Hc' Hs'. destruct (decide (searched r x pos')) as [Hold|Hnew].
        -- by apply Hmax.
        -- destruct (Hhere pos' s' Hc' Hs' Hnew) as (Hr' & Hx' & [= <-] & He).
           rewrite Hsc in He. injection He as <-. split; [lia|].
           unfold before, searched in *. lia.
    + eexists. split; [done|]. unfold search_inv. simpl.
      split_and!; [done|unfold searched; simpl; lia|].
      intros pos' s' Hc' Hs'. destruct (decide (searched r x pos')) as [Hold|Hnew].
      -- by destruct (Hinv pos' s' Hc').
      -- destruct (Hhere pos' s' Hc' Hs' Hnew) as (Hr' & Hx' & [= <-] & He).
         rewrite Hsc in He. injection He as <-. split; [lia|].
         unfold before. simpl. lia.
  - exists bst. split; [done|].
    eapply search_inv_widen; [exact Hinv| |].
    + unfold searched. intros pos. lia.
    + intros pos s Hc Hs. destruct (decide (searched r x pos)) as [|Hnew]; [done|].
      by destruct (Hhere pos s Hc Hs Hnew) as (_ & _ & ? & _).
Qed.

Lemma try_rotation_inv sh piece r bst :
  type piece = t → SHAPES !! t = Some sh → 0 ≤ r < 4 →
  search_inv ai b t r 0 bst →
  ∃ bst', try_rotation ai b piece bst r = Ok bst' ∧ search_inv ai b t (r + 1) 0 bst'.
Proof.
  intros Ht Hsh Hr Hinv. unfold try_rotation. rewrite Ht.
  destruct (rotated_total t sh r Hsh) as [pc Hpc]. rewrite Hpc. simpl.
  destruct (for_each_range_inv (λ x bst, search_inv ai b t r x bst)
              (width b - get_width pc + 1) (try_column ai b pc r) bst)
    as (bst' & Hbst' & Hinv'); [done| |].
  { intros x bst0 Hx. by apply try_column_inv. }
  exists bst'. split; [done|].
  eapply search_inv_widen; [exact Hinv'| |].
  - unfold searched. intros pos. lia.
  - intros [[x' y'] r'] s (Hr' & pc' & Hpc' & Hx' & _) Hs. unfold searched in *. simpl in *.
    destruct (decide (r' = r)) as [->|]; [|lia].
    rewrite Hpc in Hpc'. injection Hpc' as <-. lia.
Qed.

Lemma search_spec sh piece :
  type piece = t → SHAPES !! t = Some sh →
  ∃ bst, search ai b piece = Ok bst ∧ search_inv ai b t 4 0 bst.
Proof.
  intros Ht Hsh. unfold search.
  destruct (for_each_range_inv (λ r bst, search_inv ai b t r 0 bst) 4
              (try_rotation ai b piece) {| best_position := None; best_score := None |})
    as (bst & Hbst & Hinv).
  - unfold search_inv. simpl. intros [[x y] r] s (Hr & pc & _ & Hx & _).
    unfold searched. simpl in *. lia.
  - intros r bst Hr. by eapply try_rotation_inv.
  - by exists bst.
Qed.
End Search.

(** ** [decide_placement] *)

Section Decide.
Import Py GameEngine AiAgent Spec.
Implicit Types (b : GameBoard) (p : Tetromino) (bst : best).

(** The search looks at the agent's strategy and the piece's type only. *)
Lemma search_ext ai1 ai2 b p1 p2 :
  strategy ai1 = strategy ai2 → type p1 = type p2 →
  search ai1 b p1 = search ai2 b p2.
Proof.
  intros Hs Ht. unfold search. apply for_each_ext. intros bst r.
  unfold try_rotation. rewrite Ht. destruct (rotated (type p2) r) as [pc|]; [|done].
  simpl. apply for_each_ext. intros bst' x. unfold try_column.
  destruct (hard_drop b pc x) as [[y|]|]; try done. simpl.
  by rewrite (_evaluate_position_strategy ai1 ai2).
Qed.

(** [decide_placement] reads the clock twice, runs the search, and records
    one timing sample. *)
Lemma decide_placement_unfold ai b p world bst :
  search ai b p = Ok bst →
  decide_placement ai b p world =
  Ok ((default (width b `div` 2, 0, 0) (best_position bst),
       {| name := name ai; strategy := strategy ai;
          decision_times := decision_times ai ++
            [hd 0 (tl (clock_tape world)) - hd 0 (clock_tape world)] |}),
      {| rand_tape := rand_tape world;
         clock_tape := tl (tl (clock_tape world)) |}).
Proof.
  intros Hs. unfold decide_placement, eff_bind, time, lift, eff_ret. simpl.
  rewrite Hs. by destruct (best_position bst).
Qed.

Lemma decide_placement_spec ai b p world sh :
  wf_board b → SHAPES !! type p = Some sh →
  ∃ pos ai' world',
    decide_placement ai b p world = Ok ((pos, ai'), world') ∧
    name ai' = name ai ∧ strategy ai' = strategy ai ∧
    length (decision_times ai') = Datatypes.S (length (decision_times ai)) ∧
    rand_tape world' = rand_tape world ∧
    (∀ ai2 p2 world2, strategy ai2 = strategy ai → type p2 = type p →
       ∃ ai2' world2', decide_placement ai2 b p2 world2 = Ok ((pos, ai2'), world2')) ∧
    ((∃ s, candidate ai b (type p) pos s ∧
           ∀ pos' s', candidate ai b (type p) pos' s' →
             s' ≤ s ∧ (before pos' pos → s' < s)) ∨
     ((∀ pos' s', ¬ candidate ai b (type p) pos' s') ∧
      pos = (width b `div` 2, 0, 0))).
Proof.
  intros Hwf Hsh.
  destruct (search_spec ai b (type p) Hwf sh p eq_refl Hsh) as (bst & Hbst & Hinv).
  eexists _, _, _. split; [by apply decide_placement_unfold|]. simpl.
  split_and!; [done|done|rewrite length_app; simpl; lia|done| |].
  - intros ai2 p2 world2 Hs Ht. eexists _, _.
    apply decide_placement_unfold. by rewrite (search_ext ai2 ai b p2 p).
  - assert (Hall : ∀ pos s, candidate ai b (type p) pos s → searched 4 0 pos).
    { intros pos s (Hr & _). unfold searched. lia. }
    unfold search_inv in Hinv.
    destruct (best_position bst) as [pos|], (best_score bst) as [s|]; try done; simpl.
    + left. destruct Hinv as (Hc & _ & Hmax). exists s. split; [done|].
      intros pos' s' Hc'. apply Hmax; [done|]. by eapply Hall.
    + right. split; [|done]. intros pos' s' Hc'. eapply Hinv; [done|]. by eapply Hall.
Qed.

(** No valid placement at all leaves the search without a candidate. *)
Lemma no_fit_no_candidate ai b t :
  wf_board b →
  (∀ rot pc x y, 0 ≤ rot < 4 → rotated t rot = Ok pc →
     0 ≤ x ≤ width b - get_width pc → can_place b pc x y ≠ Ok true) →
  ∀ pos s, ¬ candidate ai b t pos s.
Proof.
  intros Hwf Hno [[x y] r] s (Hr & pc & Hpc & Hx & Hd & _). simpl in *.
  eapply Hno; [done..|]. by apply hard_drop_fits.
Qed.
End Decide.

(** ** The match loop and its log *)

Section Rounds.
Import Py GameEngine Spec.

(** One round of the loop moves the turn counter by one and only appends
    to the log; the turn entries it appends carry (0, 0, 0). *)
Lemma run_round_log a w r a' w' :
  Arena.run_round a w = Ok ((r, a'), w') →
  Arena.turn a' = Arena.turn a + 1 ∧
  ∃ new, Arena.events (Arena.log a') = Arena.events (Arena.log a) ++ new ∧
         zero_placements new.
Proof.
  unfold Arena.run_round, Arena.log_turn, Arena.log_game_over.
  unfold eff_bind, eff_ret, lift, time.
  intros H.
  repeat case_match; simplify_eq; simpl.
  all: split; [done|].
  all: rewrite <- ?app_assoc; eexists; split; [done|].
  all: repeat constructor; simpl; intros; by simplify_eq.
Qed.

Lemma finish_by_score_log a w winner a' w' :
  Arena.finish_by_score a w = Ok ((winner, a'), w') →
  ∃ new, Arena.events (Arena.log a') = Arena.events (Arena.log a) ++ new ∧
         zero_placements new.
Proof.
  unfold Arena.finish_by_score, Arena.log_game_over, eff_bind, eff_ret, time.
  intros H. simplify_eq. simpl. eexists. split; [done|].
  repeat constructor. simpl. intros. by simplify_eq.
Qed.

Lemma run_loop_log fuel max_turns a w winner a' w' :
  Arena.run_loop fuel max_turns a w = Ok ((winner, a'), w') →
  ∃ new, Arena.events (Arena.log a') = Arena.events (Arena.log a) ++ new ∧
         zero_placements new.
Proof.
  revert a w. induction fuel as [|fuel IH]; intros a w; simpl.
  - apply finish_by_score_log.
  - destruct (Arena.turn a <? max_turns); [|apply finish_by_score_log].
    unfold eff_bind at 1.
    destruct (Arena.run_round a w) as [[[r a1] w1]|] eqn:Hround; [|done].
    destruct (run_round_log _ _ _ _ _ Hround) as (_ & new1 & Hlog1 & Hz1).
    destruct r as [name|].
    + unfold eff_ret. intros [= <- <- <-]. by exists new1.
    + intros Hrest. destruct (IH _ _ Hrest) as (new2 & Hlog2 & Hz2).
      exists (new1 ++ new2). rewrite Hlog2, Hlog1, app_assoc. split; [done|].
      by apply Forall_app.
Qed.

(** The log of a finished match: what was there, then entries whose
    placement is (0, 0, 0) whatever was played. *)
Lemma run_match_log a max_turns w winner a' w' :
  Arena.run_match a max_turns w = Ok ((winner, a'), w') →
  ∃ new, Arena.events (Arena.log a') = Arena.events (Arena.log a) ++ new ∧
         zero_placements new.
Proof.
  unfold Arena.run_match, eff_bind at 1.
  destruct (Arena._get_next_piece (Arena.bank a) w) as [[n1 w1]|]; [|done].
  unfold eff_bind at 1.
  destruct (Arena._get_next_piece n1.2 w1) as [[n2 w2]|]; [|done].
  intros Hloop. by destruct (run_loop_log _ _ _ _ _ _ _ Hloop) as (new & Hlog & Hz); eauto.
Qed.

(** A placement that does not fit: [play_turn] sets the [game_over] field,
    leaves the grid alone and reports no line, no time and no attack. *)
Lemma play_turn_cannot_place fb ai board t piece w x y rotations ai' w1 turned :
  new_Tetromino t = Ok piece →
  AiAgent.decide_placement ai board piece w = Ok (((x, y, rotations), ai'), w1) →
  for_each (range rotations) (λ p _, Ok (rotate p)) piece = Ok turned →
  can_place board turned x y = Ok false →
  Arena.play_turn fb ai board t w =
  Ok ({| Arena.tr_lines_cleared := 0; Arena.tr_decision_time := 0;
         Arena.tr_attack_piece := None; Arena.tr_ai := ai';
         Arena.tr_board := Arena.set_game_over board |}, w1).
Proof.
  intros Hnew Hdecide Hturn Hfit. unfold Arena.play_turn, eff_bind, lift.
  rewrite Hnew, Hdecide, Hturn, Hfit. done.
Qed.

Lemma is_game_over_set_game_over board :
  is_game_over (Arena.set_game_over board) = is_game_over board.
Proof. done. Qed.

(** The [while] loop needs no more fuel than [max_turns - turn]. *)
Lemma run_loop_fuel fuel max_turns a w :
  (Z.to_nat (max_turns - Arena.turn a) ≤ fuel)%nat →
  Arena.run_loop fuel max_turns a w =
  Arena.run_loop (Z.to_nat (max_turns - Arena.turn a)) max_turns a w.
Proof.
  revert a w. induction fuel as [|fuel IH]; intros a w Hfuel.
  - by replace (Z.to_nat (max_turns - Arena.turn a)) with 0%nat by lia.
  - simpl. destruct (Arena.turn a <? max_turns) eqn:Hlt.
    + destruct (Z.to_nat (max_turns - Arena.turn a)) as [|k] eqn:Hk; [lia|].
      simpl. rewrite Hlt. unfold eff_bind.
      destruct (Arena.run_round a w) as [[[r a1] w1]|] eqn:Hround; [|done].
      destruct r as [name|]; [done|].
      destruct (run_round_log _ _ _ _ _ Hround) as (Hturn & _).
      rewrite IH by lia. f_equal. lia.
    + replace (Z.to_nat (max_turns - Arena.turn a)) with 0%nat by lia. done.
Qed.
End Rounds.

Section Sanity.
Import Py GameEngine AiAgent Spec Examples.

(** Four rotations bring every shape of [SHAPES] back. *)
Lemma rotate_four_times :
  Forall (λ t, ∃ p, new_Tetromino t = Ok p ∧
                    rotate (rotate (rotate (rotate p))) = p)
         Bank.TETROMINO_TYPES.
Proof. repeat constructor; eexists; (split; [vm_compute; reflexivity|reflexivity]). Qed.

(** The "L" piece turned once. *)
Lemma rotate_L :
  shape (rotate {| type := "L"; shape := [[true; false]; [true; false]; [true; true]];
                   rotation := 0 |}) =
  [[true; true; true]; [true; false; false]].
Proof. reflexivity. Qed.

(** On an empty 10x20 board the "I" piece drops to row 19, and the board
    is not over after it. *)
Lemma drop_I_on_empty_board :
  hard_drop (new_GameBoard 10 20) piece_I 3 = Ok (Some 19) ∧
  ∃ b', place_piece (new_GameBoard 10 20) piece_I 3 19 = Ok b' ∧
        is_game_over b' = Ok false.
Proof. split; [reflexivity|]. eexists. split; reflexivity. Qed.

(** A full bottom row alone: one line cleared, an empty grid, 100 points. *)
Lemma clear_bottom_row :
  clear_lines (set_grid (new_GameBoard 10 20)
                 (replicate 19 (replicate 10 false) ++ [replicate 10 true])) =
  Ok (1, {| width := 10; height := 20;
            grid := replicate 20 (replicate 10 false);
            score := 100; lines_cleared := 1; game_over := false |}).
Proof. reflexivity. Qed.
End Sanity.

(** ** The placements of the search, in the spec's words *)

Section Placements.
Import Py GameEngine AiAgent Spec.
Implicit Types (b : GameBoard) (ai : AIAgent) (pos : placement).

Lemma can_place_true_fits b p x y :
  wf_board b → can_place b p x y = Ok true ↔ fits b (shape p) x y.
Proof.
  intros Hwf. destruct (can_place_spec b p x y Hwf) as (ok & Hok & Hiff).
  rewrite Hok. split.
  - intros [= ->]. by apply Hiff.
  - intros Hf. f_equal. by apply Hiff.
Qed.

Lemma can_place_false_fits b p x y :
  wf_board b → can_place b p x y = Ok false ↔ ¬ fits b (shape p) x y.
Proof.
  intros Hwf. destruct (can_place_spec b p x y Hwf) as (ok & Hok & Hiff).
  rewrite Hok. split.
  - intros [= ->] Hf. by apply Hiff in Hf.
  - intros Hn. f_equal. destruct ok; [|done]. destruct Hn. by apply Hiff.
Qed.

(** The loop [for _ in range(rotation): piece_copy.rotate()]. *)
Lemma for_each_rotate (l : list Z) (p : Tetromino) :
  for_each l (λ p _, Ok (rotate p)) p = Ok (Nat.iter (length l) rotate p).
Proof.
  revert p. induction l as [|i l IH]; intros p; [done|].
  simpl for_each. simpl Py.bind. rewrite IH. simpl length.
  by rewrite Nat.iter_succ_r.
Qed.

Lemma rotated_quarter_turns (t : string) (sh : matrix) (rot : Z) :
  SHAPES !! t = Some sh → rotated t rot = Ok (quarter_turns t sh rot).
Proof.
  intros Hsh. unfold rotated, new_Tetromino, quarter_turns. rewrite Hsh. simpl.
  rewrite for_each_rotate. unfold range. by rewrite length_seqZ.
Qed.

(** The drop of the search ends on the row the spec's words name. *)
Lemma hard_drop_lands b (p : Tetromino) (x y : Z) :
  wf_board b → hard_drop b p x = Ok (Some y) ↔ lands b p x y.
Proof.
  intros Hwf. destruct (hard_drop_spec b p x Hwf) as (r & Hr & Hsome & _).
  rewrite Hr. unfold lands. split.
  - intros [= ->]. destruct (proj1 (Hsome y) eq_refl) as (Hy & Hall & Hnext).
    split_and!; [lia..| |].
    + intros y' Hy'. apply can_place_true_fits; [done|]. by apply Hall.
    + destruct Hnext as [Hfloor|Hno]; [by left|right].
      by apply can_place_false_fits.
  - intros (Hy & Hall & Hnext). f_equal. apply Hsome. split_and!; [lia..| |].
    + intros y' Hy'. apply can_place_true_fits; [done|]. by apply Hall.
    + destruct Hnext as [Hfloor|Hno]; [by left|right].
      by apply can_place_false_fits.
Qed.

(** The placements the search scores are the placements of the spec's
    words. *)
Lemma candidate_valid_placement ai b (t : string) (sh : matrix) pos (s : Z) :
  wf_board b → SHAPES !! t = Some sh →
  candidate ai b t pos s ↔ valid_placement ai b t sh pos s.
Proof.
  intros Hwf Hsh. unfold candidate, valid_placement.
  rewrite (rotated_quarter_turns t sh pos.2 Hsh). split.
  - intros (Hrot & pc & [= <-] & Hx & Hdrop & Hscore).
    split_and!; [lia..|by apply hard_drop_lands|done].
  - intros (Hrot & Hx & Hland & Hscore). split; [done|].
    eexists. split_and!; [done|lia..|by apply hard_drop_lands|done].
Qed.

(** What [decide_placement] returns, in the spec's words. *)
Lemma decide_placement_valid ai b (p : Tetromino) (world : World) (sh : matrix) :
  wf_board b → SHAPES !! type p = Some sh →
  ∃ pos ai' world',
    decide_placement ai b p world = Ok ((pos, ai'), world') ∧
    name ai' = name ai ∧ strategy ai' = strategy ai ∧
    length (decision_times ai') = Datatypes.S (length (decision_times ai)) ∧
    rand_tape world' = rand_tape world ∧
    (∀ ai2 p2 world2, strategy ai2 = strategy ai → type p2 = type p →
       ∃ ai2' world2', decide_placement ai2 b p2 world2 = Ok ((pos, ai2'), world2')) ∧
    ((∃ s, valid_placement ai b (type p) sh pos s ∧
           ∀ pos' s', valid_placement ai b (type p) sh pos' s' →
             s' ≤ s ∧ (before pos' pos → s' < s)) ∨
     ((∀ pos' s', ¬ valid_placement ai b (type p) sh pos' s') ∧
      pos = (width b `div` 2, 0, 0))).
Proof.
  intros Hwf Hsh.
  destruct (decide_placement_spec ai b p world sh Hwf Hsh)
    as (pos & ai' & world' & Hd & Hn & Hs & Hl & Hr & Hdet & Hmax).
  exists pos, ai', world'. split_and!; [done..|].
  destruct Hmax as [(s & Hc & Hbest)|[Hnone Hfb]].
  - left. exists s. split; [by apply candidate_valid_placement|].
    intros pos' s' Hv. apply Hbest. by apply (candidate_valid_placement _ _ _ sh).
  - right. split; [|done]. intros pos' s' Hv. apply (Hnone pos' s').
    by apply (candidate_valid_placement _ _ _ sh).
Qed.
End Placements.

(** ** Which draw gives which hole *)

Section Holes.
Import Py GameEngine Spec.

(** A value below the width is the hole as it is. *)
Lemma draws_of_values (w : Z) (tape : list nat) :
  Forall (λ v, (v < Z.to_nat w)%nat) tape →
  draws (length tape) w tape = map Z.of_nat tape.
Proof.
  induction 1 as [|v tape Hv _ IH]; [done|].
  simpl. rewrite IH. f_equal. by rewrite Nat.mod_small.
Qed.
End Holes.

(** ** More on the bank *)

Section PoolTotals.
Import Py Bank Spec.
Implicit Types (fb : FigureBank) (t : string).

Lemma foldl_add_shift (l : list Z) a : foldl Z.add a l = a + foldl Z.add 0 l.
Proof.
  revert a. induction l as [|x l IH]; intros a; simpl; [lia|].
  rewrite (IH (a + x)), (IH (0 + x)). lia.
Qed.

Lemma sum_perm (l1 l2 : list Z) :
  l1 ≡ₚ l2 → foldl Z.add 0 l1 = foldl Z.add 0 l2.
Proof.
  induction 1 as [|x l1 l2 _ IH|x y l|l1 l2 l3 _ IH1 _ IH2]; simpl.
  - done.
  - rewrite (foldl_add_shift l1), (foldl_add_shift l2). by rewrite IH.
  - rewrite (foldl_add_shift l (0 + y + x)), (foldl_add_shift l (0 + x + y)). lia.
  - by rewrite IH1.
Qed.

Lemma values_insert fb t c c' :
  bank fb !! t = Some c →
  values {| bank := <[t := c']> (bank fb); initial_count := initial_count fb |}
    ≡ₚ c' :: (map_to_list (delete t (bank fb))).*2 ∧
  values fb ≡ₚ c :: (map_to_list (delete t (bank fb))).*2.
Proof.
  intros Hc. unfold values. simpl. split.
  - rewrite <- insert_delete_eq.
    rewrite map_to_list_insert by apply lookup_delete_eq. done.
  - rewrite <- (map_to_list_delete (bank fb) t c Hc). done.
Qed.

Lemma wf_new_FigureBank n : wf_bank (new_FigureBank n).
Proof.
  intros t. unfold new_FigureBank. simpl.
  pose proof (not_elem_of_list_to_map (M := gmap string)
                (map (λ piece_type, (piece_type, n)) TETROMINO_TYPES) t) as H.
  replace ((map (λ piece_type, (piece_type, n)) TETROMINO_TYPES).*1)
    with TETROMINO_TYPES in H by done.
  rewrite <- not_eq_None_Some. split.
  - intros Hs. apply dec_stable. intros Hn. by apply Hs, H.
  - intros Hin Hn. by apply H in Hn.
Qed.

Lemma wf_bank_get_piece fb t : wf_bank fb → wf_bank (get_piece fb t).2.
Proof.
  intros Hwf. unfold get_piece. destruct (bank fb !! t) as [c|] eqn:Hc; [|done].
  destruct (c >? 0); [|done]. intros k. specialize (Hwf k). simpl.
  destruct (decide (t = k)) as [->|Hne].
  - rewrite lookup_insert_eq. rewrite Hc in Hwf. split; [intros _; apply Hwf|]; eauto.
  - by rewrite lookup_insert_ne.
Qed.

(** A successful draw takes exactly one piece off the total; a failed one
    leaves it. *)
Lemma get_piece_total fb t :
  get_total_remaining (get_piece fb t).2 =
  get_total_remaining fb - (if (get_piece fb t).1 then 1 else 0).
Proof.
  unfold get_piece. destruct (bank fb !! t) as [c|] eqn:Hc; [|simpl; lia].
  destruct (c >? 0); [|simpl; lia]. simpl.
  destruct (values_insert fb t c (c - 1) Hc) as [H1 H2].
  unfold get_total_remaining. rewrite (sum_perm _ _ H1), (sum_perm _ _ H2).
  simpl. rewrite (foldl_add_shift _ (0 + (c - 1))), (foldl_add_shift _ (0 + c)). lia.
Qed.

Lemma new_FigureBank_total n : get_total_remaining (new_FigureBank n) = 7 * n.
Proof.
  unfold get_total_remaining, values, new_FigureBank. cbn [bank].
  rewrite (sum_perm _ (replicate 7 n)); [simpl; lia|].
  rewrite map_to_list_to_map; [done|]. compute_done.
Qed.

(** [is_empty] says that every count is 0. *)
Lemma is_empty_spec fb :
  is_empty fb = true ↔ ∀ t c, bank fb !! t = Some c → c = 0.
Proof.
  unfold is_empty, values. rewrite forallb_forall. split.
  - intros H t c Hc. apply Z.eqb_eq. apply H. apply list_elem_of_In.
    apply list_elem_of_fmap. exists (t, c). split; [done|]. by apply elem_of_map_to_list.
  - intros H c Hin. apply list_elem_of_In, list_elem_of_fmap in Hin as ([t c'] & -> & Hin).
    apply elem_of_map_to_list in Hin. apply Z.eqb_eq. by eapply H.
Qed.

Lemma sum_nonneg (l : list Z) :
  Forall (λ c, 0 ≤ c) l →
  0 ≤ foldl Z.add 0 l ∧ (foldl Z.add 0 l = 0 ↔ Forall (λ c, c = 0) l).
Proof.
  induction 1 as [|c l Hc _ [IH1 IH2]]; simpl; [done|].
  rewrite foldl_add_shift. split; [lia|]. rewrite Forall_cons. split.
  - intros Hz. split; [lia|]. apply IH2. lia.
  - intros [-> Hl]. apply IH2 in Hl. lia.
Qed.
End PoolTotals.

(** ** Drawing from the bank *)

Section PoolDraws.
Import Py Bank Spec.
Implicit Types (fb : FigureBank) (t : string) (w : World).

Lemma available_loop fb (l acc : list string) :
  (∀ t, t ∈ l → is_Some (bank fb !! t)) →
  for_each l
    (λ acc piece_type,
       match bank fb !! piece_type with
       | None => Raise KeyError
       | Some count => Ok (if count >? 0 then acc ++ [piece_type] else acc)
       end) acc =
  Ok (acc ++ filter (λ t, is_available fb t = true) l).
Proof.
  revert acc. induction l as [|t l IH]; intros acc Hl; simpl.
  - by rewrite app_nil_r.
  - destruct (Hl t) as [c Hc]; [by left|]. rewrite Hc. simpl.
    rewrite IH by (intros k Hk; apply Hl; by right).
    f_equal. destruct (c >? 0) eqn:Hpos.
    + rewrite filter_cons_True; [by rewrite <- app_assoc|].
      unfold is_available. by rewrite Hc.
    + rewrite filter_cons_False; [done|].
      unfold is_available. rewrite Hc. congruence.
Qed.

Lemma missing_loop fb (l acc : list string) :
  (∃ t, t ∈ l ∧ bank fb !! t = None) →
  for_each l
    (λ acc piece_type,
       match bank fb !! piece_type with
       | None => Raise KeyError
       | Some count => Ok (if count >? 0 then acc ++ [piece_type] else acc)
       end) acc = Raise KeyError.
Proof.
  revert acc. induction l as [|t l IH]; intros acc (k & Hk & Hnone).
  - by apply elem_of_nil in Hk.
  - simpl. destruct (bank fb !! t) as [c|] eqn:Hc; [|done]. simpl.
    apply IH. exists k. split; [|done].
    apply elem_of_cons in Hk as [->|?]; [congruence|done].
Qed.

Lemma get_available_pieces_wf fb :
  wf_bank fb → get_available_pieces fb = Ok (available fb).
Proof.
  intros Hwf. unfold get_available_pieces, available.
  rewrite available_loop; [done|]. intros t Ht. by apply Hwf.
Qed.

Lemma elem_of_available fb t :
  t ∈ available fb ↔ t ∈ TETROMINO_TYPES ∧ is_available fb t = true.
Proof. unfold available. rewrite list_elem_of_filter. tauto. Qed.

(** [random.choice] on a list that is not empty. *)
Lemma choice_spec {A} (l : list A) w :
  l ≠ [] →
  ∃ a, choice l w = Ok (a, {| rand_tape := tl (rand_tape w); clock_tape := clock_tape w |}) ∧
       a ∈ l.
Proof.
  intros Hl. unfold choice. destruct l as [|a0 l0] eqn:El; [done|]. rewrite <- El.
  unfold eff_bind, randbelow, eff_ret.
  assert (hd 0 (rand_tape w) `mod` length l < length l)%nat as Hlt.
  { apply Nat.mod_upper_bound. subst l. simpl. lia. }
  destruct (lookup_lt_is_Some_2 l _ Hlt) as [a Ha]. rewrite Ha.
  exists a. split; [done|]. by eapply list_elem_of_lookup_2.
Qed.

Lemma get_random_available_spec fb w :
  wf_bank fb →
  (available fb = [] ∧ get_random_available fb w = Ok (None, w)) ∨
  (∃ t, t ∈ available fb ∧
        get_random_available fb w =
        Ok (Some t, {| rand_tape := tl (rand_tape w); clock_tape := clock_tape w |})).
Proof.
  intros Hwf. unfold get_random_available, eff_bind, lift.
  rewrite (get_available_pieces_wf fb Hwf).
  destruct (available fb) as [|t0 l0] eqn:Ea; [by left|right].
  destruct (choice_spec (t0 :: l0) w) as (t & Hc & Hin); [done|].
  exists t. split; [done|]. unfold eff_bind in *. by rewrite Hc.
Qed.

Lemma canonical_not_blank t : t ∈ TETROMINO_TYPES → String.eqb t "" = false.
Proof.
  unfold TETROMINO_TYPES. rewrite !elem_of_cons, elem_of_nil.
  intros H. by repeat (destruct H as [->|H]; [done|]).
Qed.

Lemma canonical_shape t : t ∈ TETROMINO_TYPES → is_Some (GameEngine.SHAPES !! t).
Proof.
  unfold TETROMINO_TYPES. rewrite !elem_of_cons, elem_of_nil.
  intros H. by repeat (destruct H as [->|H]; [by eexists|]).
Qed.

(** [_get_next_piece] on a well-formed bank: a canonical type, drawn from
    the bank while something is available, free once nothing is. *)
Lemma _get_next_piece_spec fb w :
  wf_bank fb →
  ∃ t fb' w', Arena._get_next_piece fb w = Ok ((t, fb'), w') ∧
    t ∈ TETROMINO_TYPES ∧ wf_bank fb' ∧
    clock_tape w' = clock_tape w ∧
    ((t ∈ available fb ∧ get_piece fb t = (true, fb')) ∨
     (available fb = [] ∧ fb' = fb)).
Proof.
  intros Hwf. unfold Arena._get_next_piece, eff_bind at 1.
  destruct (get_random_available_spec fb w Hwf) as [[Hnone Hr]|(t & Hin & Hr)];
    rewrite Hr.
  - destruct (choice_spec TETROMINO_TYPES w) as (t & Hc & Hin); [done|].
    unfold eff_bind, eff_ret. rewrite Hc.
    eexists _, _, _. split; [done|]. split_and!; [done..|]. by right.
  - pose proof Hin as Hin'. apply elem_of_available in Hin' as [Hcan Hav].
    rewrite (canonical_not_blank t Hcan). unfold eff_ret.
    eexists _, _, _. split; [done|].
    split_and!; [done|by apply wf_bank_get_piece|done|]. left. split; [done|].
    unfold is_available in Hav. unfold get_piece.
    destruct (bank fb !! t) as [c|]; [|done]. by rewrite Hav.
Qed.
End PoolDraws.

(** ** The attack piece and the next piece *)

Section Attack.
Import Py Bank AiAgent Spec.
Implicit Types (fb : FigureBank) (t : string) (w : World) (ai : AIAgent).

Lemma is_available_canonical fb t :
  wf_bank fb → is_available fb t = true → t ∈ available fb.
Proof.
  intros Hwf Hav. apply elem_of_available. split; [|done].
  apply Hwf. unfold is_available in Hav. destruct (bank fb !! t); [by eexists|done].
Qed.

Lemma choose_attack_piece_spec ai fb w :
  wf_bank fb →
  (available fb = [] ∧ choose_attack_piece ai fb w = Ok (None, w)) ∨
  (∃ t, choose_attack_piece ai fb w =
          Ok (Some t, {| rand_tape := tl (rand_tape w); clock_tape := clock_tape w |}) ∧
        t ∈ available fb ∧
        (strategy ai = "aggressive"%string →
         (∃ d, d ∈ ["T"; "L"; "J"]%string ∧ d ∈ available fb) →
         t ∈ ["T"; "L"; "J"]%string) ∧
        (strategy ai = "defensive"%string →
         (∃ e, e ∈ ["I"; "O"]%string ∧ e ∈ available fb) →
         t ∈ ["I"; "O"]%string)).
Proof.
  intros Hwf. unfold choose_attack_piece, eff_bind at 1, lift.
  rewrite (get_available_pieces_wf fb Hwf).
  destruct (available fb) as [|t0 l0] eqn:Ea; [by left|right].
  assert (Hdefault : ∃ t, choice (t0 :: l0) w =
            Ok (t, {| rand_tape := tl (rand_tape w); clock_tape := clock_tape w |}) ∧ t ∈ (t0 :: l0)).
  { by apply choice_spec. }
  assert (Hpref : ∀ preferred,
            (∃ d, d ∈ preferred ∧ d ∈ (t0 :: l0)) → filter (λ p, p ∈ (t0 :: l0)) preferred ≠ []).
  { intros preferred (d & Hd & Hdl) Hnil.
    assert (d ∈ filter (λ p, p ∈ (t0 :: l0)) preferred) as Hin by (by apply list_elem_of_filter).
    rewrite Hnil in Hin. by apply elem_of_nil in Hin. }
  assert (Hchoice : ∀ preferred : list string, preferred ≠ [] →
            ∃ t, choice preferred w =
              Ok (t, {| rand_tape := tl (rand_tape w); clock_tape := clock_tape w |}) ∧
              t ∈ preferred).
  { intros preferred Hne. by apply choice_spec. }
  unfold eff_bind, eff_ret. cbv beta zeta.
  destruct (String.eqb (strategy ai) "aggressive") eqn:Hagg.
  { apply String.eqb_eq in Hagg.
    match goal with |- context [match ?f with [] => _ | _ :: _ => _ end w] =>
      destruct f as [|d0 ds] eqn:Ef end.
    - destruct Hdefault as (t & Hc & Hin). exists t. unfold eff_bind, eff_ret. rewrite Hc.
      split_and!; [done..| |].
      + intros _ Hex. destruct (Hpref _ Hex). exact Ef.
      + intros Hdef. by rewrite Hagg in Hdef.
    - destruct (Hchoice (d0 :: ds) ltac:(done)) as (t & Hc & Hin).
      exists t. rewrite Hc. rewrite <- Ef in Hin.
      apply list_elem_of_filter in Hin as [Hl Hp].
      split_and!; [done..| |].
      + done.
      + intros Hdef. by rewrite Hagg in Hdef. }
  apply String.eqb_neq in Hagg.
  destruct (String.eqb (strategy ai) "defensive") eqn:Hdef.
  { match goal with |- context [match ?f with [] => _ | _ :: _ => _ end w] =>
      destruct f as [|d0 ds] eqn:Ef end.
    - destruct Hdefault as (t & Hc & Hin). exists t. unfold eff_bind, eff_ret. rewrite Hc.
      split_and!; [done..| |].
      + intros ?. done.
      + intros _ Hex. destruct (Hpref _ Hex). exact Ef.
    - destruct (Hchoice (d0 :: ds) ltac:(done)) as (t & Hc & Hin).
      exists t. rewrite Hc. rewrite <- Ef in Hin.
      apply list_elem_of_filter in Hin as [Hl Hp].
      split_and!; [done..| |].
      + intros ?. done.
      + done. }
  apply String.eqb_neq in Hdef.
  destruct Hdefault as (t & Hc & Hin). exists t. unfold eff_bind, eff_ret. rewrite Hc.
  split_and!; [done..| |]; intros ?; done.
Qed.

(** The piece a side gets after its turn: the attack piece when it is
    available, else what [_get_next_piece] hands out. *)
Lemma next_piece_spec fb attack w :
  wf_bank fb →
  ∃ t fb' w', Arena.next_piece fb attack w = Ok ((t, fb'), w') ∧
    t ∈ TETROMINO_TYPES ∧ wf_bank fb' ∧ clock_tape w' = clock_tape w ∧
    (∀ a, attack = Some a → is_available fb a = true →
          t = a ∧ get_piece fb a = (true, fb') ∧ w' = w).
Proof.
  intros Hwf. unfold Arena.next_piece.
  assert (Hnext : ∃ t fb' w', Arena._get_next_piece fb w = Ok ((t, fb'), w') ∧
            t ∈ TETROMINO_TYPES ∧ wf_bank fb' ∧ clock_tape w' = clock_tape w).
  { destruct (_get_next_piece_spec fb w Hwf) as (t & fb' & w' & H & ? & ? & ? & _).
    by exists t, fb', w'. }
  destruct attack as [a|].
  - destruct (is_available fb a) eqn:Hav.
    + pose proof (is_available_canonical fb a Hwf Hav) as Hin.
      apply elem_of_available in Hin as [Hcan _].
      rewrite (canonical_not_blank a Hcan). simpl. unfold eff_ret.
      eexists _, _, _. split; [done|].
      split_and!; [done|by apply wf_bank_get_piece|done|].
      intros ? [= <-] _. split_and!; [done| |done].
      unfold is_available in Hav. unfold get_piece.
      destruct (bank fb !! a) as [c|]; [|done]. by rewrite Hav.
    + rewrite andb_false_r.
      destruct Hnext as (t & fb' & w' & H & ? & ? & ?).
      exists t, fb', w'. split_and!; [done..|]. intros ? [= <-] ?. congruence.
  - destruct Hnext as (t & fb' & w' & H & ? & ? & ?).
    exists t, fb', w'. split_and!; [done..|]. intros ? [=].
Qed.
End Attack.

(** ** Column heights *)

Section Heights.
Import Py GameEngine Spec.
Implicit Types (g : matrix) (b : GameBoard).

Lemma cell_at_outside b (r c : nat) :
  wf_board b → height b ≤ Z.of_nat r → cell_at (grid b) r c = false.
Proof.
  intros [Hlen _] Hr. unfold cell_at.
  rewrite lookup_ge_None_2; [done|lia].
Qed.

(** The scan of one column from row [k] down. *)
Lemma column_height_scan b (x : Z) (n k : nat) :
  wf_board b → 0 ≤ x < width b → Z.of_nat (k + n) = height b →
  ∃ h, column_height b x (seqZ (Z.of_nat k) (Z.of_nat n)) = Ok h ∧
    ((h = 0 ∧ ∀ r : nat, (k ≤ r)%nat → cell_at (grid b) r (Z.to_nat x) = false) ∨
     (∃ r : nat, (k ≤ r)%nat ∧ Z.of_nat r < height b ∧ h = height b - Z.of_nat r ∧
        cell_at (grid b) r (Z.to_nat x) = true ∧
        ∀ r' : nat, (k ≤ r' < r)%nat → cell_at (grid b) r' (Z.to_nat x) = false)).
Proof.
  intros Hwf Hx. revert k. induction n as [|n IH]; intros k Hk.
  - exists 0. split; [done|]. left. split; [done|]. intros r Hr.
    apply cell_at_outside; [done|lia].
  - rewrite seqZ_cons by lia. simpl.
    destruct (rect_index _ _ _ (Z.of_nat k) x Hwf) as (row & Hrow & _ & Hc); [lia|lia|].
    rewrite Hrow. simpl. rewrite Hc. simpl. rewrite Nat2Z.id.
    destruct (cell_at (grid b) k (Z.to_nat x)) eqn:Hcell.
    + eexists. split; [done|]. right. exists k. split_and!; [lia|lia|done|done|lia].
    + replace (Z.succ (Z.of_nat k)) with (Z.of_nat (S k)) by lia.
      replace (Z.pred (Z.of_nat (S n))) with (Z.of_nat n) by lia.
      destruct (IH (S k)) as (h & Hh & Hspec); [lia|].
      exists h. split; [done|].
      destruct Hspec as [[-> Hall]|(r & Hr & Hrh & -> & Hcr & Hbefore)].
      * left. split; [done|]. intros r Hr.
        destruct (decide (r = k)) as [->|]; [done|]. apply Hall. lia.
      * right. exists r. split_and!; [lia|done|done|done|].
        intros r' Hr'. destruct (decide (r' = k)) as [->|]; [done|]. apply Hbefore. lia.
Qed.

Lemma column_height_spec b (x : nat) :
  wf_board b → 0 ≤ height b → Z.of_nat x < width b →
  ∃ h, column_height b (Z.of_nat x) (range (height b)) = Ok h ∧ height_of b x h.
Proof.
  intros Hwf Hh Hx.
  destruct (column_height_scan b (Z.of_nat x) (Z.to_nat (height b)) 0 Hwf)
    as (h & Hcol & Hspec); [lia|lia|].
  rewrite Z2Nat.id in Hcol by lia. rewrite Nat2Z.id in Hspec.
  exists h. split; [done|]. unfold height_of.
  destruct Hspec as [[-> Hall]|(r & _ & Hrh & -> & Hcr & Hbefore)].
  - left. split; [done|]. intros r. apply Hall. lia.
  - right. exists r. split_and!; [done..|]. intros r' Hr'. apply Hbefore. lia.
Qed.

Lemma height_of_bounds b x h :
  0 ≤ height b → height_of b x h → 0 ≤ h ≤ height b.
Proof. intros Hh [[-> _]|(r & Hr & -> & _)]; lia. Qed.

Lemma height_of_unique b x h1 h2 :
  height_of b x h1 → height_of b x h2 → h1 = h2.
Proof.
  intros [[-> H1]|(r1 & _ & -> & Hc1 & Hb1)] [[-> H2]|(r2 & _ & -> & Hc2 & Hb2)].
  - done.
  - by rewrite H1 in Hc2.
  - by rewrite H2 in Hc1.
  - destruct (decide (r1 < r2)%nat) as [Hlt|]; [by rewrite (Hb2 r1 Hlt) in Hc1|].
    destruct (decide (r2 < r1)%nat) as [Hlt|]; [by rewrite (Hb1 r2 Hlt) in Hc2|].
    f_equal. lia.
Qed.

(** [get_height_map] on a well-formed board: one height for each column. *)
Lemma get_height_map_spec b :
  wf_board b → 0 ≤ height b →
  ∃ heights, get_height_map b = Ok heights ∧
    length heights = Z.to_nat (width b) ∧
    ∀ x : nat, Z.of_nat x < width b →
      ∃ h, heights !! x = Some h ∧ height_of b x h.
Proof.
  intros Hwf Hh. unfold get_height_map.
  destruct (for_each_range_inv
    (λ i heights, Z.of_nat (length heights) = i ∧
       ∀ x : nat, Z.of_nat x < i → ∃ h, heights !! x = Some h ∧ height_of b x h)
    (width b)
    (λ heights x, h <- column_height b x (range (height b)) ;; Ok (heights ++ [h])) [])
    as (heights & Hm & Hlen & Hall).
  - split; [done|]. intros x Hx. lia.
  - intros i heights Hi [Hlen Hall].
    destruct (column_height_spec b (Z.to_nat i) Hwf Hh) as (h & Hcol & Hspec); [lia|].
    rewrite Z2Nat.id in Hcol by lia. rewrite Hcol. simpl.
    eexists. split; [done|]. split; [rewrite length_app; simpl; lia|].
    intros x Hx. destruct (decide (Z.of_nat x < i)) as [Hlt|Hge].
    + destruct (Hall x Hlt) as (h' & Hl & Hs). exists h'. split; [|done].
      by apply lookup_app_l_Some.
    + assert (x = length heights) as -> by lia. exists h. split.
      * by rewrite lookup_app_r, Nat.sub_diag by lia.
      * by replace (length heights) with (Z.to_nat i) by lia.
  - exists heights. split; [done|]. split; [lia|].
    intros x Hx. apply Hall. lia.
Qed.

Lemma foldl_max_spec (h : Z) (hs : list Z) :
  let m := foldl Z.max h hs in
  m ∈ h :: hs ∧ ∀ k, k ∈ h :: hs → k ≤ m.
Proof.
  revert h. induction hs as [|a hs IH]; intros h; simpl.
  - split; [by left|]. intros k Hk. apply list_elem_of_singleton in Hk. lia.
  - destruct (IH (h `max` a)) as [Hin Hmax]. split.
    + apply elem_of_cons in Hin as [Heq|Hin]; [|by right; right].
      rewrite Heq. destruct (Z.max_spec h a) as [[_ ->]|[_ ->]]; [right; by left|by left].
    + intros k Hk. apply elem_of_cons in Hk as [->|Hk].
      * etrans; [|apply Hmax; by left]. lia.
      * apply elem_of_cons in Hk as [->|Hk].
        -- etrans; [|apply Hmax; by left]. lia.
        -- apply Hmax. by right.
Qed.

(** [get_max_height] on a well-formed board with rows and columns: the
    height of some column, and no column is higher. *)
Lemma get_max_height_spec b :
  wf_board b → 0 < width b → 0 ≤ height b →
  ∃ m, get_max_height b = Ok m ∧
    (∃ x : nat, Z.of_nat x < width b ∧ height_of b x m) ∧
    (∀ (x : nat) h, Z.of_nat x < width b → height_of b x h → h ≤ m).
Proof.
  intros Hwf Hw Hh. unfold get_max_height.
  destruct (get_height_map_spec b Hwf Hh) as (heights & Hm & Hlen & Hall).
  rewrite Hm. simpl. destruct heights as [|h0 hs]; [simpl in Hlen; lia|].
  eexists. split; [done|].
  destruct (foldl_max_spec h0 hs) as [Hin Hmax]. split.
  - apply list_elem_of_lookup in Hin as [x Hx].
    assert (Z.of_nat x < width b) as Hxw.
    { apply lookup_lt_Some in Hx. lia. }
    exists x. split; [done|]. destruct (Hall x Hxw) as (h & Hl & Hs). congruence.
  - intros x h Hx Hs. destruct (Hall x Hx) as (h' & Hl & Hs').
    rewrite (height_of_unique b x h h' Hs Hs'). apply Hmax.
    by eapply list_elem_of_lookup_2.
Qed.
End Heights.

(** ** Rotation *)

Section Rotation.
Import Py GameEngine Spec.
Implicit Types (sh rows : matrix).

Local Open Scope nat_scope.

Lemma mapM_compose {A B C} (f : B → option C) (g : A → B) (l : list A) :
  mapM f (g <$> l) = mapM (f ∘ g) l.
Proof.
  induction l as [|x l IH]; [done|]. rewrite fmap_cons. simpl.
  destruct (f (g x)) as [c|]; simpl; [|done]. by rewrite IH.
Qed.

Lemma mapM_lookup_rows rows (j : nat) (n : nat) :
  Forall (λ r, length r = n) rows → j < n →
  ∃ col, mapM (λ r : list bool, r !! j) rows = Some col ∧
         length col = length rows ∧
         ∀ i : nat, col !! i = rows !! i ≫= (λ r, r !! j).
Proof.
  intros Hrows Hj. induction Hrows as [|r rows Hr _ (col & Hcol & Hlen & Hcell)].
  - exists []. split; [done|]. split; [done|]. by intros i.
  - destruct (lookup_lt_is_Some_2 r j) as [c Hc]; [lia|].
    exists (c :: col). simpl. rewrite Hc. simpl. rewrite Hcol. simpl.
    split; [done|]. split; [by rewrite Hlen|].
    intros [|i]; simpl; [done|apply Hcell].
Qed.

(** The columns of a rectangle of rows. *)
Lemma zip_star_lookup (n : nat) rows (j : nat) :
  rows ≠ [] → Forall (λ r, length r = n) rows → j < n →
  zip_star n rows !! j = mapM (λ r : list bool, r !! j) rows.
Proof.
  revert rows j. induction n as [|n IH]; intros rows j Hne Hrows Hj; [lia|].
  simpl. destruct rows as [|r0 rows0] eqn:Erows; [done|]. rewrite <- Erows in *.
  destruct (mapM_lookup_rows rows 0 (S n) Hrows) as (col & Hcol & _); [lia|].
  rewrite (mapM_ext _ (λ r : list bool, r !! 0)) by (intros r; apply head_lookup).
  rewrite Hcol. destruct j as [|j].
  - done.
  - simpl. rewrite IH.
    + rewrite mapM_compose. apply mapM_ext. intros r. simpl. by rewrite lookup_drop.
    + subst rows. done.
    + apply Forall_fmap. eapply Forall_impl; [exact Hrows|].
      intros r Hr. simpl in *. rewrite length_drop. lia.
    + lia.
Qed.

Lemma zip_star_length (n : nat) rows :
  rows ≠ [] → Forall (λ r, length r = n) rows → length (zip_star n rows) = n.
Proof.
  revert rows. induction n as [|n IH]; intros rows Hne Hrows; [done|].
  simpl. destruct rows as [|r0 rows0] eqn:Erows; [done|]. rewrite <- Erows in *.
  destruct (mapM_lookup_rows rows 0 (S n) Hrows) as (col & Hcol & _); [lia|].
  rewrite (mapM_ext _ (λ r : list bool, r !! 0)) by (intros r; apply head_lookup).
  rewrite Hcol. simpl. rewrite IH; [done| |].
  - subst rows. done.
  - apply Forall_fmap. eapply Forall_impl; [exact Hrows|].
    intros r Hr. simpl in *. rewrite length_drop. lia.
Qed.

Lemma turned_spec sh (h w : nat) :
  length sh = h → 0 < h → Forall (λ r, length r = w) sh →
  length (turned sh) = w ∧
  Forall (λ r, length r = h) (turned sh) ∧
  ∀ j i : nat, j < w → i < h → cell_opt (turned sh) j i = cell_opt sh (h - 1 - i) j.
Proof.
  intros Hh Hpos Hrows. unfold turned.
  assert (reverse sh ≠ []) as Hne.
  { intros E. apply (f_equal length) in E. rewrite length_reverse in E. simpl in E. lia. }
  assert (Forall (λ r, length r = w) (reverse sh)) as Hrev.
  { apply Forall_forall. intros r Hr. rewrite elem_of_reverse in Hr.
    rewrite Forall_forall in Hrows. exact (Hrows r Hr). }
  assert (length (default [] (head (reverse sh))) = w) as ->.
  { destruct (reverse sh) as [|r0 rest] eqn:E; [done|]. simpl.
    by apply Forall_cons in Hrev as [? _]. }
  split; [by apply zip_star_length|]. split.
  - apply Forall_forall. intros col Hcol.
    apply list_elem_of_lookup in Hcol as [j Hj].
    assert (j < w) as Hjw.
    { apply lookup_lt_Some in Hj. by rewrite zip_star_length in Hj. }
    rewrite zip_star_lookup in Hj by done.
    destruct (mapM_lookup_rows (reverse sh) j w Hrev Hjw) as (col' & Hcol' & Hlen & _).
    rewrite Hcol' in Hj. injection Hj as <-. by rewrite Hlen, length_reverse.
  - intros j i Hj Hi. unfold cell_opt. rewrite zip_star_lookup by done.
    destruct (mapM_lookup_rows (reverse sh) j w Hrev Hj) as (col & Hcol & _ & Hcell).
    rewrite Hcol. simpl. rewrite Hcell. rewrite reverse_lookup by lia.
    by replace (length sh - S i) with (h - 1 - i) by lia.
Qed.

Lemma matrix_ext sh1 sh2 (h w : nat) :
  length sh1 = h → length sh2 = h →
  Forall (λ r, length r = w) sh1 → Forall (λ r, length r = w) sh2 →
  (∀ i j : nat, i < h → j < w → cell_opt sh1 i j = cell_opt sh2 i j) →
  sh1 = sh2.
Proof.
  intros H1 H2 Hr1 Hr2 Hcells. apply list_eq. intros i.
  destruct (decide (i < h)) as [Hi|Hi].
  - destruct (lookup_lt_is_Some_2 sh1 i) as [r1 Hl1]; [lia|].
    destruct (lookup_lt_is_Some_2 sh2 i) as [r2 Hl2]; [lia|].
    rewrite Hl1, Hl2. f_equal. apply list_eq. intros j.
    rewrite Forall_lookup in Hr1, Hr2.
    pose proof (Hr1 i r1 Hl1) as Hw1. pose proof (Hr2 i r2 Hl2) as Hw2.
    destruct (decide (j < w)) as [Hj|Hj].
    + specialize (Hcells i j Hi Hj). unfold cell_opt in Hcells.
      by rewrite Hl1, Hl2 in Hcells.
    + rewrite !lookup_ge_None_2 by lia. done.
  - rewrite !lookup_ge_None_2 by lia. done.
Qed.

(** Four quarter turns of a rectangle with at least one cell. *)
Lemma turned_four_times sh (h w : nat) :
  length sh = h → 0 < h → 0 < w → Forall (λ r, length r = w) sh →
  turned (turned (turned (turned sh))) = sh.
Proof.
  intros Hh Hpos Hw Hrows.
  destruct (turned_spec sh h w Hh Hpos Hrows) as (L1 & R1 & C1).
  destruct (turned_spec (turned sh) w h L1 Hw R1) as (L2 & R2 & C2).
  destruct (turned_spec (turned (turned sh)) h w L2 Hpos R2) as (L3 & R3 & C3).
  destruct (turned_spec (turned (turned (turned sh))) w h L3 Hw R3) as (L4 & R4 & C4).
  apply (matrix_ext _ _ h w); [done..|].
  intros i j Hi Hj.
  rewrite C4 by lia. rewrite C3 by lia. rewrite C2 by lia. rewrite C1 by lia.
  f_equal; lia.
Qed.
End Rotation.

(** ** How the board operations compose *)

Section Compose.
Import Py GameEngine AiAgent Spec.
Implicit Types (g : matrix) (b : GameBoard) (p : Tetromino).

(** A piece that fits is put on empty cells only, and does not fit there a
    second time. *)
Lemma place_after_can_place b p x y :
  wf_board b → can_place b p x y = Ok true →
  ∃ b', place_piece b p x y = Ok b' ∧ wf_board b' ∧
    (∀ r c : nat, covers (shape p) x y r c →
       Z.of_nat r < height b ∧ Z.of_nat c < width b ∧
       cell_at (grid b) r c = false ∧ cell_at (grid b') r c = true) ∧
    (∀ r c : nat, ¬ covers (shape p) x y r c →
       cell_at (grid b') r c = cell_at (grid b) r c) ∧
    ((∃ i j : nat, cell_at (shape p) i j = true) → can_place b' p x y = Ok false).
Proof.
  intros Hwf Hcan.
  destruct (can_place_spec b p x y Hwf) as (ok & Hok & Hfits).
  rewrite Hcan in Hok. injection Hok as <-.
  assert (fits b (shape p) x y) as Hfit by (by apply Hfits).
  destruct (place_piece_spec b p x y Hwf) as (b' & Hp & Hwf' & Hw & Hh & _ & _ & _ & Hcells).
  exists b'. split; [done|]. split; [done|].
  assert (Hcov : ∀ r c : nat, covers (shape p) x y r c →
            Z.of_nat r < height b ∧ Z.of_nat c < width b ∧ cell_at (grid b) r c = false).
  { intros r c (i & j & Hij & Hr & Hc). destruct (Hfit i j Hij) as (Hx & Hy & He).
    split_and!; [lia..|]. by replace (Z.to_nat (y + Z.of_nat i)) with r in He by lia;
      replace (Z.to_nat (x + Z.of_nat j)) with c in He by lia. }
  split_and!.
  - intros r c Hrc. destruct (Hcov r c Hrc) as (? & ? & ?).
    split_and!; [done..|]. apply Hcells. by right.
  - intros r c Hn. destruct (cell_at (grid b') r c) eqn:E.
    + apply Hcells in E as [E|(_ & _ & E)]; [done|by destruct Hn].
    + destruct (cell_at (grid b) r c) eqn:E'; [|done].
      assert (cell_at (grid b') r c = true) by (apply Hcells; by left). congruence.
  - intros (i & j & Hij).
    destruct (can_place_spec b' p x y Hwf') as (ok' & Hok' & Hfits').
    rewrite Hok'. f_equal. destruct ok'; [|done].
    destruct (proj1 Hfits' eq_refl i j Hij) as (Hx & Hy & He).
    destruct (Hfit i j Hij) as (Hx0 & Hy0 & _).
    assert (cell_at (grid b') (Z.to_nat (y + Z.of_nat i)) (Z.to_nat (x + Z.of_nat j)) = true).
    { apply Hcells. right. split_and!; [lia..|]. exists i, j. split_and!; [done|lia..]. }
    congruence.
Qed.

Lemma all_garbage_row w hole : 0 ≤ hole < w → all (garbage_row w hole) = false.
Proof.
  intros Hh. apply not_true_is_false. intros Hall. unfold all in Hall.
  rewrite forallb_forall in Hall.
  assert (garbage_row w hole !! Z.to_nat hole = Some false) as Hl.
  { rewrite garbage_row_lookup by lia. f_equal. apply bool_decide_eq_false_2. lia. }
  apply list_elem_of_lookup_2, list_elem_of_In in Hl. by specialize (Hall _ Hl).
Qed.

(** Garbage rows are never full: on a board without a full row,
    [clear_lines] has nothing to clear after [add_garbage_lines]. *)
Lemma garbage_is_not_cleared b n world :
  wf_board b → 0 < width b → 0 < height b → 0 ≤ n →
  Forall (λ row, all row = false) (grid b) →
  ∃ b' world', add_garbage_lines b n world = Ok (b', world') ∧
    Forall (λ row, all row = false) (grid b') ∧
    clear_lines b' = Ok (0, b').
Proof.
  intros Hwf Hw Hh Hn Hnone.
  destruct (add_garbage_lines_spec b n world Hwf Hw Hh Hn)
    as (b' & world' & Ha & Hg & _ & _ & Hwf' & _ & _ & _ & _ & _ & _ & Hholes & _).
  exists b', world'. split; [done|].
  assert (Forall (λ row, all row = false) (grid b')) as Hnone'.
  { rewrite Hg. apply Forall_drop, Forall_app. split; [done|].
    apply Forall_fmap. eapply Forall_impl; [exact Hholes|].
    intros hole [Hr _]. by apply all_garbage_row. }
  split; [done|].
  destruct (clear_lines_spec b' Hwf') as (b'' & Hc & _ & _ & _ & _ & _ & Hz & _).
  rewrite (filter_full_nil _ Hnone') in Hc, Hz. simpl in Hc, Hz. by rewrite Hz in Hc.
Qed.

(** The top row holds a filled cell exactly when some column is as high as
    the board. *)
Lemma is_game_over_max_height b :
  wf_board b → 0 < width b → 0 < height b →
  ∃ m, get_max_height b = Ok m ∧ 0 ≤ m ≤ height b ∧
    (is_game_over b = Ok true ↔ m = height b) ∧
    (m = 0 ↔ ∀ r c : nat, cell_at (grid b) r c = false).
Proof.
  intros Hwf Hw Hh.
  destruct (get_max_height_spec b Hwf Hw) as (m & Hm & (x & Hx & Hxm) & Hmax); [lia|].
  exists m. split; [done|]. split; [eapply height_of_bounds; [lia|done]|]. split.
  - rewrite is_game_over_cell. split.
    + intros [c Hc].
      assert (Z.of_nat c < width b) as Hcw.
      { destruct (decide (Z.of_nat c < width b)); [done|].
        destruct Hwf as [_ Hrows]. unfold cell_at in Hc.
        destruct (grid b !! 0%nat) as [row|] eqn:Hrow; [|done].
        rewrite Forall_lookup in Hrows. specialize (Hrows _ _ Hrow).
        rewrite lookup_ge_None_2 in Hc by lia. done. }
      assert (height_of b c (height b)) as Hhc.
      { right. exists 0%nat. split_and!; [lia|lia|done|lia]. }
      pose proof (Hmax c _ Hcw Hhc). pose proof (height_of_bounds b x m ltac:(lia) Hxm). lia.
    + intros ->. destruct Hxm as [[Hz _]|(r & Hr & Hrm & Hc & _)]; [lia|].
      assert (r = 0%nat) as -> by lia. by exists x.
  - split.
    + intros -> r c. destruct (cell_at (grid b) r c) eqn:Hc; [|done].
      assert (Z.of_nat c < width b ∧ Z.of_nat r < height b) as [Hcw Hrh].
      { destruct Hwf as [Hlen Hrows]. unfold cell_at in Hc.
        destruct (grid b !! r) as [row|] eqn:Hrow; [|done].
        rewrite Forall_lookup in Hrows. specialize (Hrows _ _ Hrow).
        apply lookup_lt_Some in Hrow.
        destruct (row !! c) eqn:Hcc; [|done]. apply lookup_lt_Some in Hcc. lia. }
      destruct (column_height_spec b c Hwf ltac:(lia) Hcw) as (h & _ & Hhc).
      pose proof (Hmax c h Hcw Hhc).
      destruct Hhc as [[_ Hall]|(r0 & Hr0 & -> & _)]; [by rewrite Hall in Hc|lia].
    + intros Hempty. destruct Hxm as [[Hz _]|(r & _ & _ & Hc & _)]; [done|].
      by rewrite Hempty in Hc.
Qed.

(** What [decide_placement] returns is a placement that fits, unless it is
    the fallback of a search that met no candidate. *)
Lemma decide_placement_fits ai b p world sh :
  wf_board b → SHAPES !! type p = Some sh →
  ∃ x y rot ai' world',
    decide_placement ai b p world = Ok (((x, y, rot), ai'), world') ∧
    ((∃ pc, rotated (type p) rot = Ok pc ∧ 0 ≤ rot < 4 ∧
            0 ≤ x ≤ width b - get_width pc ∧ 0 ≤ y < height b ∧
            can_place b pc x y = Ok true ∧
            (y + 1 = height b ∨ can_place b pc x (y + 1) = Ok false)) ∨
     ((∀ pos' s', ¬ candidate ai b (type p) pos' s') ∧
      (x, y, rot) = (width b `div` 2, 0, 0))).
Proof.
  intros Hwf Hsh.
  destruct (decide_placement_spec ai b p world sh Hwf Hsh)
    as ([[x y] rot] & ai' & world' & Hd & _ & _ & _ & _ & _ & Hmax).
  exists x, y, rot, ai', world'. split; [done|].
  destruct Hmax as [(s & (Hr & pc & Hpc & Hx & Hdrop & _) & _)|Hfb]; [left|by right].
  simpl in *. exists pc.
  destruct (hard_drop_spec b pc x Hwf) as (r & Hr' & Hsome & _).
  rewrite Hdrop in Hr'. injection Hr' as <-.
  destruct (Hsome y) as [(Hy & Hall & Hnext) _]; [done|].
  split_and!; [done|lia..| |done]. apply Hall. lia.
Qed.
End Compose.

(** ** One turn *)

Section Turn.
Import Py GameEngine AiAgent Spec.
Implicit Types (g : matrix) (b : GameBoard) (p : Tetromino).

Lemma filter_nil_Forall {A} (P : A → Prop) `{∀ x, Decision (P x)} (l : list A) :
  Forall (λ x, ¬ P x) l → filter P l = [].
Proof. induction 1; [done|]. by rewrite filter_cons_False. Qed.

(** At most [n] entries of a list satisfy a predicate that holds at [n]
    consecutive indices only. *)
Lemma filter_interval {A} (P : A → Prop) `{∀ x, Decision (P x)} (l : list A) (a n : nat) :
  (∀ i x, l !! i = Some x → P x → (a ≤ i < a + n)%nat) →
  (length (filter P l) ≤ n)%nat.
Proof.
  intros Hint. rewrite <- (take_drop a l), filter_app.
  rewrite <- (take_drop n (drop a l)), filter_app.
  rewrite (filter_nil_Forall P (take a l)).
  2:{ apply Forall_forall. intros x Hx HP. apply list_elem_of_lookup in Hx as [i Hi].
      apply lookup_take_Some in Hi as [Hi Hlt]. specialize (Hint i x Hi HP). lia. }
  rewrite (filter_nil_Forall P (drop n (drop a l))).
  2:{ apply Forall_forall. intros x Hx HP. apply list_elem_of_lookup in Hx as [i Hi].
      rewrite !lookup_drop in Hi. specialize (Hint _ x Hi HP). lia. }
  rewrite app_nil_r. simpl.
  etrans; [apply length_filter|]. rewrite length_take. lia.
Qed.

Lemma all_true_cells (row : list bool) :
  all row = true ↔ ∀ c : nat, (c < length row)%nat → row !! c = Some true.
Proof.
  unfold all. rewrite forallb_forall. split.
  - intros Hall c Hc. destruct (lookup_lt_is_Some_2 row c Hc) as [v Hv].
    rewrite Hv. f_equal. apply (Hall v). by eapply list_elem_of_In, list_elem_of_lookup_2.
  - intros Hall v Hv. apply list_elem_of_In, list_elem_of_lookup in Hv as [c Hc].
    pose proof (lookup_lt_Some _ _ _ Hc) as Hlt. specialize (Hall c Hlt). unfold id. congruence.
Qed.

(** Placing a piece on a board without a full row fills at most as many
    rows as the piece has. *)
Lemma full_rows_after_place b p x y b' :
  wf_board b → no_full_row b → place_piece b p x y = Ok b' →
  (length (filter (λ row, all row = true) (grid b')) ≤ length (shape p))%nat.
Proof.
  intros Hwf Hnone Hp.
  destruct (place_piece_spec b p x y Hwf) as (b1 & Hp1 & Hwf' & Hw & Hh & _ & _ & _ & Hcells).
  rewrite Hp in Hp1. injection Hp1 as <-.
  apply (filter_interval _ _ (Z.to_nat y)).
  intros r row' Hrow' Hfull.
  destruct (decide (Z.to_nat y ≤ r < Z.to_nat y + length (shape p))%nat) as [|Hout]; [done|].
  exfalso.
  (* the row was there before, and was as full *)
  pose proof Hwf as [Hlen Hrows]. pose proof Hwf' as [Hlen' Hrows'].
  apply lookup_lt_Some in Hrow' as Hr. rewrite Hlen', Hh, <- Hlen in Hr.
  destruct (lookup_lt_is_Some_2 (grid b) r Hr) as [row Hrow].
  rewrite Forall_lookup in Hrows, Hrows'.
  pose proof (Hrows _ _ Hrow) as Hwrow. pose proof (Hrows' _ _ Hrow') as Hwrow'.
  unfold no_full_row in Hnone. rewrite Forall_lookup in Hnone.
  specialize (Hnone _ _ Hrow). apply not_true_iff_false in Hnone. apply Hnone.
  apply all_true_cells. intros c Hc.
  rewrite all_true_cells in Hfull.
  assert (cell_at (grid b') r c = true) as Hcell.
  { unfold cell_at. rewrite Hrow'. rewrite Hfull by lia. done. }
  apply Hcells in Hcell as [Hcell|(_ & _ & i & j & Hij & Hri & _)].
  - unfold cell_at in Hcell. rewrite Hrow in Hcell.
    destruct (row !! c) as [[]|]; done.
  - assert (i < length (shape p))%nat.
    { unfold cell_at in Hij. destruct (shape p !! i) eqn:E; [|done].
      by apply lookup_lt_Some in E. }
    lia.
Qed.

(** The canonical pieces have at most four rows, however they are turned. *)
Lemma canonical_rows t rot pc :
  t ∈ Bank.TETROMINO_TYPES → 0 ≤ rot < 4 → rotated t rot = Ok pc →
  (length (shape pc) ≤ 4)%nat ∧ type pc = t.
Proof.
  unfold Bank.TETROMINO_TYPES. rewrite !elem_of_cons, elem_of_nil.
  intros Ht Hrot.
  assert (rot = 0 ∨ rot = 1 ∨ rot = 2 ∨ rot = 3) as Hcases by lia.
  repeat (destruct Ht as [->|Ht]; [
    repeat (destruct Hcases as [->|Hcases]; [vm_compute; intros [= <-]; split; [lia|done]|]);
    subst rot; vm_compute; intros [= <-]; split; [lia|done] |]).
  done.
Qed.

Lemma playable_set_game_over b : playable b → playable (Arena.set_game_over b).
Proof. done. Qed.

(** One turn of a side on a playable board, with a well-formed bank and a
    canonical piece. *)
Lemma play_turn_spec fb ai b t w :
  playable b → wf_bank fb → t ∈ Bank.TETROMINO_TYPES →
  ∃ r w', Arena.play_turn fb ai b t w = Ok (r, w') ∧
    playable (Arena.tr_board r) ∧
    width (Arena.tr_board r) = width b ∧ height (Arena.tr_board r) = height b ∧
    name (Arena.tr_ai r) = name ai ∧ strategy (Arena.tr_ai r) = strategy ai ∧
    0 ≤ Arena.tr_lines_cleared r ≤ 4 ∧
    lines_cleared (Arena.tr_board r) = lines_cleared b + Arena.tr_lines_cleared r ∧
    score (Arena.tr_board r) =
      score b + default 0 ([0; 100; 300; 500; 800] !! Z.to_nat (Arena.tr_lines_cleared r)) ∧
    (Arena.tr_attack_piece r = None ∨
     (0 < Arena.tr_lines_cleared r ∧
      ∃ a, Arena.tr_attack_piece r = Some a ∧ a ∈ available fb)) ∧
    (game_over (Arena.tr_board r) = game_over b ∨
     (Arena.tr_board r = Arena.set_game_over b ∧ Arena.tr_lines_cleared r = 0 ∧
      Arena.tr_attack_piece r = None)).
Proof.
  intros (Hwf & Hw & Hh & Hnone) Hbank Ht.
  destruct (canonical_shape t Ht) as [sh Hsh].
  unfold Arena.play_turn, eff_bind at 1, lift. unfold new_Tetromino at 1. rewrite Hsh.
  set (piece := {| type := t; shape := sh; rotation := 0 |}).
  assert (new_Tetromino t = Ok piece) as Hnew by (unfold new_Tetromino; by rewrite Hsh).
  destruct (decide_placement_fits ai b piece w sh Hwf Hsh)
    as (x & y & rot & ai' & w1 & Hd & Hcase).
  destruct (decide_placement_spec ai b piece w sh Hwf Hsh)
    as (pos0 & ai0 & w0 & Hd0 & Hname & Hstrat & _).
  rewrite Hd in Hd0. injection Hd0 as <- <- <-.
  unfold eff_bind at 1. rewrite Hd.
  (* the piece as [play_turn] turns it *)
  assert (∃ pc, rotated t rot = Ok pc ∧ 0 ≤ rot < 4 ∧
            for_each (range rot) (λ p _, Ok (rotate p)) piece = Ok pc) as (pc & Hpc & Hrot & Hturn).
  { destruct Hcase as [(pc & Hpc & Hrot & _)|[_ [= -> -> ->]]].
    - exists pc. split_and!; [done|lia|lia|]. unfold rotated in Hpc. simpl in Hpc.
      by rewrite Hnew in Hpc.
    - exists piece. split_and!; [|lia|lia|done]. unfold rotated. by rewrite Hnew. }
  unfold eff_bind at 1. rewrite Hturn.
  destruct (can_place_spec b pc x y Hwf) as (ok & Hok & _).
  unfold eff_bind at 1. rewrite Hok.
  destruct ok.
  - (* the piece is placed and the lines are cleared *)
    destruct (place_piece_spec b pc x y Hwf)
      as (b1 & Hp & Hwf1 & Hw1 & Hh1 & Hs1 & Hl1 & Hg1 & _).
    unfold eff_bind at 1. rewrite Hp.
    destruct (clear_lines_spec b1 Hwf1)
      as (b2 & Hc & _ & Hw2 & Hh2 & Hg2 & Hl2 & H0 & H1 & H2 & H3 & H4 & _).
    destruct (clear_lines_twice b1 Hwf1) as (n' & b2' & Hc' & Hwf2 & Hnone2 & _); [lia|].
    rewrite Hc in Hc'. injection Hc' as <- <-.
    pose proof (full_rows_after_place b pc x y b1 Hwf Hnone Hp) as Hfull.
    destruct (canonical_rows t rot pc Ht Hrot Hpc) as [Hrows _].
    set (n := Z.of_nat (length (filter (λ row, all row = true) (grid b1)))) in *.
    assert (0 ≤ n ≤ 4) as Hn by lia.
    unfold eff_bind at 1. rewrite Hc.
    assert (Hscore : score b2 = score b1 + default 0 ([0; 100; 300; 500; 800] !! Z.to_nat n)).
    { assert (n = 0 ∨ n = 1 ∨ n = 2 ∨ n = 3 ∨ n = 4) as Hcases by lia.
      destruct Hcases as [E|[E|[E|[E|E]]]]; rewrite E; simpl.
      - rewrite (H0 E). lia.
      - by apply H1.
      - by apply H2.
      - by apply H3.
      - by apply H4. }
    assert (playable b2) as Hplay2.
    { split_and!; [done|lia|lia|done]. }
    destruct (n >? 0) eqn:Hpos.
    + destruct (choose_attack_piece_spec ai' fb w1 Hbank) as [[_ Ha]|(a & Ha & Hin & _)];
        unfold eff_bind, eff_ret; rewrite Ha.
      * eexists _, _. split; [done|]. simpl.
        split_and!; [done|lia|lia|done|done|lia|lia|lia|lia|by left|left; congruence].
      * eexists _, _. split; [done|]. simpl.
        split_and!; [done|lia|lia|done|done|lia|lia|lia|lia| |left; congruence].
        right. split; [lia|]. by exists a.
    + unfold eff_bind, eff_ret.
      eexists _, _. split; [done|]. simpl.
      split_and!; [done|lia|lia|done|done|lia|lia|lia|lia|by left|left; congruence].
  - unfold eff_ret. eexists _, _. split; [done|]. simpl.
    split_and!; [done|done|done|done|done|lia|lia|lia|lia|by left|by right].
Qed.
End Turn.

(** ** A whole match *)

Section Match.
Import Py GameEngine AiAgent Spec.
Implicit Types (b : GameBoard) (a : Arena.Arena) (w : World).

Lemma playable_new_GameBoard : playable (new_GameBoard 10 20).
Proof.
  split_and!; [apply wf_new_GameBoard|done|done|].
  unfold no_full_row. simpl. by repeat constructor.
Qed.

Lemma add_garbage_playable b n w :
  playable b → 0 ≤ n →
  ∃ b' w', add_garbage_lines b n w = Ok (b', w') ∧ playable b' ∧
    score b' = score b ∧ lines_cleared b' = lines_cleared b ∧
    game_over b' = game_over b.
Proof.
  intros (Hwf & Hw & Hh & Hnone) Hn.
  destruct (garbage_is_not_cleared b n w Hwf Hw Hh Hn Hnone) as (b' & w' & Ha & Hnone' & _).
  destruct (add_garbage_lines_spec b n w Hwf Hw Hh Hn)
    as (b1 & w1 & Ha1 & _ & _ & _ & Hwf' & Hw' & Hh' & Hs & Hl & Hg & _).
  rewrite Ha in Ha1. injection Ha1 as <- <-.
  exists b', w'. split; [done|].
  split_and!; [by split_and!; [|lia|lia|]|done..].
Qed.

Lemma is_game_over_total b : playable b → ∃ over, is_game_over b = Ok over.
Proof.
  intros ([Hlen _] & _ & Hh & _). unfold is_game_over.
  destruct (grid b) as [|top rest]; [simpl in Hlen; lia|]. by eexists.
Qed.

(** The bank after the next piece is settled: one piece less, or the same
    bank when nothing was drawn from it. *)
Lemma next_piece_total fb attack w t fb' w' :
  wf_bank fb → Arena.next_piece fb attack w = Ok ((t, fb'), w') →
  Bank.get_total_remaining fb' = Bank.get_total_remaining fb - 1 ∨ fb' = fb.
Proof.
  intros Hwf. unfold Arena.next_piece.
  assert (Hnext : Arena._get_next_piece fb w = Ok ((t, fb'), w') →
            Bank.get_total_remaining fb' = Bank.get_total_remaining fb - 1 ∨ fb' = fb).
  { destruct (_get_next_piece_spec fb w Hwf) as (t1 & fb1 & w1 & H & _ & _ & _ & Hcase).
    rewrite H. intros [= <- <- <-]. destruct Hcase as [[_ Hg]|[_ ->]]; [left|by right].
    pose proof (get_piece_total fb t1) as Htot. rewrite Hg in Htot. simpl in Htot. lia. }
  destruct attack as [a|]; [|done].
  destruct (negb (String.eqb a "") && Bank.is_available fb a) eqn:Hc; [|done].
  unfold eff_ret. intros [= <- <- <-]. left.
  apply andb_true_iff in Hc as [_ Hav].
  pose proof (get_piece_total fb a) as Htot.
  unfold Bank.is_available in Hav. unfold Bank.get_piece in *.
  destruct (Bank.bank fb !! a) as [c|]; [|done]. rewrite Hav in *. simpl in *. lia.
Qed.

(** The garbage step before a side's turn. *)
Lemma drain_garbage b q w :
  playable b → 0 ≤ q →
  ∃ b' w',
    (if q >? 0
     then (Py.eff_bind (add_garbage_lines b q) (λ b0, eff_ret (b0, 0)))
     else eff_ret (b, q)) w = Ok ((b', 0), w') ∧
    playable b' ∧ score b' = score b ∧ lines_cleared b' = lines_cleared b ∧
    game_over b' = game_over b.
Proof.
  intros Hplay Hq. destruct (q >? 0) eqn:Hpos.
  - destruct (add_garbage_playable b q w Hplay Hq) as (b' & w' & Ha & Hp & Hs & Hl & Hg).
    exists b', w'. unfold eff_bind, eff_ret. rewrite Ha. done.
  - exists b, w. unfold eff_ret. assert (q = 0) as -> by lia. done.
Qed.

Lemma table_nonneg n : 0 ≤ default 0 ([0; 100; 300; 500; 800] !! Z.to_nat n).
Proof.
  destruct (Z.to_nat n) as [|[|[|[|[|k]]]]]; simpl; lia.
Qed.

(** One round of the loop from a well-formed arena. *)
Lemma run_round_spec a w :
  wf_arena a →
  ∃ r a' w', Arena.run_round a w = Ok ((r, a'), w') ∧
    wf_arena a' ∧
    Arena.turn a' = Arena.turn a + 1 ∧
    name (Arena.ai1 a') = name (Arena.ai1 a) ∧
    name (Arena.ai2 a') = name (Arena.ai2 a) ∧
    strategy (Arena.ai1 a') = strategy (Arena.ai1 a) ∧
    strategy (Arena.ai2 a') = strategy (Arena.ai2 a) ∧
    score (Arena.board1 a) ≤ score (Arena.board1 a') ∧
    score (Arena.board2 a) ≤ score (Arena.board2 a') ∧
    Bank.get_total_remaining (Arena.bank a') ≤ Bank.get_total_remaining (Arena.bank a) ∧
    match r with
    | None =>
      is_game_over (Arena.board1 a') = Ok false ∧
      is_game_over (Arena.board2 a') = Ok false ∧
      Arena.garbage_queue_ai2 a' = 0
    | Some winner =>
      (∃ ts, last (Arena.events (Arena.log a')) =
               Some (Arena.GameOverEvent winner
                       (score (Arena.board1 a'), score (Arena.board2 a'))
                       (lines_cleared (Arena.board1 a'), lines_cleared (Arena.board2 a'))
                       ts)) ∧
      ((winner = name (Arena.ai2 a) ∧ is_game_over (Arena.board1 a') = Ok true) ∨
       (winner = name (Arena.ai1 a) ∧ is_game_over (Arena.board1 a') = Ok false ∧
        is_game_over (Arena.board2 a') = Ok true))
    end.
Proof.
  intros (Hb1 & Hb2 & Hbank & (t1 & Ht1 & Hc1) & (t2 & Ht2 & Hc2) & Hq1 & Hq2).
  unfold Arena.run_round. cbv zeta.
  (* garbage for side 1, then its turn *)
  destruct (drain_garbage (Arena.board1 a) (Arena.garbage_queue_ai1 a) w Hb1 Hq1)
    as (b1 & w1 & Hdrain1 & Hp1 & Hs1 & _).
  unfold eff_bind at 1. rewrite Hdrain1. cbv beta iota.
  rewrite Ht1. unfold Arena.current_piece, eff_bind at 1, eff_ret at 1. cbv beta iota.
  destruct (play_turn_spec (Arena.bank a) (Arena.ai1 a) b1 t1 w1 Hp1 Hbank Hc1)
    as (r1 & w2 & Hplay1 & Hpb1 & _ & _ & Hn1 & Hst1 & Hl1 & _ & Hsc1 & _).
  unfold eff_bind at 1. rewrite Hplay1. cbv beta iota.
  unfold Arena.log_turn at 1, eff_bind at 1, eff_bind at 1, time at 1, eff_ret at 1.
  cbv beta iota.
  unfold eff_bind at 1.
  match goal with |- context [Arena.next_piece (Arena.bank a) ?att ?w0] =>
    destruct (next_piece_spec (Arena.bank a) att w0 Hbank)
      as (n1 & fb1 & w3 & Hnext1 & Hcn1 & Hbank1 & _);
    pose proof (next_piece_total _ _ _ _ _ _ Hbank Hnext1) as Htot1 end.
  rewrite Hnext1. cbv beta iota.
  destruct (is_game_over_total _ Hpb1) as [over1 Hover1].
  unfold eff_bind at 1, lift at 1. rewrite Hover1. cbv beta iota.
  pose proof (table_nonneg (Arena.tr_lines_cleared r1)) as Htab1.
  assert (0 ≤ (if Arena.tr_lines_cleared r1 >? 0
               then Arena.garbage_queue_ai2 a + Arena.tr_lines_cleared r1
               else Arena.garbage_queue_ai2 a)) as Hq2'.
  { destruct (Arena.tr_lines_cleared r1 >? 0); lia. }
  destruct over1.
  { (* side 1 has lost *)
    unfold Arena.log_game_over, eff_bind, time, eff_ret. cbv beta iota.
    eexists _, _, _. split; [done|]. simpl.
    split_and!; [|done|done|done|done|done|lia|lia| |eexists; by rewrite last_snoc|by left].
    - split_and!; simpl; [done|done|done|by eexists|by eexists|lia|done].
    - destruct Htot1 as [->| ->]; lia. }
  (* garbage for side 2, then its turn *)
  unfold eff_bind at 1.
  match goal with |- context [add_garbage_lines (Arena.board2 a) ?q] =>
    destruct (drain_garbage (Arena.board2 a) q w3 Hb2 Hq2')
      as (b2 & w4 & Hdrain2 & Hp2 & Hs2 & _) end.
  rewrite Hdrain2. cbv beta iota.
  rewrite Ht2. unfold Arena.current_piece, eff_bind at 1, eff_ret at 1. cbv beta iota.
  destruct (play_turn_spec fb1 (Arena.ai2 a) b2 t2 w4 Hp2 Hbank1 Hc2)
    as (r2 & w5 & Hplay2 & Hpb2 & _ & _ & Hn2 & Hst2 & Hl2 & _ & Hsc2 & _).
  unfold eff_bind at 1. rewrite Hplay2. cbv beta iota.
  unfold Arena.log_turn at 1, eff_bind at 1, eff_bind at 1, time at 1, eff_ret at 1.
  cbv beta iota.
  unfold eff_bind at 1.
  match goal with |- context [Arena.next_piece fb1 ?att ?w0] =>
    destruct (next_piece_spec fb1 att w0 Hbank1)
      as (n2 & fb2 & w6 & Hnext2 & Hcn2 & Hbank2 & _);
    pose proof (next_piece_total _ _ _ _ _ _ Hbank1 Hnext2) as Htot2 end.
  rewrite Hnext2. cbv beta iota.
  destruct (is_game_over_total _ Hpb2) as [over2 Hover2].
  unfold eff_bind at 1, lift at 1. rewrite Hover2. cbv beta iota.
  pose proof (table_nonneg (Arena.tr_lines_cleared r2)) as Htab2.
  assert (Bank.get_total_remaining fb2 ≤ Bank.get_total_remaining (Arena.bank a)) as Htot.
  { destruct Htot1 as [E1| ->], Htot2 as [E2| ->]; lia. }
  destruct over2.
  - unfold Arena.log_game_over, eff_bind, time, eff_ret. cbv beta iota.
    eexists _, _, _. split; [done|]. simpl.
    split_and!; [|done|done|done|done|done|lia|lia|done|
                 eexists; rewrite last_snoc; by rewrite Hn1|by right].
    split_and!; simpl; [done|done|done|by eexists|by eexists| |done].
    destruct (Arena.tr_lines_cleared r2 >? 0); lia.
  - unfold eff_ret. eexists _, _, _. split; [done|]. simpl.
    split_and!; [|done|done|done|done|done|lia|lia|done|done|done|done].
    split_and!; simpl; [done|done|done|by eexists|by eexists| |done].
    destruct (Arena.tr_lines_cleared r2 >? 0); lia.
Qed.

Lemma finish_by_score_spec a w :
  ∃ ts,
    Arena.finish_by_score a w =
    Ok ((if score (Arena.board1 a) >? score (Arena.board2 a)
         then name (Arena.ai1 a) else name (Arena.ai2 a),
         {| Arena.ai1 := Arena.ai1 a; Arena.ai2 := Arena.ai2 a;
            Arena.board1 := Arena.board1 a; Arena.board2 := Arena.board2 a;
            Arena.bank := Arena.bank a;
            Arena.log :=
              {| Arena.events := Arena.events (Arena.log a) ++
                   [Arena.GameOverEvent
                      (if score (Arena.board1 a) >? score (Arena.board2 a)
                       then name (Arena.ai1 a) else name (Arena.ai2 a))
                      (score (Arena.board1 a), score (Arena.board2 a))
                      (lines_cleared (Arena.board1 a), lines_cleared (Arena.board2 a))
                      ts];
                 Arena.start_time := Arena.start_time (Arena.log a) |};
            Arena.turn := Arena.turn a;
            Arena.current_piece_ai1 := Arena.current_piece_ai1 a;
            Arena.current_piece_ai2 := Arena.current_piece_ai2 a;
            Arena.garbage_queue_ai1 := Arena.garbage_queue_ai1 a;
            Arena.garbage_queue_ai2 := Arena.garbage_queue_ai2 a |}),
        {| rand_tape := rand_tape w; clock_tape := tl (clock_tape w) |}).
Proof. by eexists. Qed.

Lemma run_loop_spec fuel max_turns a w :
  wf_arena a → (Z.to_nat (max_turns - Arena.turn a) ≤ fuel)%nat →
  ∃ winner a' w', Arena.run_loop fuel max_turns a w = Ok ((winner, a'), w') ∧
    match_result max_turns a winner a'.
Proof.
  revert a w. induction fuel as [|fuel IH]; intros a w Hwf Hfuel.
  - simpl. destruct (finish_by_score_spec a w) as [ts Hfin]. rewrite Hfin.
    eexists _, _, _. split; [done|]. unfold match_result. simpl.
    split_and!; [done|lia|lia|done|done|done|done|lia|lia|lia| |].
    + eexists. by rewrite last_snoc.
    + right. right. split; [lia|done].
  - simpl. destruct (Arena.turn a <? max_turns) eqn:Hlt.
    + destruct (run_round_spec a w Hwf)
        as (r & a1 & w1 & Hround & Hwf1 & Hturn & Hn1 & Hn2 & Hs1 & Hs2 & Hsc1 & Hsc2 & Htot & Hr).
      unfold eff_bind. rewrite Hround. destruct r as [winner|].
      * unfold eff_ret. exists winner, a1, w1. split; [done|].
        destruct Hr as [Hlast Hwho]. unfold match_result.
        split_and!; [done|lia|lia|done|done|done|done|done|done|done|done|].
        destruct Hwho as [?|?]; [by left|by right; left].
      * destruct (IH a1 w1 Hwf1) as (winner & a' & w' & Hloop & Hres); [lia|].
        exists winner, a', w'. split; [done|]. unfold match_result in *.
        destruct Hres as (? & ? & E1 & E2 & E3 & E4 & ? & ? & ? & ? & Hwho).
        rewrite <- Hn1, <- Hn2. rewrite <- Hs1, <- Hs2.
        split_and!; [done|lia|lia|done|done|done|done|lia|lia|lia|done|].
        destruct Hwho as [?|[?|?]]; [by left|by right; left|by right; right].
    + destruct (finish_by_score_spec a w) as [ts Hfin]. rewrite Hfin.
      eexists _, _, _. split; [done|]. unfold match_result. simpl.
      split_and!; [done|lia|lia|done|done|done|done|lia|lia|lia| |].
      * eexists. by rewrite last_snoc.
      * right. right. split; [lia|done].
Qed.

(** [run_match] on an arena with playable boards and a well-formed bank:
    it returns, whatever the random module and the clock read. *)
Lemma run_match_spec a max_turns w :
  playable (Arena.board1 a) → playable (Arena.board2 a) → wf_bank (Arena.bank a) →
  0 ≤ Arena.garbage_queue_ai1 a → 0 ≤ Arena.garbage_queue_ai2 a →
  ∃ winner a' w', Arena.run_match a max_turns w = Ok ((winner, a'), w') ∧
    ∃ a0, match_result max_turns a0 winner a' ∧
      Arena.turn a0 = Arena.turn a ∧
      Arena.ai1 a0 = Arena.ai1 a ∧ Arena.ai2 a0 = Arena.ai2 a ∧
      Arena.board1 a0 = Arena.board1 a ∧ Arena.board2 a0 = Arena.board2 a ∧
      Bank.get_total_remaining (Arena.bank a0) ≤ Bank.get_total_remaining (Arena.bank a).
Proof.
  intros Hb1 Hb2 Hbank Hq1 Hq2. unfold Arena.run_match.
  destruct (_get_next_piece_spec (Arena.bank a) w Hbank)
    as (t1 & fb1 & w1 & Hn1 & Hc1 & Hbank1 & _ & Hcase1).
  unfold eff_bind at 1. rewrite Hn1. cbv beta iota.
  destruct (_get_next_piece_spec fb1 w1 Hbank1)
    as (t2 & fb2 & w2 & Hn2 & Hc2 & Hbank2 & _ & Hcase2).
  unfold eff_bind at 1. simpl. rewrite Hn2. cbv beta iota. simpl.
  match goal with |- context [Arena.run_loop _ _ ?a0 _] => set (start := a0) end.
  assert (wf_arena start) as Hwf.
  { unfold wf_arena, start. simpl. split_and!; [done|done|done|by eexists|by eexists|done|done]. }
  destruct (run_loop_spec (Z.to_nat (max_turns - Arena.turn a)) max_turns start w2 Hwf)
    as (winner & a' & w' & Hloop & Hres); [done|].
  exists winner, a', w'. split; [done|]. exists start. split; [done|].
  split_and!; [done..|]. simpl.
  assert (Htot : ∀ fb t fb', wf_bank fb →
            (t ∈ available fb ∧ Bank.get_piece fb t = (true, fb')) ∨ (available fb = [] ∧ fb' = fb) →
            Bank.get_total_remaining fb' ≤ Bank.get_total_remaining fb).
  { intros fb t fb' _ [[_ Hg]|[_ ->]]; [|lia].
    pose proof (get_piece_total fb t) as Hp. rewrite Hg in Hp. simpl in Hp. lia. }
  pose proof (Htot _ _ _ Hbank Hcase1). pose proof (Htot _ _ _ Hbank1 Hcase2). lia.
Qed.

Lemma new_Arena_spec ai1 ai2 fb w :
  ∃ a w', Arena.new_Arena ai1 ai2 fb w = Ok (a, w') ∧
    Arena.ai1 a = ai1 ∧ Arena.ai2 a = ai2 ∧ Arena.bank a = fb ∧
    Arena.board1 a = new_GameBoard 10 20 ∧ Arena.board2 a = new_GameBoard 10 20 ∧
    Arena.turn a = 0 ∧ Arena.events (Arena.log a) = [] ∧
    Arena.garbage_queue_ai1 a = 0 ∧ Arena.garbage_queue_ai2 a = 0.
Proof. by eexists _, _. Qed.
End Match.

(** ** The penalties of [_evaluate_position] *)

Section Penalties.
Import Py GameEngine AiAgent Spec.
Implicit Types (b : GameBoard) (p : Tetromino).

Lemma column_height_nonneg b x ys h :
  Forall (λ y, y < height b) ys → column_height b x ys = Ok h → 0 ≤ h.
Proof.
  induction 1 as [|y ys Hy _ IH]; simpl; [intros [= <-]; lia|].
  destruct (index (grid b) y) as [row|]; simpl; [|done].
  destruct (index row x) as [[]|]; simpl; [|done|done].
  intros [= <-]. lia.
Qed.

Lemma get_height_map_nonneg b :
  wf_board b →
  ∃ heights, get_height_map b = Ok heights ∧ Forall (λ h, 0 ≤ h) heights.
Proof.
  intros Hwf. unfold get_height_map.
  apply (for_each_inv (λ heights, Forall (λ h, 0 ≤ h) heights)); [done|].
  intros hs x Hx Hhs. apply elem_of_seqZ in Hx.
  destruct (column_height_total b x (range (height b)) Hwf) as [h Hh];
    [lia|apply range_bounds|].
  rewrite Hh. simpl. eexists. split; [done|].
  apply Forall_app. split; [done|]. apply Forall_singleton.
  eapply column_height_nonneg; [|done].
  eapply Forall_impl; [apply range_bounds|]. simpl. lia.
Qed.

Lemma get_max_height_nonneg b :
  wf_board b → ∃ m, get_max_height b = Ok m ∧ 0 ≤ m.
Proof.
  intros Hwf. unfold get_max_height.
  destruct (get_height_map_nonneg b Hwf) as (hs & Hhs & Hpos). rewrite Hhs. simpl.
  eexists. split; [done|]. destruct hs as [|h hs]; [done|].
  destruct (foldl_max_spec h hs) as [Hin _].
  by apply (proj1 (Forall_forall _ _) Hpos).
Qed.

Lemma bumpiness_of_nonneg heights :
  ∃ bump, bumpiness_of heights = Ok bump ∧ 0 ≤ bump.
Proof.
  unfold bumpiness_of. apply (for_each_inv (λ acc, 0 ≤ acc)); [done|].
  intros acc i Hi Hacc. apply elem_of_seqZ in Hi.
  destruct (index_lt heights i) as (a & Ha & _); [lia|].
  destruct (index_lt heights (i + 1)) as (c & Hc & _); [lia|].
  rewrite Ha. simpl. rewrite Hc. simpl. eexists. split; [done|]. lia.
Qed.

Lemma count_holes_column_grows board b col_x holes :
  wf_board b → 0 ≤ col_x < width b → height board = height b →
  ∃ holes', count_holes_column board b col_x holes = Ok holes' ∧ holes ≤ holes'.
Proof.
  intros Hwf Hx Hh. unfold count_holes_column. rewrite Hh.
  match goal with |- context [for_each ?l ?body ?s] =>
    destruct (for_each_inv (λ st : bool * Z, holes ≤ st.2) l body s)
      as (st & Hst & Hle) end;
    [done| |rewrite Hst; by eexists].
  intros [found n] y Hy Hn. apply elem_of_seqZ in Hy. simpl in Hn.
  destruct (rect_index _ _ _ y col_x Hwf) as (row & Hrow & _ & Hc); [lia..|].
  rewrite Hrow. simpl. rewrite Hc. simpl.
  destruct (cell_at _ _ _); [by eexists|].
  destruct found; eexists; (split; [done|]); simpl; lia.
Qed.

Lemma count_lines_scan (pre g : matrix) (count : Z) :
  for_each (seqZ (Z.of_nat (length pre)) (Z.of_nat (length g)))
    (λ count y,
       row <- index (pre ++ g) y ;;
       Ok (if all row then count + 1 else count))
    count =
  Ok (count + Z.of_nat (length (filter (λ row, all row = true) g))).
Proof.
  revert pre count. induction g as [|row g IH]; intros pre count.
  { simpl. f_equal. lia. }
  rewrite seqZ_cons by (simpl; lia). simpl for_each.
  rewrite (index_in_range _ _ row); [|lia|].
  2:{ rewrite Nat2Z.id. by rewrite lookup_app_r, Nat.sub_diag by done. }
  simpl. specialize (IH (pre ++ [row])).
  rewrite <- app_assoc in IH. simpl in IH. rewrite length_app in IH. simpl in IH.
  replace (Z.succ (Z.of_nat (length pre))) with (Z.of_nat (length pre + 1)) by lia.
  replace (Z.pred (Z.of_nat (S (length g)))) with (Z.of_nat (length g)) by lia.
  rewrite IH. destruct (all row) eqn:E.
  - rewrite filter_cons_True by done. simpl length. f_equal. lia.
  - rewrite filter_cons_False by congruence. done.
Qed.

(** [_count_potential_lines] counts the full rows. *)
Lemma _count_potential_lines_spec b :
  wf_board b →
  _count_potential_lines b =
  Ok (Z.of_nat (length (filter (λ row, all row = true) (grid b)))).
Proof.
  intros [Hlen _]. unfold _count_potential_lines, range.
  destruct (decide (0 ≤ height b)).
  - pose proof (count_lines_scan [] (grid b) 0) as H. simpl in H.
    rewrite Hlen, Z2Nat.id in H by lia. done.
  - rewrite seqZ_nil by lia. simpl.
    destruct (grid b); [done|]. simpl in Hlen. lia.
Qed.

(** The score of a placement: only penalties unless the strategy is
    "aggressive", and then at most 100 for each row of the board. *)
Lemma _evaluate_position_bounds ai b p x y :
  wf_board b →
  ∃ score, _evaluate_position ai b p x y = Ok score ∧
    (strategy ai ≠ "aggressive"%string → score ≤ 0) ∧
    score ≤ 100 * Z.max 0 (height b).
Proof.
  intros Hwf. unfold _evaluate_position.
  set (test_board := set_grid (new_GameBoard (width b) (height b)) (grid b)).
  assert (wf_board test_board) as Hwf0 by done.
  destruct (place_piece_spec test_board p x y Hwf0)
    as (tb & Htb & Hwf1 & Hw & Hh & _).
  rewrite Htb. simpl.
  destruct (get_max_height_nonneg tb Hwf1) as (mh & Hmh & Hmh0). rewrite Hmh. simpl.
  destruct (get_height_map_total tb Hwf1) as [hs Hhs]. rewrite Hhs. simpl.
  destruct (bumpiness_of_nonneg hs) as (bump & Hbump & Hbump0). rewrite Hbump. simpl.
  match goal with |- context [for_each ?l ?body ?s] =>
    destruct (for_each_inv (λ holes, 0 ≤ holes) l body s) as (holes & Hholes & Hholes0)
  end; [done| |].
  { intros holes col_x Hx Hpos. apply elem_of_seqZ in Hx.
    destruct (count_holes_column_grows b tb col_x holes Hwf1) as (h' & Hh' & Hle);
      [rewrite Hw; simpl; lia|by rewrite Hh|].
    rewrite Hh'. eexists. split; [done|]. lia. }
  rewrite Hholes. simpl.
  destruct (String.eqb _ "greedy") eqn:E1; [eexists; split_and!; [done|lia|lia]|].
  destruct (String.eqb _ "defensive") eqn:E2; [eexists; split_and!; [done|lia|lia]|].
  destruct (String.eqb _ "aggressive") eqn:E3; [|eexists; split_and!; [done|lia|lia]].
  rewrite (_count_potential_lines_spec tb Hwf1). simpl.
  eexists. split; [done|]. split.
  - intros Hne. apply String.eqb_eq in E3. done.
  - pose proof (length_filter_full (grid tb)) as Hcount.
    destruct Hwf1 as [Hlen _]. rewrite Hh in Hlen. simpl in Hlen. lia.
Qed.
End Penalties.

(** ** The claims *)

Section Claims.
Import Py GameEngine AiAgent Spec Examples.

(** C1 (the code departs from the claim).  A side whose committed placement
    fails [can_place] gets its [game_over] field set and clears no line, but
    [run_match] asks [is_game_over], which looks at the top row only, and
    goes on.  In a match played from a fresh arena, side 1 is not marked
    after 41 turns and is after 42, where it has no placement for its "S";
    side 2 still plays turn 42 and side 1 plays turn 43.  On the board [stuck], with a turn cap of 1, the side that could not
    place is even returned as the winner. *)
Theorem failed_placement_does_not_end_match :
  Arena.new_Arena agent1 agent2 (Bank.new_FigureBank 15) silent =
    Ok (arena_with (new_GameBoard 10 20), silent) ∧
  outcome_of 80 (Arena.run_match (arena_with (new_GameBoard 10 20)) 41 world_drawn) =
    Some {| returned := "AI-2"; turns := 41;
            game_over1 := false; is_game_over1 := Ok false;
            logged := [Played 41 "AI-1" "Z" (0, 0, 0) 2;
                       Played 41 "AI-2" "L" (0, 0, 0) 1;
                       Won "AI-2" (1700, 2000)] |} ∧
  outcome_of 82 (Arena.run_match (arena_with (new_GameBoard 10 20)) 42 world_drawn) =
    Some {| returned := "AI-2"; turns := 42;
            game_over1 := true; is_game_over1 := Ok false;
            logged := [Played 42 "AI-1" "S" (0, 0, 0) 0;
                       Played 42 "AI-2" "T" (0, 0, 0) 0;
                       Won "AI-2" (1700, 2000)] |} ∧
  outcome_of 82 (Arena.run_match (arena_with (new_GameBoard 10 20)) 100 world_drawn) =
    Some {| returned := "AI-2"; turns := 43;
            game_over1 := true; is_game_over1 := Ok true;
            logged := [Played 42 "AI-1" "S" (0, 0, 0) 0;
                       Played 42 "AI-2" "T" (0, 0, 0) 0;
                       Played 43 "AI-1" "I" (0, 0, 0) 0;
                       Won "AI-2" (1700, 2000)] |} ∧
  decided (decide_placement agent1 stuck piece_O silent) = Some (5, 0, 0) ∧
  can_place stuck piece_O 5 0 = Ok false ∧
  outcome_of 0 (Arena.run_match (arena_with stuck) 1 world_O_I) =
    Some {| returned := "AI-1"; turns := 1;
            game_over1 := true; is_game_over1 := Ok false;
            logged := [Played 1 "AI-1" "O" (0, 0, 0) 0;
                       Played 1 "AI-2" "I" (0, 0, 0) 0;
                       Won "AI-1" (100, 0)] |}.
Proof. split_and!; vm_compute; reflexivity. Qed.

(** C2 (the code departs from the claim).  The turn entries of the log carry
    the constant placement (0, 0, 0), not the placement that was committed:
    on a fresh arena side 1 decides (0, 19, 0) for its "I", the board ends
    with the piece on row 19, and the entry says (0, 0, 0).  ([run_match_log]
    has it for every match.) *)
Theorem logged_placement_is_constant :
  decided (decide_placement agent1 (new_GameBoard 10 20) piece_I world_I_I) =
    Some (0, 19, 0) ∧
  (∃ b', place_piece (new_GameBoard 10 20) piece_I 0 19 = Ok b' ∧
         board1_of (Arena.run_match (arena_with (new_GameBoard 10 20)) 1 world_I_I) =
           Some b') ∧
  outcome_of 0 (Arena.run_match (arena_with (new_GameBoard 10 20)) 1 world_I_I) =
    Some {| returned := "AI-2"; turns := 1;
            game_over1 := false; is_game_over1 := Ok false;
            logged := [Played 1 "AI-1" "I" (0, 0, 0) 0;
                       Played 1 "AI-2" "I" (0, 0, 0) 0;
                       Won "AI-2" (0, 0)] |}.
Proof.
  split_and!; [vm_compute; reflexivity| |vm_compute; reflexivity].
  eexists. split; vm_compute; reflexivity.
Qed.

(** C3, as the code has it.  On a board whose top row holds a filled cell,
    [place_piece] keeps [is_game_over()] true; [clear_lines] keeps it true
    exactly when it clears no line (a cleared line puts a fresh empty row on
    top); [add_garbage_lines(n)], for [n] below the height, leaves it to row
    [n] of the grid, which becomes the top row.  None of the three touches the
    [game_over] field. *)
Theorem game_over_after_operations b :
  wf_board b → 0 < width b → 0 < height b →
  is_game_over b = Ok true →
  (∀ p x y, ∃ b', place_piece b p x y = Ok b' ∧
      is_game_over b' = Ok true ∧ game_over b' = game_over b) ∧
  (∃ n b', clear_lines b = Ok (n, b') ∧
      is_game_over b' = Ok (n =? 0) ∧ game_over b' = game_over b) ∧
  (∀ n world, 0 ≤ n < height b →
    ∃ b' world' row, add_garbage_lines b n world = Ok (b', world') ∧
      grid b !! Z.to_nat n = Some row ∧
      is_game_over b' = Ok (any row) ∧ game_over b' = game_over b).
Proof.
  intros Hwf Hw Hh Hover. split_and!.
  - intros p x y.
    destruct (place_piece_spec b p x y Hwf)
      as (b' & Hp & _ & _ & _ & _ & _ & Hgo & Hcells).
    exists b'. split_and!; [done| |done].
    apply is_game_over_cell. apply is_game_over_cell in Hover as [c Hc].
    exists c. apply Hcells. by left.
  - destruct (clear_lines_spec b Hwf) as (b' & Hc & Hg & _ & _ & Hgo & _ & Hz & _).
    eexists _, b'. split_and!; [done| |done].
    destruct (length (filter (λ row, all row = true) (grid b))) as [|k] eqn:Hk.
    + simpl in *. by rewrite Hz.
    + rewrite Nat2Z.id in Hg. simpl in Hg.
      rewrite (is_game_over_top _ _ _ Hg). unfold empty_row.
      by rewrite any_replicate_false.
  - intros n world Hn.
    destruct (add_garbage_lines_spec b n world Hwf Hw Hh) as
      (b' & world' & Ha & _ & Hg & _ & _ & _ & _ & _ & _ & Hgo & _); [lia|].
    specialize (Hg ltac:(lia)).
    pose proof Hwf as [Hlen _].
    destruct (lookup_lt_is_Some_2 (grid b) (Z.to_nat n)) as [row Hrow]; [lia|].
    exists b', world', row. split_and!; [done..| |done].
    rewrite (drop_S _ _ _ Hrow) in Hg. simpl in Hg.
    by rewrite (is_game_over_top _ _ _ Hg).
Qed.


Lemma game_over_after_operations_witness :
  wf_board top_full ∧ 0 < width top_full ∧ 0 < height top_full ∧
  is_game_over top_full = Ok true ∧
  ∃ n b', clear_lines top_full = Ok (n, b') ∧
          is_game_over b' = Ok (n =? 0) ∧ game_over b' = game_over top_full.
Proof.
  assert (wf_board top_full) as Hwf by (split; [reflexivity|repeat constructor]).
  split; [exact Hwf|]. split; [reflexivity|]. split; [reflexivity|].
  split; [reflexivity|].
  exact (proj1 (proj2 (game_over_after_operations top_full Hwf
                         eq_refl eq_refl eq_refl))).
Defined.

(** C3 as stated fails: on a board with a filled top row [is_game_over()]
    is true, and it is false after [clear_lines()] and after
    [add_garbage_lines(1)]. *)
Lemma game_over_not_kept :
  is_game_over Examples.top_full = Ok true ∧
  (∃ b', clear_lines Examples.top_full = Ok (1, b') ∧
         is_game_over b' = Ok false) ∧
  (∃ b' world', add_garbage_lines Examples.top_full 1 Examples.silent = Ok (b', world') ∧
         is_game_over b' = Ok false).
Proof.
  split; [done|]. split.
  - eexists. split; [vm_compute; reflexivity|done].
  - eexists _, _. split; [vm_compute; reflexivity|done].
Qed.

(** C4, as the code has it.  On a well-formed board the drop never raises.
    It rests the piece on row [y] exactly when the piece fits on every row
    from 0 to [y] and row [y + 1] is the bottom or the first row it does not
    fit on; it skips the column exactly when the piece does not fit on row 0
    (or the board has no rows), whatever fits further down. *)
Theorem hard_drop_rests_above_first_obstacle (b : GameBoard) (p : Tetromino) (x : Z) :
  wf_board b →
  ∃ r, hard_drop b p x = Ok r ∧
    (∀ y, r = Some y ↔
       0 ≤ y < height b ∧
       (∀ y', 0 ≤ y' ≤ y → can_place b p x y' = Ok true) ∧
       (y + 1 = height b ∨ can_place b p x (y + 1) = Ok false)) ∧
    (r = None ↔ height b ≤ 0 ∨ can_place b p x 0 = Ok false).
Proof. apply hard_drop_spec. Qed.

Lemma hard_drop_rests_above_first_obstacle_witness :
  wf_board overhang ∧ ∃ r, hard_drop overhang piece_O 0 = Ok r.
Proof.
  assert (wf_board overhang) as Hwf by (split; [reflexivity|repeat constructor]).
  split; [exact Hwf|].
  destruct (hard_drop_rests_above_first_obstacle overhang piece_O 0 Hwf) as (r & Hr & _).
  exists r. exact Hr.
Defined.

(** C4 as stated fails under an overhang: the "O" piece dropped in column 0
    rests on row 3, above the filled cell of row 5, while it would also fit
    on rows 6 to 18; under a filled top row the column is skipped although the
    piece fits on row 18. *)
Lemma hard_drop_not_lowest_fit :
  (hard_drop overhang piece_O 0 = Ok (Some 3) ∧
   can_place overhang piece_O 0 18 = Ok true ∧ 3 < 18) ∧
  (hard_drop top_full piece_O 0 = Ok None ∧
   can_place top_full piece_O 0 18 = Ok true).
Proof. repeat split; vm_compute; reflexivity. Qed.

(** C5.  [clear_lines] returns the number [n] of full rows; the grid it
    leaves is [n] empty rows on top of the rows that were not full, in their
    order; [n] is added to [lines_cleared]; the score grows by 100, 300, 500,
    800 for 1, 2, 3, 4 rows and by [n * 100] beyond; with no full row the
    board is left as it is. *)
Theorem clear_lines_counts_and_compacts (b : GameBoard) :
  wf_board b →
  let n := Z.of_nat (length (filter (λ row, all row = true) (grid b))) in
  ∃ b', clear_lines b = Ok (n, b') ∧
    grid b' = replicate (Z.to_nat n) (empty_row (width b)) ++
              filter (λ row, all row = false) (grid b) ∧
    width b' = width b ∧ height b' = height b ∧ game_over b' = game_over b ∧
    lines_cleared b' = lines_cleared b + n ∧
    (n = 0 → b' = b) ∧
    (n = 1 → score b' = score b + 100) ∧
    (n = 2 → score b' = score b + 300) ∧
    (n = 3 → score b' = score b + 500) ∧
    (n = 4 → score b' = score b + 800) ∧
    (4 < n → score b' = score b + n * 100).
Proof. apply clear_lines_spec. Qed.

Lemma clear_lines_counts_and_compacts_witness :
  wf_board top_full ∧
  ∃ b', clear_lines top_full = Ok (1, b') ∧ score b' = score top_full + 100.
Proof.
  assert (wf_board top_full) as Hwf by (split; [reflexivity|repeat constructor]).
  split; [exact Hwf|].
  destruct (clear_lines_counts_and_compacts top_full Hwf)
    as (b' & Hc & _ & _ & _ & _ & _ & _ & H1 & _).
  exists b'. split; [exact Hc|exact (H1 eq_refl)].
Defined.

(** C6.  On a well-formed board and for a piece type of [SHAPES],
    [decide_placement] returns; what it returns depends on the board, the
    agent's strategy and the piece type only (not on the clock, the random
    module, the agent's name or its earlier timings).  It is measured
    against the placements of the spec's words, which are stated by [fits]
    and not by the loops of the search: a rotation of 0 to 3, a column that
    keeps the rotated piece between the walls, the row the straight drop
    ends on.  The result is such a placement of maximal score that every
    such placement before it in the search order (rotation, then x) scores
    strictly less than, or, when there is none, [(width // 2, 0, 0)]; in
    particular it is that fallback when the piece fits nowhere in any
    rotation and column. *)
Theorem decide_placement_first_maximum (ai : AIAgent) (b : GameBoard)
    (p : Tetromino) (world : World) (sh : matrix) :
  wf_board b → SHAPES !! type p = Some sh →
  ∃ pos ai' world',
    decide_placement ai b p world = Ok ((pos, ai'), world') ∧
    name ai' = name ai ∧ strategy ai' = strategy ai ∧
    length (decision_times ai') = Datatypes.S (length (decision_times ai)) ∧
    rand_tape world' = rand_tape world ∧
    (∀ ai2 p2 world2, strategy ai2 = strategy ai → type p2 = type p →
       ∃ ai2' world2', decide_placement ai2 b p2 world2 = Ok ((pos, ai2'), world2')) ∧
    ((∃ s, valid_placement ai b (type p) sh pos s ∧
           ∀ pos' s', valid_placement ai b (type p) sh pos' s' →
             s' ≤ s ∧ (before pos' pos → s' < s)) ∨
     ((∀ pos' s', ¬ valid_placement ai b (type p) sh pos' s') ∧
      pos = (width b `div` 2, 0, 0))) ∧
    ((∀ rot x y, 0 ≤ rot < 4 →
        0 ≤ x ≤ width b - get_width (quarter_turns (type p) sh rot) →
        ¬ fits b (shape (quarter_turns (type p) sh rot)) x y) →
     pos = (width b `div` 2, 0, 0)).
Proof.
  intros Hwf Hsh.
  destruct (decide_placement_valid ai b p world sh Hwf Hsh)
    as (pos & ai' & world' & Hd & Hn & Hs & Hl & Hr & Hdet & Hmax).
  exists pos, ai', world'. split_and!; [done..|].
  intros Hno. destruct Hmax as [(s & Hv & _)|[_ Hfb]]; [|done].
  destruct Hv as (Hrot & Hx & (Hy & Hall & _) & _).
  destruct (Hno pos.2 pos.1.1 pos.1.2 Hrot Hx). apply Hall. lia.
Qed.

Lemma decide_placement_first_maximum_witness :
  wf_board (new_GameBoard 10 20) ∧
  SHAPES !! type piece_I = Some [[true; true; true; true]] ∧
  ∃ pos ai' world',
    decide_placement agent1 (new_GameBoard 10 20) piece_I silent =
    Ok ((pos, ai'), world').
Proof.
  assert (wf_board (new_GameBoard 10 20)) as Hwf
    by (split; [reflexivity|repeat constructor]).
  split; [exact Hwf|]. split; [reflexivity|].
  destruct (decide_placement_first_maximum agent1 (new_GameBoard 10 20) piece_I
              silent [[true; true; true; true]] Hwf eq_refl)
    as (pos & ai' & world' & Hd & _).
  exists pos, ai', world'. exact Hd.
Defined.

(** C7.  [get_piece] returns true exactly when the count of the type is
    strictly positive, and then takes one off that count; otherwise it
    leaves the Bank.bank as it is; counts that are not negative stay so;
    [is_available] answers what a draw would; after as many draws as the
    count, all successful, the type is not available and the next draw
    fails, as with 15 of "I". *)
Theorem get_piece_draws_iff_positive (fb : Bank.FigureBank) (t : string) :
  ((Bank.get_piece fb t).1 = true ↔ ∃ c, Bank.bank fb !! t = Some c ∧ 0 < c) ∧
  (∀ c, Bank.bank fb !! t = Some c → 0 < c →
     Bank.bank (Bank.get_piece fb t).2 = <[t := c - 1]> (Bank.bank fb)) ∧
  ((Bank.get_piece fb t).1 = false → (Bank.get_piece fb t).2 = fb) ∧
  ((∀ k c, Bank.bank fb !! k = Some c → 0 ≤ c) →
   ∀ k c, Bank.bank (Bank.get_piece fb t).2 !! k = Some c → 0 ≤ c) ∧
  (Bank.is_available fb t = (Bank.get_piece fb t).1) ∧
  (∀ c, Bank.bank fb !! t = Some c → 0 ≤ c →
     let after := (draw_many (Z.to_nat c) fb t).2 in
     (draw_many (Z.to_nat c) fb t).1 = replicate (Z.to_nat c) true ∧
     Bank.is_available after t = false ∧
     Bank.get_piece after t = (false, after)) ∧
  (let after := (draw_many 15 (Bank.new_FigureBank 15) "I").2 in
   (draw_many 15 (Bank.new_FigureBank 15) "I").1 = replicate 15 true ∧
   Bank.is_available after "I" = false ∧
   Bank.get_piece after "I" = (false, after)).
Proof.
  assert (Hmany : ∀ fb t c, Bank.bank fb !! t = Some c → 0 ≤ c →
     let after := (draw_many (Z.to_nat c) fb t).2 in
     (draw_many (Z.to_nat c) fb t).1 = replicate (Z.to_nat c) true ∧
     Bank.is_available after t = false ∧
     Bank.get_piece after t = (false, after)).
  { clear. intros fb t c Hc Hpos after.
    destruct (draw_many_spec (Z.to_nat c) fb t c Hc) as [H1 H2]; [lia|].
    fold after in H2. replace (c - Z.of_nat (Z.to_nat c)) with 0 in H2 by lia.
    split_and!; [done| |].
    - unfold Bank.is_available. by rewrite H2.
    - apply get_piece_exhausted. intros c'. rewrite H2. intros [= <-]. lia. }
  split_and!.
  - unfold Bank.get_piece. destruct (Bank.bank fb !! t) as [c|] eqn:Hc.
    + destruct (c >? 0) eqn:Hpos; simpl.
      * split; [|done]. intros _. exists c. split; [done|lia].
      * split; [done|]. intros (c' & [= <-] & ?). lia.
    + split; [done|]. by intros (c' & ? & _).
  - intros c Hc Hpos. by rewrite (get_piece_positive fb t c).
  - unfold Bank.get_piece. destruct (Bank.bank fb !! t) as [c|]; [|done].
    by destruct (c >? 0).
  - intros Hnn k c. unfold Bank.get_piece. destruct (Bank.bank fb !! t) as [ct|] eqn:Hct; [|by apply Hnn].
    destruct (ct >? 0) eqn:Hpos; [|by apply Hnn]. simpl.
    destruct (decide (t = k)) as [->|Hne].
    + rewrite lookup_insert_eq. intros [= <-]. lia.
    + rewrite lookup_insert_ne by done. apply Hnn.
  - unfold Bank.is_available, Bank.get_piece. destruct (Bank.bank fb !! t) as [c|]; [|done].
    by destruct (c >? 0).
  - apply Hmany.
  - apply (Hmany (Bank.new_FigureBank 15) "I"%string 15); [done|lia].
Qed.

Lemma get_piece_draws_iff_positive_witness :
  Bank.bank (Bank.new_FigureBank 15) !! "I"%string = Some 15 ∧ 0 < 15 ∧
  Bank.bank (Bank.get_piece (Bank.new_FigureBank 15) "I").2 =
    <["I"%string := 15 - 1]> (Bank.bank (Bank.new_FigureBank 15)).
Proof.
  split; [reflexivity|]. split; [reflexivity|].
  exact (proj1 (proj2 (get_piece_draws_iff_positive (Bank.new_FigureBank 15) "I"))
           15 eq_refl eq_refl).
Defined.

(** C8, as the code has it.  For [n ≥ 0] on a well-formed board with at
    least one row and one column, [add_garbage_lines(n)] never raises; the
    grid it leaves is the old grid followed by [n] garbage rows, less its
    first [n] rows; the row count and every field but the grid are kept; the
    [k]-th new row is filled but for the one column
    [random.randint(0, width - 1)] handed out at the [k]-th draw.  The drawn
    value is the hole as it is: every column of the board is the hole for
    the draw of that value, and for that value only. *)
Theorem add_garbage_lines_shifts_up (b : GameBoard) (n : Z) (world : World) :
  wf_board b → 0 < width b → 0 < height b → 0 ≤ n →
  let holes := draws (Z.to_nat n) (width b) (rand_tape world) in
  ∃ b' world', add_garbage_lines b n world = Ok (b', world') ∧
    grid b' = drop (Z.to_nat n) (grid b ++ map (garbage_row (width b)) holes) ∧
    (n ≤ height b →
     grid b' = drop (Z.to_nat n) (grid b) ++ map (garbage_row (width b)) holes) ∧
    length (grid b') = length (grid b) ∧ wf_board b' ∧
    width b' = width b ∧ height b' = height b ∧ score b' = score b ∧
    lines_cleared b' = lines_cleared b ∧ game_over b' = game_over b ∧
    length holes = Z.to_nat n ∧
    Forall (λ hole, 0 ≤ hole < width b ∧
              ∀ c : nat, Z.of_nat c < width b →
                garbage_row (width b) hole !! c = Some (bool_decide (Z.of_nat c ≠ hole)))
           holes ∧
    rand_tape world' = drop (Z.to_nat n) (rand_tape world) ∧
    (∀ columns : list Z, Forall (λ hole, 0 ≤ hole < width b) columns →
       draws (length columns) (width b) (map Z.to_nat columns) = columns) ∧
    (∀ values : list nat, Forall (λ v, (v < Z.to_nat (width b))%nat) values →
       draws (length values) (width b) values = map Z.of_nat values).
Proof.
  intros Hwf Hw Hh Hn holes.
  destruct (add_garbage_lines_spec b n world Hwf Hw Hh Hn) as (b' & world' & Hspec).
  exists b', world'.
  repeat (destruct Hspec as [? Hspec]; split; [assumption|]).
  split; [exact Hspec|]. intros values. apply draws_of_values.
Qed.

Lemma add_garbage_lines_shifts_up_witness :
  wf_board top_full ∧ 0 < width top_full ∧ 0 < height top_full ∧ 0 ≤ 2 ∧
  ∃ b' world', add_garbage_lines top_full 2 world_O_I = Ok (b', world') ∧
               length (grid b') = length (grid top_full).
Proof.
  assert (wf_board top_full) as Hwf by (split; [reflexivity|repeat constructor]).
  split; [exact Hwf|]. split; [reflexivity|]. split; [reflexivity|].
  split; [discriminate|].
  destruct (add_garbage_lines_shifts_up top_full 2 world_O_I Hwf eq_refl eq_refl
              ltac:(discriminate))
    as (b' & world' & Ha & _ & _ & Hl & _).
  exists b', world'. split; [exact Ha|exact Hl].
Defined.

(** C8 as stated fails on a board without columns or without rows.  On
    [GameBoard(0, 2)] the top row is popped and [random.randint(0, -1)]
    raises [ValueError]; on [GameBoard(3, 0)] there is no row to pop and
    [pop(0)] raises [IndexError].  Neither call adds a row. *)
Lemma add_garbage_lines_raises_on_empty_board :
  wf_board (new_GameBoard 0 2) ∧
  add_garbage_lines (new_GameBoard 0 2) 1 silent = Raise ValueError ∧
  add_garbage_lines (new_GameBoard 0 2) 1 world_O_I = Raise ValueError ∧
  wf_board (new_GameBoard 3 0) ∧
  add_garbage_lines (new_GameBoard 3 0) 1 silent = Raise IndexError ∧
  add_garbage_lines (new_GameBoard 3 0) 1 world_O_I = Raise IndexError.
Proof.
  split_and!; try reflexivity; split; try reflexivity; repeat constructor.
Qed.

(** C9, as the code has it.  On a well-formed board with at least one
    column, no row is full
    after [clear_lines()], and a second [clear_lines()] right after returns 0
    and leaves the board (grid, score, lines cleared) as it is. *)
Theorem clear_lines_idempotent (b : GameBoard) :
  wf_board b → 0 < width b →
  ∃ n b', clear_lines b = Ok (n, b') ∧
    wf_board b' ∧
    Forall (λ row, all row = false) (grid b') ∧
    clear_lines b' = Ok (0, b').
Proof. apply clear_lines_twice. Qed.

Lemma clear_lines_idempotent_witness :
  wf_board top_full ∧ 0 < width top_full ∧
  ∃ n b', clear_lines top_full = Ok (n, b') ∧ clear_lines b' = Ok (0, b').
Proof.
  assert (wf_board top_full) as Hwf by (split; [reflexivity|repeat constructor]).
  split; [exact Hwf|]. split; [reflexivity|].
  destruct (clear_lines_idempotent top_full Hwf eq_refl) as (n & b' & Hc & _ & _ & Hc').
  exists n, b'. split; [exact Hc|exact Hc'].
Defined.

(** C9 as stated fails on a board without columns: every row of
    [GameBoard(0, 2)] is the empty list, which [all] takes for full, and the
    rows [clear_lines()] puts back are empty lists again.  The first call
    returns 2 and so does the second; the score goes to 300, then 600, the
    line total to 2, then 4. *)
Lemma clear_lines_not_idempotent_without_columns :
  wf_board (new_GameBoard 0 2) ∧
  ∃ b1 b2,
    clear_lines (new_GameBoard 0 2) = Ok (2, b1) ∧
    Forall (λ row, all row = true) (grid b1) ∧
    clear_lines b1 = Ok (2, b2) ∧
    score (new_GameBoard 0 2) = 0 ∧ score b1 = 300 ∧ score b2 = 600 ∧
    lines_cleared b1 = 2 ∧ lines_cleared b2 = 4.
Proof.
  split; [split; [reflexivity|repeat constructor]|].
  eexists _, _. split; [vm_compute; reflexivity|].
  split; [repeat constructor|]. split; [vm_compute; reflexivity|].
  repeat split.
Qed.

(** C10.  On a well-formed board, for every piece matrix and every integer
    offset, [place_piece] never raises (no index leaves the grid); the board
    it leaves is well formed, a cell of it is filled exactly when it was
    filled before or is inside the board and covered by an occupied cell of
    the piece, and width, height, score, lines cleared and the [game_over]
    field are kept. *)
Theorem place_piece_total_and_exact (b : GameBoard) (p : Tetromino) (x y : Z) :
  wf_board b →
  ∃ b', place_piece b p x y = Ok b' ∧
    wf_board b' ∧
    width b' = width b ∧ height b' = height b ∧
    score b' = score b ∧ lines_cleared b' = lines_cleared b ∧
    game_over b' = game_over b ∧
    ∀ r c : nat, cell_at (grid b') r c = true ↔
      cell_at (grid b) r c = true ∨
      (Z.of_nat r < height b ∧ Z.of_nat c < width b ∧ covers (shape p) x y r c).
Proof. apply place_piece_spec. Qed.

Lemma place_piece_total_and_exact_witness :
  wf_board top_full ∧ ∃ b', place_piece top_full piece_T 8 (-1) = Ok b'.
Proof.
  assert (wf_board top_full) as Hwf by (split; [reflexivity|repeat constructor]).
  split; [exact Hwf|].
  destruct (place_piece_total_and_exact top_full piece_T 8 (-1) Hwf) as (b' & Hp & _).
  exists b'. exact Hp.
Defined.

End Claims.

(** ** Further properties of the engine and the bank *)

Section Further.
Import Py GameEngine AiAgent Spec Examples.

(** X1.  [rotate] is a clockwise quarter turn of a rectangular shape with
    at least one cell: the columns become the rows, so width and height
    change places, the cell in row [j] and column [i] of the turned shape is
    the cell in row [h - 1 - i] and column [j] of the shape, the type stays
    and the rotation index moves on by one modulo 4. *)
Theorem rotate_is_quarter_turn (p : Tetromino) (h w : nat) :
  length (shape p) = h → (0 < h)%nat → (0 < w)%nat →
  Forall (λ r, length r = w) (shape p) →
  get_width (rotate p) = get_height p ∧
  get_height (rotate p) = get_width p ∧
  Forall (λ r, length r = h) (shape (rotate p)) ∧
  (∀ j i : nat, (j < w)%nat → (i < h)%nat →
     cell_opt (shape (rotate p)) j i = cell_opt (shape p) (h - 1 - i) j) ∧
  type (rotate p) = type p ∧
  rotation (rotate p) = (rotation p + 1) `mod` 4.
Proof.
  intros Hh Hpos Hw Hrows.
  destruct (turned_spec (shape p) h w Hh Hpos Hrows) as (Hlen & Hcols & Hcells).
  change (shape (rotate p)) with (turned (shape p)).
  unfold get_width, get_height.
  change (shape (rotate p)) with (turned (shape p)). rewrite Hlen, Hh.
  split_and!; [| |done|done|done|done].
  - destruct (turned (shape p)) as [|r0 rest] eqn:E; [simpl in Hlen; lia|].
    apply Forall_cons in Hcols as [-> _]. done.
  - destruct (shape p) as [|r0 rest] eqn:E; [simpl in Hh; lia|].
    apply Forall_cons in Hrows as [-> _]. done.
Qed.

Lemma rotate_is_quarter_turn_witness :
  length (shape piece_T) = 2%nat ∧
  get_width (rotate piece_T) = get_height piece_T ∧
  get_height (rotate piece_T) = get_width piece_T.
Proof.
  split; [reflexivity|].
  destruct (rotate_is_quarter_turn piece_T 2 3 eq_refl ltac:(lia) ltac:(lia)
              ltac:(repeat constructor)) as (Hw & Hh & _).
  split; [exact Hw|exact Hh].
Defined.

(** X2.  Four calls of [rotate] bring a piece back: the same matrix and the
    same rotation index, for every rectangular shape with at least one cell
    and a rotation index of 0 to 3. *)
Theorem rotate_four_turns_identity (p : Tetromino) (h w : nat) :
  length (shape p) = h → (0 < h)%nat → (0 < w)%nat →
  Forall (λ r, length r = w) (shape p) → 0 ≤ rotation p < 4 →
  rotate (rotate (rotate (rotate p))) = p.
Proof.
  intros Hh Hpos Hw Hrows Hrot. destruct p as [t sh r]. simpl in *.
  unfold rotate. simpl. f_equal.
  - by apply (turned_four_times sh h w).
  - assert (r = 0 ∨ r = 1 ∨ r = 2 ∨ r = 3) as [->|[->|[->| ->]]] by lia; done.
Qed.

Lemma rotate_four_turns_identity_witness :
  length (shape piece_T) = 2%nat ∧ 0 ≤ rotation piece_T < 4 ∧
  rotate (rotate (rotate (rotate piece_T))) = piece_T.
Proof.
  split; [reflexivity|]. split; [simpl; lia|].
  exact (rotate_four_turns_identity piece_T 2 3 eq_refl ltac:(lia) ltac:(lia)
           ltac:(repeat constructor) ltac:(simpl; lia)).
Defined.

(** X3.  On a well-formed board [can_place] never raises, and it returns
    true exactly when every occupied cell of the piece, moved by the offset,
    is inside the board and on an empty cell: leaving at the first cell that
    fails gives the answer of the exhaustive check. *)
Theorem can_place_iff_fits (b : GameBoard) (p : Tetromino) (x y : Z) :
  wf_board b →
  ∃ ok, can_place b p x y = Ok ok ∧ (ok = true ↔ fits b (shape p) x y).
Proof. apply can_place_spec. Qed.

Lemma can_place_iff_fits_witness :
  wf_board overhang ∧ ∃ ok, can_place overhang piece_O 0 4 = Ok ok.
Proof.
  assert (wf_board overhang) as Hwf by (split; [reflexivity|repeat constructor]).
  split; [exact Hwf|].
  destruct (can_place_iff_fits overhang piece_O 0 4 Hwf) as (ok & Hok & _).
  exists ok. exact Hok.
Defined.

(** X4.  A piece that [can_place] accepts is put by [place_piece] on cells
    that were all empty and are all filled afterwards, every other cell is
    left as it was, and the same piece does not fit at the same offset a
    second time. *)
Theorem placed_piece_takes_empty_cells (b : GameBoard) (p : Tetromino) (x y : Z) :
  wf_board b → can_place b p x y = Ok true →
  ∃ b', place_piece b p x y = Ok b' ∧ wf_board b' ∧
    (∀ r c : nat, covers (shape p) x y r c →
       Z.of_nat r < height b ∧ Z.of_nat c < width b ∧
       cell_at (grid b) r c = false ∧ cell_at (grid b') r c = true) ∧
    (∀ r c : nat, ¬ covers (shape p) x y r c →
       cell_at (grid b') r c = cell_at (grid b) r c) ∧
    ((∃ i j : nat, cell_at (shape p) i j = true) → can_place b' p x y = Ok false).
Proof. apply place_after_can_place. Qed.

Lemma placed_piece_takes_empty_cells_witness :
  wf_board overhang ∧ can_place overhang piece_O 0 3 = Ok true ∧
  ∃ b', place_piece overhang piece_O 0 3 = Ok b' ∧ can_place b' piece_O 0 3 = Ok false.
Proof.
  assert (wf_board overhang) as Hwf by (split; [reflexivity|repeat constructor]).
  split; [exact Hwf|]. split; [reflexivity|].
  destruct (placed_piece_takes_empty_cells overhang piece_O 0 3 Hwf eq_refl)
    as (b' & Hp & _ & _ & _ & Hagain).
  exists b'. split; [exact Hp|]. apply Hagain. exists 0%nat, 0%nat. reflexivity.
Defined.

(** X5.  On a well-formed board [get_height_map] never raises and returns
    one height for each column, in column order: 0 for a column without a
    filled cell, else the board height less the row of the first filled cell
    from the top, so a value of 1 to the board height. *)
Theorem get_height_map_heights (b : GameBoard) :
  wf_board b → 0 ≤ height b →
  ∃ heights, get_height_map b = Ok heights ∧
    length heights = Z.to_nat (width b) ∧
    ∀ x : nat, Z.of_nat x < width b →
      ∃ h, heights !! x = Some h ∧ height_of b x h ∧ 0 ≤ h ≤ height b.
Proof.
  intros Hwf Hh. destruct (get_height_map_spec b Hwf Hh) as (heights & Hm & Hlen & Hall).
  exists heights. split_and!; [done..|]. intros x Hx.
  destruct (Hall x Hx) as (h & Hl & Hs). exists h.
  pose proof (height_of_bounds b x h Hh Hs). done.
Qed.

Lemma get_height_map_heights_witness :
  wf_board overhang ∧ 0 ≤ height overhang ∧
  ∃ heights, get_height_map overhang = Ok heights ∧ length heights = 10%nat.
Proof.
  assert (wf_board overhang) as Hwf by (split; [reflexivity|repeat constructor]).
  split; [exact Hwf|]. split; [discriminate|].
  destruct (get_height_map_heights overhang Hwf ltac:(discriminate))
    as (heights & Hm & Hlen & _).
  exists heights. split; [exact Hm|exact Hlen].
Defined.

(** X6.  On a well-formed board with rows and columns [get_max_height]
    returns a value of 0 to the board height; it is the board height exactly
    when [is_game_over()] is true, and 0 exactly when the board has no filled
    cell. *)
Theorem max_height_tells_game_over (b : GameBoard) :
  wf_board b → 0 < width b → 0 < height b →
  ∃ m, get_max_height b = Ok m ∧ 0 ≤ m ≤ height b ∧
    (is_game_over b = Ok true ↔ m = height b) ∧
    (m = 0 ↔ ∀ r c : nat, cell_at (grid b) r c = false).
Proof. apply is_game_over_max_height. Qed.

Lemma max_height_tells_game_over_witness :
  wf_board top_full ∧ 0 < width top_full ∧ 0 < height top_full ∧
  ∃ m, get_max_height top_full = Ok m ∧ 0 ≤ m ≤ height top_full.
Proof.
  assert (wf_board top_full) as Hwf by (split; [reflexivity|repeat constructor]).
  split; [exact Hwf|]. split; [reflexivity|]. split; [reflexivity|].
  destruct (max_height_tells_game_over top_full Hwf eq_refl eq_refl) as (m & Hm & Hb & _).
  exists m. split; [exact Hm|exact Hb].
Defined.

(** X7.  Garbage rows are never full: on a board with rows and columns and
    without a full row, [add_garbage_lines(n)] leaves no full row, so a
    [clear_lines()] right after it returns 0 and changes nothing. *)
Theorem garbage_is_never_cleared (b : GameBoard) (n : Z) (world : World) :
  wf_board b → 0 < width b → 0 < height b → 0 ≤ n →
  Forall (λ row, all row = false) (grid b) →
  ∃ b' world', add_garbage_lines b n world = Ok (b', world') ∧
    Forall (λ row, all row = false) (grid b') ∧
    clear_lines b' = Ok (0, b').
Proof. apply garbage_is_not_cleared. Qed.

Lemma garbage_is_never_cleared_witness :
  wf_board overhang ∧ 0 < width overhang ∧ 0 < height overhang ∧ 0 ≤ 3 ∧
  Forall (λ row, all row = false) (grid overhang) ∧
  ∃ b' world', add_garbage_lines overhang 3 world_O_I = Ok (b', world') ∧
               clear_lines b' = Ok (0, b').
Proof.
  assert (wf_board overhang) as Hwf by (split; [reflexivity|repeat constructor]).
  assert (Forall (λ row, all row = false) (grid overhang)) as Hnone
    by (repeat constructor).
  split; [exact Hwf|]. split; [reflexivity|]. split; [reflexivity|].
  split; [discriminate|]. split; [exact Hnone|].
  destruct (garbage_is_never_cleared overhang 3 world_O_I Hwf eq_refl eq_refl
              ltac:(discriminate) Hnone) as (b' & world' & Ha & _ & Hc).
  exists b', world'. split; [exact Ha|exact Hc].
Defined.

(** X8.  [get_available_pieces] returns the canonical types whose count is
    strictly positive, in the order of [TETROMINO_TYPES], when every
    canonical type is a key of the bank; it raises [KeyError] when one is
    missing. *)
Theorem get_available_pieces_in_order (fb : Bank.FigureBank) :
  ((∀ t, t ∈ Bank.TETROMINO_TYPES → is_Some (Bank.bank fb !! t)) →
   Bank.get_available_pieces fb =
   Ok (filter (λ t, Bank.is_available fb t = true) Bank.TETROMINO_TYPES)) ∧
  ((∃ t, t ∈ Bank.TETROMINO_TYPES ∧ Bank.bank fb !! t = None) →
   Bank.get_available_pieces fb = Raise KeyError).
Proof.
  split.
  - intros Hall. unfold Bank.get_available_pieces. by rewrite available_loop.
  - intros Hmiss. unfold Bank.get_available_pieces. by apply missing_loop.
Qed.

Lemma get_available_pieces_in_order_witness :
  (∃ t, t ∈ Bank.TETROMINO_TYPES ∧
        Bank.bank {| Bank.bank := ∅; Bank.initial_count := 0 |} !! t = None) ∧
  Bank.get_available_pieces {| Bank.bank := ∅; Bank.initial_count := 0 |} =
  Raise KeyError.
Proof.
  assert (∃ t, t ∈ Bank.TETROMINO_TYPES ∧
               Bank.bank {| Bank.bank := ∅; Bank.initial_count := 0 |} !! t = None) as Hm.
  { exists "I"%string. split; [apply list_elem_of_here|reflexivity]. }
  split; [exact Hm|].
  exact (proj2 (get_available_pieces_in_order _) Hm).
Defined.

(** X9.  [get_total_remaining] goes down by exactly one with a successful
    [get_piece] and stays with a failed one, and a bank built with
    [FigureBank(n)] holds [7 * n] pieces. *)
Theorem total_remaining_counts_draws (fb : Bank.FigureBank) (t : string) (n : Z) :
  Bank.get_total_remaining (Bank.get_piece fb t).2 =
    Bank.get_total_remaining fb - (if (Bank.get_piece fb t).1 then 1 else 0) ∧
  Bank.get_total_remaining (Bank.new_FigureBank n) = 7 * n.
Proof. split; [apply get_piece_total|apply new_FigureBank_total]. Qed.

(** X10.  With counts that are not negative, [get_total_remaining] is not
    negative, and [is_empty()] is true exactly when it is 0. *)
Theorem is_empty_iff_nothing_remains (fb : Bank.FigureBank) :
  (∀ k c, Bank.bank fb !! k = Some c → 0 ≤ c) →
  0 ≤ Bank.get_total_remaining fb ∧
  (Bank.is_empty fb = true ↔ Bank.get_total_remaining fb = 0).
Proof.
  intros Hnn.
  assert (Forall (λ c, 0 ≤ c) (Bank.values fb)) as Hvals.
  { apply Forall_forall. intros c Hc. unfold Bank.values in Hc.
    apply list_elem_of_fmap in Hc as ([k c'] & -> & Hin).
    apply elem_of_map_to_list in Hin. by eapply Hnn. }
  destruct (sum_nonneg _ Hvals) as [Hpos Hzero]. split; [done|].
  unfold Bank.get_total_remaining. rewrite Hzero.
  unfold Bank.is_empty. rewrite forallb_forall, Forall_forall.
  split; intros H c Hc.
  - apply Z.eqb_eq. apply H. by apply list_elem_of_In.
  - apply Z.eqb_eq. apply H. by apply list_elem_of_In.
Qed.

Lemma is_empty_iff_nothing_remains_witness :
  (∀ k c, Bank.bank (Bank.new_FigureBank 0) !! k = Some c → 0 ≤ c) ∧
  (Bank.is_empty (Bank.new_FigureBank 0) = true ↔
   Bank.get_total_remaining (Bank.new_FigureBank 0) = 0).
Proof.
  assert (∀ k c, Bank.bank (Bank.new_FigureBank 0) !! k = Some c → 0 ≤ c) as Hnn.
  { intros k c Hc. apply elem_of_list_to_map_2, list_elem_of_In, in_map_iff in Hc.
    destruct Hc as (t & [= _ <-] & _). done. }
  split; [exact Hnn|].
  exact (proj2 (is_empty_iff_nothing_remains (Bank.new_FigureBank 0) Hnn)).
Defined.
End Further.

(** ** Further properties of the agents and the arena *)

Section FurtherMatch.
Import Py GameEngine AiAgent Spec Examples.

(** X11.  On a bank with a count for every canonical type
    [get_random_available] never raises: it returns [None], without a
    random draw, exactly when no canonical type has a positive count, and
    else a canonical type with a positive count, after one random draw. *)
Theorem get_random_available_is_available (fb : Bank.FigureBank) (w : World) :
  wf_bank fb →
  ∃ r w', Bank.get_random_available fb w = Ok (r, w') ∧
    clock_tape w' = clock_tape w ∧
    match r with
    | None =>
      w' = w ∧ ∀ t, t ∈ Bank.TETROMINO_TYPES → Bank.is_available fb t = false
    | Some t =>
      t ∈ Bank.TETROMINO_TYPES ∧ Bank.is_available fb t = true ∧
      rand_tape w' = tl (rand_tape w)
    end.
Proof.
  intros Hwf. destruct (get_random_available_spec fb w Hwf) as [[He Hr]|(t & Ht & Hr)].
  - exists None, w. split_and!; [done..|]. intros t Ht.
    destruct (Bank.is_available fb t) eqn:E; [|done].
    assert (t ∈ available fb) as Hin by by apply elem_of_available.
    rewrite He in Hin. by apply elem_of_nil in Hin.
  - apply elem_of_available in Ht as [Ht Ha]. eexists (Some t), _. by split_and!.
Qed.

Lemma get_random_available_is_available_witness :
  wf_bank (Bank.new_FigureBank 15) ∧
  ∃ r w', Bank.get_random_available (Bank.new_FigureBank 15) world_O_I = Ok (r, w').
Proof.
  split; [apply wf_new_FigureBank|].
  destruct (get_random_available_is_available (Bank.new_FigureBank 15) world_O_I
              (wf_new_FigureBank 15)) as (r & w' & Hr & _).
  exists r, w'. exact Hr.
Defined.

(** X12.  On a bank with a count for every canonical type
    [_get_next_piece] never raises and returns a canonical type: a type
    with a positive count, whose count it lowers by one, or, when no type
    has one left, any canonical type with the bank left as it is. *)
Theorem get_next_piece_is_canonical (fb : Bank.FigureBank) (w : World) :
  wf_bank fb →
  ∃ t fb' w', Arena._get_next_piece fb w = Ok ((t, fb'), w') ∧
    t ∈ Bank.TETROMINO_TYPES ∧ wf_bank fb' ∧
    ((Bank.is_available fb t = true ∧ Bank.get_piece fb t = (true, fb') ∧
      Bank.get_total_remaining fb' = Bank.get_total_remaining fb - 1) ∨
     ((∀ t', t' ∈ Bank.TETROMINO_TYPES → Bank.is_available fb t' = false) ∧
      fb' = fb)).
Proof.
  intros Hwf.
  destruct (_get_next_piece_spec fb w Hwf) as (t & fb' & w' & Hr & Ht & Hwf' & _ & Hcase).
  exists t, fb', w'. split_and!; [done..|].
  destruct Hcase as [[Hin Hget]|[He ->]].
  - left. apply elem_of_available in Hin as [_ Ha]. split_and!; [done..|].
    pose proof (get_piece_total fb t) as Htot. rewrite Hget in Htot. done.
  - right. split; [|done]. intros t' Ht'.
    destruct (Bank.is_available fb t') eqn:E; [|done].
    assert (t' ∈ available fb) as Hin by by apply elem_of_available.
    rewrite He in Hin. by apply elem_of_nil in Hin.
Qed.

Lemma get_next_piece_is_canonical_witness :
  wf_bank (Bank.new_FigureBank 15) ∧
  ∃ t fb' w', Arena._get_next_piece (Bank.new_FigureBank 15) world_O_I = Ok ((t, fb'), w').
Proof.
  split; [apply wf_new_FigureBank|].
  destruct (get_next_piece_is_canonical (Bank.new_FigureBank 15) world_O_I
              (wf_new_FigureBank 15)) as (t & fb' & w' & Hr & _).
  exists t, fb', w'. exact Hr.
Defined.

(** X13.  On a bank with a count for every canonical type
    [choose_attack_piece] never raises and returns [None] exactly when
    nothing is available, else an available canonical type; the
    "aggressive" strategy returns one of T, L, J whenever one of them is
    available, the "defensive" strategy one of I, O whenever one of them
    is. *)
Theorem choose_attack_piece_preferences (ai : AIAgent) (fb : Bank.FigureBank) (w : World) :
  wf_bank fb →
  ∃ r w', choose_attack_piece ai fb w = Ok (r, w') ∧
    match r with
    | None =>
      w' = w ∧ ∀ t, t ∈ Bank.TETROMINO_TYPES → Bank.is_available fb t = false
    | Some t =>
      t ∈ Bank.TETROMINO_TYPES ∧ Bank.is_available fb t = true ∧
      (strategy ai = "aggressive"%string →
       (∃ d, d ∈ ["T"; "L"; "J"]%string ∧ Bank.is_available fb d = true) →
       t ∈ ["T"; "L"; "J"]%string) ∧
      (strategy ai = "defensive"%string →
       (∃ e, e ∈ ["I"; "O"]%string ∧ Bank.is_available fb e = true) →
       t ∈ ["I"; "O"]%string)
    end.
Proof.
  intros Hwf.
  destruct (choose_attack_piece_spec ai fb w Hwf)
    as [[He Hr]|(t & Hr & Hin & Hagg & Hdef)].
  - exists None, w. split_and!; [done..|]. intros t Ht.
    destruct (Bank.is_available fb t) eqn:E; [|done].
    assert (t ∈ available fb) as Hin by by apply elem_of_available.
    rewrite He in Hin. by apply elem_of_nil in Hin.
  - apply elem_of_available in Hin as [Ht Ha]. eexists (Some t), _.
    split_and!; [done..| |].
    + intros Hs (d & Hd & Hda). apply Hagg; [done|]. exists d. split; [done|].
      by apply is_available_canonical.
    + intros Hs (e & He & Hea). apply Hdef; [done|]. exists e. split; [done|].
      by apply is_available_canonical.
Qed.

Lemma choose_attack_piece_preferences_witness :
  wf_bank (Bank.new_FigureBank 15) ∧
  ∃ r w', choose_attack_piece agent2 (Bank.new_FigureBank 15) world_O_I = Ok (r, w').
Proof.
  split; [apply wf_new_FigureBank|].
  destruct (choose_attack_piece_preferences agent2 (Bank.new_FigureBank 15) world_O_I
              (wf_new_FigureBank 15)) as (r & w' & Hr & _).
  exists r, w'. exact Hr.
Defined.



(** X15.  The count of [_count_potential_lines] is the count [clear_lines]
    returns on the same board: the number of full rows. *)
Theorem potential_lines_are_cleared_lines (b : GameBoard) :
  wf_board b →
  ∃ n b', clear_lines b = Ok (n, b') ∧ _count_potential_lines b = Ok n ∧
    n = Z.of_nat (length (filter (λ row, all row = true) (grid b))).
Proof.
  intros Hwf. destruct (clear_lines_spec b Hwf) as (b' & Hc & _).
  eexists _, b'. split_and!; [done| |done]. by apply _count_potential_lines_spec.
Qed.

Lemma potential_lines_are_cleared_lines_witness :
  wf_board top_full ∧
  ∃ n b', clear_lines top_full = Ok (n, b') ∧ _count_potential_lines top_full = Ok n.
Proof.
  assert (wf_board top_full) as Hwf by (split; [reflexivity|repeat constructor]).
  split; [exact Hwf|].
  destruct (potential_lines_are_cleared_lines top_full Hwf) as (n & b' & Hc & Hn & _).
  exists n, b'. split; [exact Hc|exact Hn].
Defined.

(** X16.  On a well-formed board [_evaluate_position] never raises, at any
    offset; every strategy but "aggressive" gives a score of at most 0
    (height, holes and bumpiness are penalties), and "aggressive" at most
    100 for each row of the board. *)
Theorem evaluate_position_penalties (ai : AIAgent) (b : GameBoard) (p : Tetromino)
    (x y : Z) :
  wf_board b →
  ∃ score, _evaluate_position ai b p x y = Ok score ∧
    (strategy ai ≠ "aggressive"%string → score ≤ 0) ∧
    score ≤ 100 * Z.max 0 (height b).
Proof. apply _evaluate_position_bounds. Qed.

Lemma evaluate_position_penalties_witness :
  wf_board overhang ∧
  ∃ score, _evaluate_position agent1 overhang piece_T 0 3 = Ok score ∧ score ≤ 0.
Proof.
  assert (wf_board overhang) as Hwf by (split; [reflexivity|repeat constructor]).
  split; [exact Hwf|].
  destruct (evaluate_position_penalties agent1 overhang piece_T 0 3 Hwf)
    as (score & Hs & Hneg & _).
  exists score. split; [exact Hs|]. apply Hneg. discriminate.
Defined.

(** X17.  [play_turn] on a board the arena keeps (well formed, with rows
    and columns, no full row), a bank with a count for every canonical type
    and a canonical piece type never raises.  The board it leaves has the
    same size and again no full row; at most 4 lines are cleared, the line
    total grows by that number and the score by the entry of the table
    0/100/300/500/800; an attack piece is chosen only after a clear, and is
    then available; the agent keeps its name and strategy; the game-over
    field changes only on the branch that could not place, which clears
    nothing and attacks with nothing. *)
Theorem play_turn_keeps_board_playable (fb : Bank.FigureBank) (ai : AIAgent)
    (b : GameBoard) (t : string) (w : World) :
  playable b → wf_bank fb → t ∈ Bank.TETROMINO_TYPES →
  ∃ r w', Arena.play_turn fb ai b t w = Ok (r, w') ∧
    playable (Arena.tr_board r) ∧
    width (Arena.tr_board r) = width b ∧ height (Arena.tr_board r) = height b ∧
    name (Arena.tr_ai r) = name ai ∧ strategy (Arena.tr_ai r) = strategy ai ∧
    0 ≤ Arena.tr_lines_cleared r ≤ 4 ∧
    lines_cleared (Arena.tr_board r) = lines_cleared b + Arena.tr_lines_cleared r ∧
    score (Arena.tr_board r) =
      score b + default 0 ([0; 100; 300; 500; 800] !! Z.to_nat (Arena.tr_lines_cleared r)) ∧
    (Arena.tr_attack_piece r = None ∨
     (0 < Arena.tr_lines_cleared r ∧
      ∃ a, Arena.tr_attack_piece r = Some a ∧
           a ∈ Bank.TETROMINO_TYPES ∧ Bank.is_available fb a = true)) ∧
    (game_over (Arena.tr_board r) = game_over b ∨
     (Arena.tr_board r = Arena.set_game_over b ∧ Arena.tr_lines_cleared r = 0 ∧
      Arena.tr_attack_piece r = None)).
Proof.
  intros Hb Hfb Ht.
  destruct (play_turn_spec fb ai b t w Hb Hfb Ht)
    as (r & w' & Hr & H1 & H2 & H3 & H4 & H5 & H6 & H7 & H8 & H9 & H10).
  exists r, w'. split_and!; try done; try lia.
  destruct H9 as [Hn|(Hpos & a & Ha & Hin)]; [by left|right].
  split; [done|]. exists a. apply elem_of_available in Hin as [??]. done.
Qed.

Lemma play_turn_keeps_board_playable_witness :
  playable (new_GameBoard 10 20) ∧ wf_bank (Bank.new_FigureBank 15) ∧
  "T"%string ∈ Bank.TETROMINO_TYPES ∧
  ∃ r w', Arena.play_turn (Bank.new_FigureBank 15) agent1 (new_GameBoard 10 20)
            "T" silent = Ok (r, w').
Proof.
  assert ("T"%string ∈ Bank.TETROMINO_TYPES) as Ht by (apply list_elem_of_In; simpl; tauto).
  split; [apply playable_new_GameBoard|]. split; [apply wf_new_FigureBank|].
  split; [exact Ht|].
  destruct (play_turn_keeps_board_playable (Bank.new_FigureBank 15) agent1
              (new_GameBoard 10 20) "T" silent playable_new_GameBoard
              (wf_new_FigureBank 15) Ht) as (r & w' & Hr & _).
  exists r, w'. exact Hr.
Defined.

(** X18.  One round of the loop of [run_match], from an arena with
    playable boards, a bank with a count for every canonical type, current
    pieces of canonical types and garbage counters that are not negative,
    never raises and leaves such an arena again.  The turn counter goes up
    by one, the agents keep name and strategy, no score goes down and the
    bank is not refilled.  The round returns the name of side 2 exactly with
    the top row of board 1 taken, the name of side 1 with that of board 2
    taken and board 1 free, in both cases after a game-over entry at the end
    of the log; it goes on with both top rows free and no garbage waiting
    for side 2. *)
Theorem run_round_keeps_arena (a : Arena.Arena) (w : World) :
  wf_arena a →
  ∃ r a' w', Arena.run_round a w = Ok ((r, a'), w') ∧
    wf_arena a' ∧
    Arena.turn a' = Arena.turn a + 1 ∧
    name (Arena.ai1 a') = name (Arena.ai1 a) ∧
    name (Arena.ai2 a') = name (Arena.ai2 a) ∧
    strategy (Arena.ai1 a') = strategy (Arena.ai1 a) ∧
    strategy (Arena.ai2 a') = strategy (Arena.ai2 a) ∧
    score (Arena.board1 a) ≤ score (Arena.board1 a') ∧
    score (Arena.board2 a) ≤ score (Arena.board2 a') ∧
    Bank.get_total_remaining (Arena.bank a') ≤ Bank.get_total_remaining (Arena.bank a) ∧
    match r with
    | None =>
      is_game_over (Arena.board1 a') = Ok false ∧
      is_game_over (Arena.board2 a') = Ok false ∧
      Arena.garbage_queue_ai2 a' = 0
    | Some winner =>
      (∃ ts, last (Arena.events (Arena.log a')) =
               Some (Arena.GameOverEvent winner
                       (score (Arena.board1 a'), score (Arena.board2 a'))
                       (lines_cleared (Arena.board1 a'), lines_cleared (Arena.board2 a'))
                       ts)) ∧
      ((winner = name (Arena.ai2 a) ∧ is_game_over (Arena.board1 a') = Ok true) ∨
       (winner = name (Arena.ai1 a) ∧ is_game_over (Arena.board1 a') = Ok false ∧
        is_game_over (Arena.board2 a') = Ok true))
    end.
Proof. apply run_round_spec. Qed.

Lemma run_round_keeps_arena_witness :
  wf_arena arena_playing ∧
  ∃ r a' w', Arena.run_round arena_playing silent = Ok ((r, a'), w') ∧
             Arena.turn a' = 1.
Proof.
  assert (wf_arena arena_playing) as Hwf.
  { split_and!; [apply playable_new_GameBoard|apply playable_new_GameBoard|
                 apply wf_new_FigureBank| | |simpl; lia|simpl; lia].
    - exists "T"%string. split; [reflexivity|]. apply list_elem_of_In. simpl. tauto.
    - exists "O"%string. split; [reflexivity|]. apply list_elem_of_In. simpl. tauto. }
  split; [exact Hwf|].
  destruct (run_round_keeps_arena arena_playing silent Hwf)
    as (r & a' & w' & Hr & _ & Ht & _).
  exists r, a', w'. split; [exact Hr|exact Ht].
Defined.

(** X19.  [run_match] from an arena with playable boards, a bank with a
    count for every canonical type and garbage counters that are not
    negative never raises and returns the name of one of the two agents.
    The turn counter ends between its start and the cap, the log ends with
    the game-over entry that names the winner with the final scores and
    line totals, no score went down and the bank was not refilled.  The
    winner is side 2 with the top row of board 1 taken, side 1 with the top
    row of board 2 taken and that of board 1 free, or, at the cap, side 1
    with the strictly higher score and else side 2. *)
Theorem run_match_returns_a_winner (a : Arena.Arena) (max_turns : Z) (w : World) :
  playable (Arena.board1 a) → playable (Arena.board2 a) → wf_bank (Arena.bank a) →
  0 ≤ Arena.garbage_queue_ai1 a → 0 ≤ Arena.garbage_queue_ai2 a →
  ∃ winner a' w', Arena.run_match a max_turns w = Ok ((winner, a'), w') ∧
    (winner = name (Arena.ai1 a) ∨ winner = name (Arena.ai2 a)) ∧
    Arena.turn a ≤ Arena.turn a' ≤ Z.max (Arena.turn a) max_turns ∧
    name (Arena.ai1 a') = name (Arena.ai1 a) ∧
    name (Arena.ai2 a') = name (Arena.ai2 a) ∧
    score (Arena.board1 a) ≤ score (Arena.board1 a') ∧
    score (Arena.board2 a) ≤ score (Arena.board2 a') ∧
    Bank.get_total_remaining (Arena.bank a') ≤ Bank.get_total_remaining (Arena.bank a) ∧
    (∃ ts, last (Arena.events (Arena.log a')) =
             Some (Arena.GameOverEvent winner
                     (score (Arena.board1 a'), score (Arena.board2 a'))
                     (lines_cleared (Arena.board1 a'), lines_cleared (Arena.board2 a'))
                     ts)) ∧
    ((winner = name (Arena.ai2 a) ∧ is_game_over (Arena.board1 a') = Ok true) ∨
     (winner = name (Arena.ai1 a) ∧ is_game_over (Arena.board1 a') = Ok false ∧
      is_game_over (Arena.board2 a') = Ok true) ∨
     (max_turns ≤ Arena.turn a' ∧
      winner = if score (Arena.board1 a') >? score (Arena.board2 a')
               then name (Arena.ai1 a) else name (Arena.ai2 a))).
Proof.
  intros Hb1 Hb2 Hfb Hq1 Hq2.
  destruct (run_match_spec a max_turns w Hb1 Hb2 Hfb Hq1 Hq2)
    as (winner & a' & w' & Hr & a0 & Hm & Ht & Ha1 & Ha2 & Hbd1 & Hbd2 & Htot).
  destruct Hm as (_ & Hturn & Hn1 & Hn2 & _ & _ & Hs1 & Hs2 & Hbank & Hlog & Hwin).
  rewrite Ht, Ha1, Ha2, Hbd1, Hbd2 in *.
  exists winner, a', w'. split_and!; [done| |lia|lia|done..|lia|done|done].
  destruct Hwin as [[-> _]|[[-> _]|[_ ->]]]; [by right|by left|].
  destruct (_ >? _); [by left|by right].
Qed.

Lemma run_match_returns_a_winner_witness :
  playable (Arena.board1 arena_playing) ∧ playable (Arena.board2 arena_playing) ∧
  wf_bank (Arena.bank arena_playing) ∧
  0 ≤ Arena.garbage_queue_ai1 arena_playing ∧
  0 ≤ Arena.garbage_queue_ai2 arena_playing ∧
  ∃ winner a' w', Arena.run_match arena_playing 3 silent = Ok ((winner, a'), w') ∧
    (winner = "AI-1"%string ∨ winner = "AI-2"%string).
Proof.
  split; [apply playable_new_GameBoard|]. split; [apply playable_new_GameBoard|].
  split; [apply wf_new_FigureBank|]. split; [simpl; lia|]. split; [simpl; lia|].
  destruct (run_match_returns_a_winner arena_playing 3 silent
              playable_new_GameBoard playable_new_GameBoard (wf_new_FigureBank 15)
              ltac:(simpl; lia) ltac:(simpl; lia))
    as (winner & a' & w' & Hr & Hw & _).
  exists winner, a', w'. split; [exact Hr|exact Hw].
Defined.

(** X20.  A whole match from the constructors: for any two agents, any
    initial count of the bank, any turn cap and any behaviour of the random
    module and the clock, [Arena(ai1, ai2, FigureBank(n))] followed by
    [run_match(max_turns)] never raises, returns the name of one of the two
    agents, plays at most [max_turns] rounds, ends the log with the
    game-over entry for that winner, and leaves at most [7 * n] pieces in
    the bank. *)
Theorem fresh_match_returns_a_winner (ai1 ai2 : AIAgent) (n max_turns : Z) (w : World) :
  ∃ a w1 winner a' w',
    Arena.new_Arena ai1 ai2 (Bank.new_FigureBank n) w = Ok (a, w1) ∧
    Arena.run_match a max_turns w1 = Ok ((winner, a'), w') ∧
    (winner = name ai1 ∨ winner = name ai2) ∧
    0 ≤ Arena.turn a' ≤ Z.max 0 max_turns ∧
    Bank.get_total_remaining (Arena.bank a') ≤ 7 * n ∧
    (∃ ts, last (Arena.events (Arena.log a')) =
             Some (Arena.GameOverEvent winner
                     (score (Arena.board1 a'), score (Arena.board2 a'))
                     (lines_cleared (Arena.board1 a'), lines_cleared (Arena.board2 a'))
                     ts)) ∧
    (Arena.turn a' < max_turns →
     is_game_over (Arena.board1 a') = Ok true ∨ is_game_over (Arena.board2 a') = Ok true).
Proof.
  destruct (new_Arena_spec ai1 ai2 (Bank.new_FigureBank n) w)
    as (a & w1 & Ha & Hai1 & Hai2 & Hbank & Hb1 & Hb2 & Hturn & _ & Hq1 & Hq2).
  destruct (run_match_spec a max_turns w1)
    as (winner & a' & w' & Hr & a0 & Hm & Ht & Ha1 & Ha2 & Hbd1 & Hbd2 & Htot).
  { rewrite Hb1. apply playable_new_GameBoard. }
  { rewrite Hb2. apply playable_new_GameBoard. }
  { rewrite Hbank. apply wf_new_FigureBank. }
  { lia. } { lia. }
  destruct Hm as (_ & Hturn' & Hn1 & Hn2 & _ & _ & _ & _ & Hleft & Hlog & Hwin).
  rewrite Ht, Ha1, Ha2, Hturn, Hai1, Hai2 in *.
  rewrite Hbank, new_FigureBank_total in Htot.
  exists a, w1, winner, a', w'. split_and!; [done|done| |lia|lia|lia|done|].
  - destruct Hwin as [[-> _]|[[-> _]|[_ ->]]]; [by right|by left|].
    destruct (_ >? _); [by left|by right].
  - intros Hlt. destruct Hwin as [[_ H]|[(_ & _ & H)|[H _]]]; [by left|by right|lia].
Qed.
End FurtherMatch.
